(** * ScrollablePane: the sticky coordination engine

    A shallow embedding of
    [packages/office-ui-fabric-react/src/components/ScrollablePane/ScrollablePane.base.tsx].

    The pane owns a registry of Sticky objects, two pinned containers
    ([stickyAbove], [stickyBelow]) living in the DOM, a set of subscriber
    callbacks and the layout state [{stickyTopHeight; stickyBottomHeight}].
    The DOM is modelled by its child lists, Sticky objects live in a heap
    indexed by object identity, calls into collaborators (subscriber
    handlers, [Sticky.addSticky], [Sticky.resetSticky], [Sticky.forceUpdate])
    are recorded in a trace, [Sticky.addSticky] and [Sticky.resetSticky]
    also move the region's content in the DOM, and DOM exceptions are
    explicit results. *)

From stdpp Require Import base decidable option list sorting gmap fin_maps.
From Stdlib Require Import ZArith Lia.

Open Scope Z_scope.

(** ** The DOM: child lists and the operations the pane calls *)

Module Dom.

(** A node is an element handle; [t] maps an element to its ordered
    children (an absent key is an element without children). *)
Definition node := nat.
Definition t := gmap node (list node).

Inductive DOMException := NotFoundError | HierarchyRequestError | TypeError.

Definition children (d : gmap node (list node)) (c : node) : list node :=
  default [] (d !! c).

Definition mem (x : node) (l : list node) : bool :=
  bool_decide (x ∈ l).

(** [Node.contains]: inclusive descendant test.  The descent is bounded
    by the number of elements that have a child list, which is the
    height bound of an acyclic tree. *)
Fixpoint contains_upto (fuel : nat) (d : gmap node (list node)) (a b : node) : bool :=
  bool_decide (a = b) ||
  match fuel with
  | O => false
  | S f => existsb (fun k => contains_upto f d k b) (children d a)
  end.

Definition contains (d : gmap node (list node)) (a b : node) : bool :=
  contains_upto (size d) d a b.

(** Removing [x] from its parent, wherever that is. *)
Definition without (x : node) (l : list node) : list node :=
  filter (fun y => y ≠ x) l.

Definition detach (x : node) (d : gmap node (list node)) : gmap node (list node) :=
  without x <$> d.

(** [put_before x r l]: [x] placed immediately before the first [r]. *)
Fixpoint put_before (x r : node) (l : list node) : list node :=
  match l with
  | [] => [x]
  | y :: ys => if bool_decide (y = r) then x :: y :: ys else y :: put_before x r ys
  end.

Fixpoint next_sibling (x : node) (l : list node) : option node :=
  match l with
  | [] => None
  | y :: ys => if bool_decide (y = x) then head ys else next_sibling x ys
  end.

(** [parent.appendChild(x)]: [x] leaves its current parent and becomes
    the last child; an inclusive ancestor of [parent] is refused. *)
Definition appendChild (c x : node) (d : gmap node (list node))
  : DOMException + gmap node (list node) :=
  if contains d x c then inl HierarchyRequestError
  else inr (<[c := without x (children d c) ++ [x]]> (detach x d)).

(** [parent.insertBefore(x, ref)]: a null [ref] appends; a [ref] that is
    not a child of [parent] is a [NotFoundError]; when [ref] is [x]
    itself the reference becomes the next sibling of [x]. *)
Definition insertBefore (c x : node) (ref : option node) (d : gmap node (list node))
  : DOMException + gmap node (list node) :=
  match ref with
  | None => appendChild c x d
  | Some r =>
      if contains d x c then inl HierarchyRequestError
      else if negb (mem r (children d c)) then inl NotFoundError
      else
        let ref' := if bool_decide (r = x) then next_sibling x (children d c) else Some r in
        let rest := without x (children d c) in
        inr (<[c := match ref' with
                    | None => rest ++ [x]
                    | Some r' => put_before x r' rest
                    end]> (detach x d))
  end.

(** [parent.removeChild(x)]: a node that is not a child of [parent] is a
    [NotFoundError]. *)
Definition removeChild (c x : node) (d : gmap node (list node))
  : DOMException + gmap node (list node) :=
  if mem x (children d c) then inr (<[c := without x (children d c)]> d)
  else inl NotFoundError.

(** [x] leaves its parent and becomes the last child of [c]: what a
    successful [appendChild] does to the child lists. *)
Definition move (c x : node) (d : gmap node (list node)) : gmap node (list node) :=
  <[c := without x (children d c) ++ [x]]> (detach x d).

(** [b] is [a] or a descendant of [a]. *)
Inductive reach (d : gmap node (list node)) : node -> node -> Prop :=
| reach_refl a : reach d a a
| reach_step a k b : k ∈ children d a -> reach d k b -> reach d a b.

(** A descent from [a] to [b] through the parents [l]. *)
Inductive path (d : gmap node (list node)) : node -> node -> list node -> Prop :=
| path_nil a : path d a a []
| path_cons a k b l : k ∈ children d a -> path d k b l -> path d a b (a :: l).

End Dom.

Abbreviation node := Dom.node.
Abbreviation DOMException := Dom.DOMException.

(** ** Sticky objects, the pane and the world they live in *)

(** Identity of a [Sticky] object and of a subscriber callback. *)
Definition sid := nat.
Definition handler := nat.

(** What the pane reads from a [Sticky]: the capability getters, the
    distance the pane assigns, [sticky.state] and the element refs.
    [placeholder] is the element that holds the content of the region in
    normal flow; the pane does not read it, [Sticky.resetSticky] does. *)
Record Sticky := mkSticky {
  canStickyTop : bool;
  canStickyBottom : bool;
  distanceFromTop : Z;
  isStickyTop : bool;
  isStickyBottom : bool;
  root : option node;
  nonStickyContent : option node;
  stickyContentTop : option node;
  stickyContentBottom : option node;
  placeholder : option node
}.

Record MutationRecord := mkMutation { target : node }.

(** Calls that leave the pane. *)
Inductive Event :=
| Handle (h : handler) (content : node) (below : option node)
| StickyAddSticky (s : sid) (stickyContent : node)
| StickyResetSticky (s : sid)
| StickyForceUpdate (s : sid).

(** The props the pane reads: [children] and [className] are compared by
    identity and by value with [!==], so an identifier stands for each. *)
Record Props := mkProps {
  children : nat;
  initialScrollPosition : option Z;
  className : option nat
}.

(** [IScrollablePaneState] *)
Record PaneState := mkPaneState {
  stateTopHeight : Z;
  stateBottomHeight : Z
}.

Record World := mkWorld {
  contentContainer : option node;
  stickyAbove : option node;
  stickyBelow : option node;
  _subscribers : list handler;
  _stickies : list sid;
  stickyTopHeight : Z;
  stickyBottomHeight : Z;
  heap : sid -> Sticky;
  dom : gmap node (list node);
  offsetHeight : node -> Z;
  offsetFromContentTop : sid -> Z;
  trace : list Event;
  props : Props
}.

Definition set_subscribers (l : list handler) (w : World) : World :=
  mkWorld (contentContainer w) (stickyAbove w) (stickyBelow w) l (_stickies w)
          (stickyTopHeight w) (stickyBottomHeight w) (heap w) (dom w)
          (offsetHeight w) (offsetFromContentTop w) (trace w) (props w).

Definition set_stickies (l : list sid) (w : World) : World :=
  mkWorld (contentContainer w) (stickyAbove w) (stickyBelow w) (_subscribers w) l
          (stickyTopHeight w) (stickyBottomHeight w) (heap w) (dom w)
          (offsetHeight w) (offsetFromContentTop w) (trace w) (props w).

Definition set_heights (top bottom : Z) (w : World) : World :=
  mkWorld (contentContainer w) (stickyAbove w) (stickyBelow w) (_subscribers w) (_stickies w)
          top bottom (heap w) (dom w)
          (offsetHeight w) (offsetFromContentTop w) (trace w) (props w).

Definition set_heap (h : sid -> Sticky) (w : World) : World :=
  mkWorld (contentContainer w) (stickyAbove w) (stickyBelow w) (_subscribers w) (_stickies w)
          (stickyTopHeight w) (stickyBottomHeight w) h (dom w)
          (offsetHeight w) (offsetFromContentTop w) (trace w) (props w).

Definition set_dom (d : gmap node (list node)) (w : World) : World :=
  mkWorld (contentContainer w) (stickyAbove w) (stickyBelow w) (_subscribers w) (_stickies w)
          (stickyTopHeight w) (stickyBottomHeight w) (heap w) d
          (offsetHeight w) (offsetFromContentTop w) (trace w) (props w).

Definition set_trace (t : list Event) (w : World) : World :=
  mkWorld (contentContainer w) (stickyAbove w) (stickyBelow w) (_subscribers w) (_stickies w)
          (stickyTopHeight w) (stickyBottomHeight w) (heap w) (dom w)
          (offsetHeight w) (offsetFromContentTop w) t (props w).

(** ** Computations: state passing with DOM exceptions *)

Inductive Result (A : Type) :=
| Return (a : A) (w : World)
| Throw (e : DOMException) (w : World).
Arguments Return {A} a w.
Arguments Throw {A} e w.

Definition M (A : Type) : Type := World -> Result A.

Definition ret {A} (a : A) : M A := fun w => Return a w.

Definition bind {A B} (m : M A) (k : A -> M B) : M B :=
  fun w => match m w with
           | Return a w' => k a w'
           | Throw e w' => Throw e w'
           end.

Notation "m >> k" := (bind m (fun _ => k)) (at level 100, right associativity).

Definition skip : M unit := ret tt.

Definition when (b : bool) (m : M unit) : M unit := if b then m else skip.

Definition emit (e : Event) : M unit :=
  fun w => Return tt (set_trace (trace w ++ [e]) w).

Definition liftDom (f : gmap node (list node) -> DOMException + gmap node (list node)) : M unit :=
  fun w => match f (dom w) with
           | inl e => Throw e w
           | inr d => Return tt (set_dom d w)
           end.

(** [xs.forEach(f)] *)
Fixpoint forEach {A} (xs : list A) (f : A -> M unit) : M unit :=
  match xs with
  | [] => skip
  | x :: xs' => f x >> forEach xs' f
  end.

(** The state the world is left in, and whether the call returned. *)
Definition world_of {A} (r : Result A) : World :=
  match r with Return _ w => w | Throw _ w => w end.

Definition returns {A} (r : Result A) : bool :=
  match r with Return _ _ => true | Throw _ _ => false end.

Definition withWorld {A} (f : World -> M A) : M A := fun w => f w w.


(** A loop whose body updates local variables of the enclosing function. *)
Fixpoint foldM {A B} (f : B -> A -> M B) (xs : list A) (b : B) : M B :=
  match xs with
  | [] => ret b
  | x :: xs' => bind (f b x) (foldM f xs')
  end.

(** ** The pane *)

(** [Set.add] and [Set.delete]; iteration follows insertion order. *)
Definition set_add (x : nat) (l : list nat) : list nat :=
  if bool_decide (x ∈ l) then l else l ++ [x].

Definition set_delete (x : nat) (l : list nat) : list nat :=
  filter (fun y => y ≠ x) l.

Definition subscribe (h : handler) : M unit :=
  fun w => Return tt (set_subscribers (set_add h (_subscribers w)) w).

Definition unsubscribe (h : handler) : M unit :=
  fun w => Return tt (set_subscribers (set_delete h (_subscribers w)) w).

Definition with_distance (d : Z) (s : Sticky) : Sticky :=
  mkSticky (canStickyTop s) (canStickyBottom s) d (isStickyTop s) (isStickyBottom s)
           (root s) (nonStickyContent s) (stickyContentTop s) (stickyContentBottom s)
           (placeholder s).

Definition update_heap (s : sid) (v : Sticky) (h : sid -> Sticky) : sid -> Sticky :=
  fun s' => if bool_decide (s' = s) then v else h s'.

(** Modelled from the spec: [Sticky.setDistanceFromTop] is a method of the
    Sticky component, which lives outside ScrollablePane.base.tsx.  The
    region "recomputes [distanceFromTop] relative to the current
    scroll-content coordinate origin": the measurement the layout gives
    for the region ([offsetFromContentTop]) is stored in the object. *)
Definition setDistanceFromTop (s : sid) (container : node) : M unit :=
  fun w => Return tt
    (set_heap (update_heap s (with_distance (offsetFromContentTop w s) (heap w s)) (heap w)) w).

Definition setStickiesDistanceFromTop : M unit :=
  withWorld (fun w =>
    match contentContainer w with
    | Some cc => forEach (_stickies w) (fun sticky => setDistanceFromTop sticky cc)
    | None => skip
    end).

Definition notifySubscribers : M unit :=
  withWorld (fun w =>
    match contentContainer w with
    | Some cc =>
        forEach (_subscribers w)
                (fun handle => withWorld (fun w' => emit (Handle handle cc (stickyBelow w'))))
    | None => skip
    end).

Definition _onWindowResize : M unit := notifySubscribers.

(** *** The state of the component and its updates *)

Definition stateOf (w : World) : PaneState :=
  mkPaneState (stickyTopHeight w) (stickyBottomHeight w).

Definition shouldComponentUpdate (props nextProps : Props) (state nextState : PaneState) : bool :=
  negb (bool_decide (children props = children nextProps))
  || negb (bool_decide (initialScrollPosition props = initialScrollPosition nextProps))
  || negb (bool_decide (className props = className nextProps))
  || negb (bool_decide (stateTopHeight state = stateTopHeight nextState))
  || negb (bool_decide (stateBottomHeight state = stateBottomHeight nextState)).

(** [componentDidUpdate]: the result is the value assigned to
    [contentContainer.scrollTop], if the assignment is made. *)
Definition componentDidUpdate (props prevProps : Props) (prevState : PaneState)
  : M (option Z) :=
  withWorld (fun w =>
    let assigned :=
      match contentContainer w, initialScrollPosition props with
      | Some _, Some position =>
          if bool_decide (initialScrollPosition prevProps = Some position)
          then None else Some position
      | _, _ => None
      end in
    if negb (bool_decide (stateTopHeight prevState = stickyTopHeight w))
       || negb (bool_decide (stateBottomHeight prevState = stickyBottomHeight w))
    then bind notifySubscribers (fun _ => ret assigned)
    else ret assigned).

(** [this.setState({stickyTopHeight, stickyBottomHeight})], called outside
    a React batch, as from the observer callback or directly: the state
    is replaced, [shouldComponentUpdate] is asked with the props as they
    are, and when it answers [true] the component re-renders and
    [componentDidUpdate] runs with the previous state, all before
    [setState] returns.  The re-render writes the two heights into the
    style of the containers; child lists do not show it. *)
Definition setState (top bottom : Z) : M unit :=
  withWorld (fun w =>
    let prevState := stateOf w in
    (fun w1 => Return tt (set_heights top bottom w1)) >>
    withWorld (fun w2 =>
      when (shouldComponentUpdate (props w2) (props w2) prevState (stateOf w2))
           (bind (componentDidUpdate (props w2) (props w2) prevState) (fun _ => skip)))).

Definition forceLayoutUpdate : M unit := _onWindowResize.

(** *** _addToStickyContainer *)

(** [stickyContainer === this.stickyAbove] *)
Definition isStickyAbove (w : World) (stickyContainer : node) : bool :=
  bool_decide (stickyAbove w = Some stickyContainer).

(** The [forEach] that fills [stickyList]: the flag that is read belongs to
    [sticky], the region being placed, for every [stickyItem]. *)
Definition stickyList (w : World) (sticky : sid) (stickyContainer : node) : list sid :=
  List.filter
    (fun stickyItem : sid =>
       if isStickyAbove w stickyContainer && canStickyTop (heap w sticky) then true
       else if canStickyBottom (heap w sticky) then true
       else false)
    (_stickies w).

(** [Array.prototype.sort] with the comparator [a.distanceFromTop -
    b.distanceFromTop]: a stable sort by [distanceFromTop]. *)
Fixpoint insert_sorted (key : sid -> Z) (x : sid) (l : list sid) : list sid :=
  match l with
  | [] => [x]
  | y :: ys => if key x <=? key y then x :: y :: ys else y :: insert_sorted key x ys
  end.

Definition sort_by (key : sid -> Z) (l : list sid) : list sid :=
  foldr (insert_sorted key) [] l.

Definition distanceOf (w : World) (s : sid) : Z := distanceFromTop (heap w s).

(** [stickyContainer === this.stickyAbove ? item.stickyContentTop
    : item.stickyContentBottom] *)
Definition stickyContentFor (w : World) (stickyContainer : node) (item : sid) : option node :=
  if isStickyAbove w stickyContainer then stickyContentTop (heap w item)
  else stickyContentBottom (heap w item).

Definition stickyListSorted (w : World) (sticky : sid) (stickyContainer : node) : list sid :=
  List.filter
    (fun item =>
       match stickyContentFor w stickyContainer item with
       | Some stickyContent => Dom.mem stickyContent (Dom.children (dom w) stickyContainer)
       | None => false
       end)
    (sort_by (distanceOf w) (stickyList w sticky stickyContainer)).

Definition targetStickyToAppendBefore (w : World) (sticky : sid) (stickyContainer : node)
  : option sid :=
  List.find (fun item => distanceOf w sticky <=? distanceOf w item)
            (stickyListSorted w sticky stickyContainer).

Definition targetContainer (w : World) (sticky : sid) (stickyContainer : node) : option node :=
  match targetStickyToAppendBefore w sticky stickyContainer with
  | Some t => stickyContentFor w stickyContainer t
  | None => None
  end.

Definition _addToStickyContainer (sticky : sid) (stickyContainer stickyContentToAdd : node)
  : M unit :=
  withWorld (fun w =>
    match Dom.children (dom w) stickyContainer with
    | [] => liftDom (Dom.appendChild stickyContainer stickyContentToAdd)
    | _ :: _ =>
        if negb (Dom.contains (dom w) stickyContainer stickyContentToAdd) then
          liftDom (Dom.insertBefore stickyContainer stickyContentToAdd
                                    (targetContainer w sticky stickyContainer))
        else skip
    end).

Definition _removeStickyFromContainers (sticky : sid) : M unit :=
  withWorld (fun w =>
    match stickyAbove w, stickyContentTop (heap w sticky) with
    | Some above, Some top => liftDom (Dom.removeChild above top)
    | _, _ => skip
    end) >>
  withWorld (fun w =>
    match stickyBelow w, stickyContentBottom (heap w sticky) with
    | Some below, Some bottom => liftDom (Dom.removeChild below bottom)
    | _, _ => skip
    end).

Definition sortSticky (sticky : sid) : M unit :=
  withWorld (fun w =>
    match stickyAbove w, stickyBelow w with
    | Some _, Some _ =>
        withWorld (fun w1 =>
          match canStickyTop (heap w1 sticky), stickyContentTop (heap w1 sticky), stickyAbove w1 with
          | true, Some top, Some above => _addToStickyContainer sticky above top
          | _, _, _ => skip
          end) >>
        withWorld (fun w2 =>
          match canStickyBottom (heap w2 sticky), stickyContentBottom (heap w2 sticky), stickyBelow w2 with
          | true, Some bottom, Some below => _addToStickyContainer sticky below bottom
          | _, _, _ => skip
          end)
    | _, _ => skip
    end).

Definition addSticky (sticky : sid) : M unit :=
  (fun w => Return tt (set_stickies (set_add sticky (_stickies w)) w)) >>
  withWorld (fun w =>
    match contentContainer w with
    | Some cc => setDistanceFromTop sticky cc >> sortSticky sticky
    | None => skip
    end) >>
  notifySubscribers.

Definition removeSticky (sticky : sid) : M unit :=
  (fun w => Return tt (set_stickies (set_delete sticky (_stickies w)) w)) >>
  _removeStickyFromContainers sticky >>
  notifySubscribers.

(** *** _checkStickyStatus and updateStickyRefHeights *)

(** Modelled from the spec: [Sticky.addSticky] and [Sticky.resetSticky]
    are methods of the Sticky component, which lives outside
    ScrollablePane.base.tsx.  The specification describes a region as a
    content unit capable of detaching from normal flow to pin at an edge,
    with a normal representation and up to two pinned representations,
    and [resetSticky] as the reset to its unpinned baseline.  Accordingly
    [addSticky(stickyContent)] moves the content element of the region
    ([nonStickyContent]) into the given pinned representation, as its last
    child, and [resetSticky] returns the content element to its place in
    normal flow, the [placeholder] of the region.  The call is recorded, then the move
    is made; a region without content element (for [resetSticky], also
    without placeholder) moves nothing.  The content and the
    representations of a region are separate elements of its own tree, so
    the move is not refused. *)
Definition moveContent (parent : option node) (sticky : sid) : M unit :=
  fun w =>
    match parent, nonStickyContent (heap w sticky) with
    | Some p, Some nonSticky => Return tt (set_dom (Dom.move p nonSticky (dom w)) w)
    | _, _ => Return tt w
    end.

Definition stickyAddSticky (sticky : sid) (stickyContent : node) : M unit :=
  emit (StickyAddSticky sticky stickyContent) >> moveContent (Some stickyContent) sticky.

Definition stickyResetSticky (sticky : sid) : M unit :=
  emit (StickyResetSticky sticky) >>
  withWorld (fun w => moveContent (placeholder (heap w sticky)) sticky).

Definition _checkStickyStatus (sticky : sid) : M unit :=
  withWorld (fun w =>
    match stickyAbove w, stickyBelow w, contentContainer w, nonStickyContent (heap w sticky) with
    | Some _, Some _, Some content, Some _ =>
        if isStickyTop (heap w sticky) || isStickyBottom (heap w sticky) then
          withWorld (fun w1 =>
            match isStickyTop (heap w1 sticky), stickyAbove w1,
                  nonStickyContent (heap w1 sticky), stickyContentTop (heap w1 sticky) with
            | true, Some above, Some nonSticky, Some top =>
                when (negb (Dom.contains (dom w1) above nonSticky))
                     (stickyAddSticky sticky top)
            | _, _, _, _ => skip
            end) >>
          withWorld (fun w2 =>
            match isStickyBottom (heap w2 sticky), stickyBelow w2,
                  nonStickyContent (heap w2 sticky), stickyContentBottom (heap w2 sticky) with
            | true, Some below, Some nonSticky, Some bottom =>
                when (negb (Dom.contains (dom w2) below nonSticky))
                     (stickyAddSticky sticky bottom)
            | _, _, _, _ => skip
            end)
        else
          withWorld (fun w3 =>
            match nonStickyContent (heap w3 sticky) with
            | Some nonSticky =>
                when (negb (Dom.contains (dom w3) content nonSticky))
                     (stickyResetSticky sticky)
            | None => skip
            end)
    | _, _, _, _ => skip
    end).

(** One turn of the [forEach] of [updateStickyRefHeights]; the pair is the
    two local accumulators. *)
Definition heightStep (acc : Z * Z) (sticky : sid) : M (Z * Z) :=
  withWorld (fun w =>
    match nonStickyContent (heap w sticky) with
    | Some nonSticky =>
        let top := if isStickyTop (heap w sticky)
                   then fst acc + offsetHeight w nonSticky else fst acc in
        let bottom := if isStickyBottom (heap w sticky)
                      then snd acc + offsetHeight w nonSticky else snd acc in
        _checkStickyStatus sticky >> ret (top, bottom)
    | None => ret acc
    end).

Definition updateStickyRefHeights : M unit :=
  withWorld (fun w =>
    bind (foldM heightStep (_stickies w) (0, 0))
         (fun acc => setState (fst acc) (snd acc))).

(** *** The mutation observer callback of componentDidMount *)

Definition checkIfMutationIsSticky (w : World) (mutationRecord : MutationRecord) : bool :=
  match stickyAbove w, stickyBelow w with
  | Some above, Some below =>
      Dom.contains (dom w) above (target mutationRecord)
      || Dom.contains (dom w) below (target mutationRecord)
  | _, _ => false
  end.



(** The part of [componentDidMount] that touches the registry: distances,
    then placement of every region, then a broadcast. *)
Definition componentDidMount : M unit :=
  setStickiesDistanceFromTop >>
  withWorld (fun w => forEach (_stickies w) sortSticky) >>
  notifySubscribers.

(** ** Reading the pinned containers *)

(** The children of a pinned container ref ([[]] while the ref is null). *)
Definition pinnedChildren (w : World) (container : option node) : list node :=
  match container with
  | Some c => Dom.children (dom w) c
  | None => []
  end.

(** The registered region that owns a pinned representation of the given
    container, and the distances of the owners of its children. *)
Definition ownerOf (w : World) (container : node) (x : node) : option sid :=
  List.find (fun s => bool_decide (stickyContentFor w container s = Some x)) (_stickies w).

Definition ownerDistances (w : World) (container : node) : list (option Z) :=
  map (fun x => distanceOf w <$> ownerOf w container x) (Dom.children (dom w) container).

Fixpoint nonDecreasing (l : list (option Z)) : bool :=
  match l with
  | Some a :: ((Some b :: _) as rest) => (a <=? b) && nonDecreasing rest
  | _ :: rest => nonDecreasing rest
  | [] => true
  end.

Definition pinnedOrdered (w : World) (container : node) : bool :=
  nonDecreasing (ownerDistances w container).

(** The candidate sibling list in the words of the specification: the
    registered regions whose own capability flag matches the target edge,
    kept when their representation is already a child, ascending by
    [distanceFromTop]. *)
Definition ownFlag (w : World) (stickyContainer : node) (item : sid) : bool :=
  if isStickyAbove w stickyContainer then canStickyTop (heap w item)
  else canStickyBottom (heap w item).

Definition candidateSiblings_spec (w : World) (stickyContainer : node) : list sid :=
  sort_by (distanceOf w)
    (List.filter
       (fun item =>
          match stickyContentFor w stickyContainer item with
          | Some stickyContent => Dom.mem stickyContent (Dom.children (dom w) stickyContainer)
          | None => false
          end)
       (List.filter (ownFlag w stickyContainer) (_stickies w))).

(** ** Concrete panes *)

Module Scenario.

(** Element handles of a mounted pane. *)
Definition content : node := 0%nat.
Definition above : node := 1%nat.
Definition below : node := 2%nat.

(** Region [i] owns the elements [10 i + 10 .. 10 i + 14]. *)
Definition rootOf (i : sid) : node := (10 * i + 10)%nat.
Definition nonStickyOf (i : sid) : node := (10 * i + 11)%nat.
Definition topOf (i : sid) : node := (10 * i + 12)%nat.
Definition bottomOf (i : sid) : node := (10 * i + 13)%nat.
Definition placeholderOf (i : sid) : node := (10 * i + 14)%nat.

Definition region (top bottom : bool) (i : sid) : Sticky :=
  mkSticky top bottom 0 false false
           (Some (rootOf i)) (Some (nonStickyOf i)) (Some (topOf i)) (Some (bottomOf i))
           (Some (placeholderOf i)).

Definition paneProps : Props := mkProps 0 None None.

(** A mounted pane with one subscriber, no region and empty containers,
    over the given Sticky objects and layout. *)
Definition mounted (h : sid -> Sticky) (measure : sid -> Z) : World :=
  mkWorld (Some content) (Some above) (Some below) [7%nat] [] 0 0
          h ∅ (fun _ => 20) measure [] paneProps.

(** Three top-capable regions; 1 and 2 sit at distance 5, 3 at 3. *)
Definition tieMeasure (s : sid) : Z :=
  match s with 1%nat => 5 | 2%nat => 5 | 3%nat => 3 | _ => 0 end.
Definition tieWorld : World := mounted (region true false) tieMeasure.

(** Regions A = 1 at distance 10 and B = 2 at distance 5. *)
Definition abMeasure (s : sid) : Z :=
  match s with 1%nat => 10 | 2%nat => 5 | _ => 0 end.
Definition abWorld : World := mounted (region true false) abMeasure.

(** Region 1 lost its top capability after its representation was
    placed; region 2 is top-capable and not placed yet. *)
Definition flagHeap (s : sid) : Sticky :=
  match s with
  | 1%nat => with_distance 10 (region false false 1%nat)
  | _ => with_distance 5 (region true false s)
  end.
Definition flagWorld : World :=
  mkWorld (Some content) (Some above) (Some below) [7%nat] [1%nat; 2%nat] 0 0
          flagHeap {[ above := [topOf 1%nat] ]} (fun _ => 20) (fun _ => 5) [] paneProps.

(** The bottom container ref is null, the top one is mounted. *)
Definition halfMounted (h : sid -> Sticky) (d : gmap node (list node)) : World :=
  mkWorld (Some content) (Some above) None [7%nat] [1%nat] 0 0
          h d (fun _ => 20) (fun _ => 0) [] paneProps.

(** Region 1 reports itself pinned at the top and has no
    [nonStickyContent]; an element of the top container is mutated. *)
Definition pinnedNoContent (s : sid) : Sticky :=
  mkSticky true false 0 true false
           (Some (rootOf s)) None (Some (topOf s)) (Some (bottomOf s))
           (Some (placeholderOf s)).

(** Region 1 reports itself pinned at the top, with its content. *)
Definition pinnedTop (s : sid) : Sticky :=
  mkSticky true false 0 true false
           (Some (rootOf s)) (Some (nonStickyOf s)) (Some (topOf s)) (Some (bottomOf s))
           (Some (placeholderOf s)).

Definition halfWorld : World :=
  halfMounted pinnedTop {[ above := [topOf 1%nat] ]}.

Definition noContentWorld : World :=
  mkWorld (Some content) (Some above) (Some below) [7%nat] [1%nat] 0 0
          pinnedNoContent ∅ (fun _ => 20) (fun _ => 0) [] paneProps.



End Scenario.


(** ** What the height pass and the reconciliation amount to *)

(** The rendered height of a region: the [offsetHeight] of its
    [nonStickyContent], nothing when that ref is null. *)
Definition renderedHeight (w : World) (s : sid) : Z :=
  match nonStickyContent (heap w s) with
  | Some nonSticky => offsetHeight w nonSticky
  | None => 0
  end.

Definition sumZ (l : list Z) : Z := foldr Z.add 0 l.

Definition pinnedTopHeight (w : World) : Z :=
  sumZ (map (renderedHeight w)
            (List.filter (fun s => isStickyTop (heap w s)) (_stickies w))).

Definition pinnedBottomHeight (w : World) : Z :=
  sumZ (map (renderedHeight w)
            (List.filter (fun s => isStickyBottom (heap w s)) (_stickies w))).

(** One half of the check on a region that reports itself pinned at an
    edge: the representation the region is asked to move its content
    into, if it is asked. *)
Definition pinTarget (pinned : bool) (container nonSticky stickyContent : option node)
    (d : gmap node (list node)) : option node :=
  match pinned, container, nonSticky, stickyContent with
  | true, Some c, Some n, Some x => if Dom.contains d c n then None else Some x
  | _, _, _, _ => None
  end.

(** The DOM after a region moved its content into [parent]. *)
Definition moved (parent nonSticky : option node) (d : gmap node (list node))
  : gmap node (list node) :=
  match parent, nonSticky with
  | Some p, Some n => Dom.move p n d
  | _, _ => d
  end.

Definition topTarget (w : World) (sticky : sid) : option node :=
  pinTarget (isStickyTop (heap w sticky)) (stickyAbove w)
            (nonStickyContent (heap w sticky)) (stickyContentTop (heap w sticky)) (dom w).

(** The bottom half of the check reads the DOM the top half left. *)
Definition afterTop (w : World) (sticky : sid) : gmap node (list node) :=
  moved (topTarget w sticky) (nonStickyContent (heap w sticky)) (dom w).

Definition bottomTarget (w : World) (sticky : sid) : option node :=
  pinTarget (isStickyBottom (heap w sticky)) (stickyBelow w)
            (nonStickyContent (heap w sticky)) (stickyContentBottom (heap w sticky))
            (afterTop w sticky).

Definition addStickyCalls (sticky : sid) (stickyContent : option node) : list Event :=
  match stickyContent with
  | Some x => [StickyAddSticky sticky x]
  | None => []
  end.

(** The calls [_checkStickyStatus] makes on a region and the DOM they
    leave, as functions of the world it is run in. *)
Definition reconcileCommands (w : World) (sticky : sid) : list Event :=
  match stickyAbove w, stickyBelow w, contentContainer w, nonStickyContent (heap w sticky) with
  | Some _, Some _, Some content, Some nonSticky =>
      if isStickyTop (heap w sticky) || isStickyBottom (heap w sticky)
      then addStickyCalls sticky (topTarget w sticky)
           ++ addStickyCalls sticky (bottomTarget w sticky)
      else if Dom.contains (dom w) content nonSticky then [] else [StickyResetSticky sticky]
  | _, _, _, _ => []
  end.

Definition reconcileDom (w : World) (sticky : sid) : gmap node (list node) :=
  match stickyAbove w, stickyBelow w, contentContainer w, nonStickyContent (heap w sticky) with
  | Some _, Some _, Some content, Some nonSticky =>
      if isStickyTop (heap w sticky) || isStickyBottom (heap w sticky)
      then moved (bottomTarget w sticky) (Some nonSticky) (afterTop w sticky)
      else if Dom.contains (dom w) content nonSticky then dom w
           else moved (placeholder (heap w sticky)) (Some nonSticky) (dom w)
  | _, _, _, _ => dom w
  end.

Definition reconciled (w : World) (sticky : sid) : World :=
  set_trace (trace w ++ reconcileCommands w sticky) (set_dom (reconcileDom w sticky) w).

(** The world after one turn of the height pass: regions without
    [nonStickyContent] are not checked. *)
Definition checked (w : World) (sticky : sid) : World :=
  match nonStickyContent (heap w sticky) with
  | Some _ => reconciled w sticky
  | None => w
  end.

(** The calls of a broadcast. *)
Definition broadcastCalls (w : World) : list Event :=
  match contentContainer w with
  | Some content => map (fun h => Handle h content (stickyBelow w)) (_subscribers w)
  | None => []
  end.

(** The world [setState] leaves: when a height differs from the one held
    before, the re-render ends in the broadcast of [componentDidUpdate]. *)
Definition heightsChanged (prevState : PaneState) (w : World) : bool :=
  negb (bool_decide (stateTopHeight prevState = stickyTopHeight w))
  || negb (bool_decide (stateBottomHeight prevState = stickyBottomHeight w)).

Definition rerendered (prevState : PaneState) (w : World) : World :=
  if heightsChanged prevState w then set_trace (trace w ++ broadcastCalls w) w else w.

(** The two accumulators of the height pass after one more region. *)
Definition addHeights (w : World) (acc : Z * Z) (s : sid) : Z * Z :=
  (if isStickyTop (heap w s) then fst acc + renderedHeight w s else fst acc,
   if isStickyBottom (heap w s) then snd acc + renderedHeight w s else snd acc).

(** ** The mutation callback, read as a classification *)






(** ** The reconciliation check, as the specification states it *)

(** "A region reporting [isStickyTop] whose pinned-top representation is
    not yet a child of the top container is placed there": after the
    check the representation is a child of the container, or at least the
    region was asked to attach it. *)
Definition placedAfterCheck (w : World) (sticky : sid)
    (container : option node) (stickyContent : option node) : Prop :=
  forall c x, container = Some c -> stickyContent = Some x ->
    x ∉ Dom.children (dom w) c ->
    let w' := world_of (_checkStickyStatus sticky w) in
    x ∈ Dom.children (dom w') c \/ StickyAddSticky sticky x ∈ trace w'.

Definition reconcileTop_spec (w : World) (sticky : sid) : Prop :=
  isStickyTop (heap w sticky) = true ->
  placedAfterCheck w sticky (stickyAbove w) (stickyContentTop (heap w sticky)).

Definition reconcileBottom_spec (w : World) (sticky : sid) : Prop :=
  isStickyBottom (heap w sticky) = true ->
  placedAfterCheck w sticky (stickyBelow w) (stickyContentBottom (heap w sticky)).


(** ** Placement as a function of the DOM *)

(** What [_addToStickyContainer] does to the DOM, or the exception it ends
    in. *)
Definition placement (w : World) (sticky : sid) (stickyContainer stickyContentToAdd : node)
  : DOMException + gmap node (list node) :=
  match Dom.children (dom w) stickyContainer with
  | [] => Dom.appendChild stickyContainer stickyContentToAdd (dom w)
  | _ :: _ =>
      if Dom.contains (dom w) stickyContainer stickyContentToAdd then inr (dom w)
      else Dom.insertBefore stickyContainer stickyContentToAdd
                            (targetContainer w sticky stickyContainer) (dom w)
  end.

(** One of the two guarded placements of [sortSticky]. *)
Definition placeIf (capable : bool) (stickyContent : option node) (container : node)
    (sticky : sid) : M unit :=
  match capable, stickyContent with
  | true, Some x => _addToStickyContainer sticky container x
  | _, _ => skip
  end.

(** ** Histories of a pane *)

(** The public operations of the pane, and a region changing its own
    pinned state between two of them. *)
Inductive Op :=
| OpAddSticky (sticky : sid)
| OpRemoveSticky (sticky : sid)
| OpSortSticky (sticky : sid)
| OpUpdateStickyRefHeights
| OpNotifySubscribers
| OpSetPinned (sticky : sid) (top bottom : bool).

Definition with_pinned (top bottom : bool) (s : Sticky) : Sticky :=
  mkSticky (canStickyTop s) (canStickyBottom s) (distanceFromTop s) top bottom
           (root s) (nonStickyContent s) (stickyContentTop s) (stickyContentBottom s)
           (placeholder s).

(** An exception ends the call that raised it, not the pane: the next
    operation runs on the world the call left. *)
Definition exec (op : Op) (w : World) : World :=
  match op with
  | OpAddSticky s => world_of (addSticky s w)
  | OpRemoveSticky s => world_of (removeSticky s w)
  | OpSortSticky s => world_of (sortSticky s w)
  | OpUpdateStickyRefHeights => world_of (updateStickyRefHeights w)
  | OpNotifySubscribers => world_of (notifySubscribers w)
  | OpSetPinned s top bottom =>
      set_heap (update_heap s (with_pinned top bottom (heap w s)) (heap w)) w
  end.

Definition run (ops : list Op) (w : World) : World :=
  fold_left (fun w' op => exec op w') ops w.

(** The two edges of the pane. *)
Inductive Edge := Top | Bottom.

Definition capable (e : Edge) (s : Sticky) : bool :=
  match e with Top => canStickyTop s | Bottom => canStickyBottom s end.

Definition pinnedFlag (e : Edge) (s : Sticky) : bool :=
  match e with Top => isStickyTop s | Bottom => isStickyBottom s end.

Definition representation (e : Edge) (s : Sticky) : option node :=
  match e with Top => stickyContentTop s | Bottom => stickyContentBottom s end.

Definition containerRef (e : Edge) (w : World) : option node :=
  match e with Top => stickyAbove w | Bottom => stickyBelow w end.

(** The membership invariant as the specification states it: the
    representation is a child of its container exactly when the region's
    pinned flag of that edge is true. *)
Definition membership_spec (w : World) (e : Edge) (sticky : sid) : Prop :=
  forall x, representation e (heap w sticky) = Some x ->
    (x ∈ pinnedChildren w (containerRef e w) <-> pinnedFlag e (heap w sticky) = true).

(** ** Well-formed panes *)

Definition edgeNode (above below : node) (e : Edge) : node :=
  match e with Top => above | Bottom => below end.

(** The elements the pane arranges: the two pinned containers and the
    pinned representations of the regions. *)
Definition arranged (w0 : World) (above below : node) (y : node) : Prop :=
  y = above \/ y = below \/ exists e s, representation e (heap w0 s) = Some y.

(** A mounted pane in which nothing is registered or placed yet: the
    registry and the two containers are empty, whatever the rest of the
    DOM looks like.  The representations of its regions are pairwise
    distinct elements and none of them is a container; no placeholder is
    a container; and the regions are not nested in one another: no
    representation holds a container or another representation, and no
    content element holds a container or a representation. *)
Record FreshPane (w0 : World) (content above below : node) : Prop := mkFreshPane {
  fresh_content : contentContainer w0 = Some content;
  fresh_above : stickyAbove w0 = Some above;
  fresh_below : stickyBelow w0 = Some below;
  fresh_containers : above ≠ below;
  fresh_registry : _stickies w0 = [];
  fresh_empty : forall e, Dom.children (dom w0) (edgeNode above below e) = [];
  fresh_distinct : forall e e' s s' x,
    representation e (heap w0 s) = Some x ->
    representation e' (heap w0 s') = Some x -> e = e' /\ s = s';
  fresh_reps : forall e s x,
    representation e (heap w0 s) = Some x -> x ≠ above /\ x ≠ below;
  fresh_placeholders : forall s p,
    placeholder (heap w0 s) = Some p -> p ≠ above /\ p ≠ below;
  fresh_apart : forall e s x y,
    representation e (heap w0 s) = Some x -> arranged w0 above below y ->
    Dom.contains (dom w0) x y = true -> y = x;
  fresh_contents : forall s n y,
    nonStickyContent (heap w0 s) = Some n -> arranged w0 above below y ->
    Dom.contains (dom w0) n y = false
}.

(** What every operation keeps: the refs, the capabilities and element
    refs of the regions, containers that hold representations of capable
    regions of their own edge, and regions that are not nested. *)
Record PaneInv (w0 : World) (above below : node) (w : World) : Prop := mkPaneInv {
  inv_content : contentContainer w = contentContainer w0;
  inv_above : stickyAbove w = Some above;
  inv_below : stickyBelow w = Some below;
  inv_shape : forall e s,
    capable e (heap w s) = capable e (heap w0 s)
    /\ representation e (heap w s) = representation e (heap w0 s);
  inv_refs : forall s,
    nonStickyContent (heap w s) = nonStickyContent (heap w0 s)
    /\ placeholder (heap w s) = placeholder (heap w0 s);
  inv_owned : forall e x,
    x ∈ Dom.children (dom w) (edgeNode above below e) ->
    exists s, representation e (heap w0 s) = Some x /\ capable e (heap w0 s) = true;
  inv_apart : forall e s x y,
    representation e (heap w0 s) = Some x -> arranged w0 above below y ->
    Dom.reach (dom w) x y -> y = x;
  inv_contents : forall s n y,
    nonStickyContent (heap w0 s) = Some n -> arranged w0 above below y ->
    ~ Dom.reach (dom w) n y
}.

(** The regions of [L] have their representations in the containers of
    the edges they are capable of. *)
Definition Placed (w0 : World) (above below : node) (L : list sid) (w : World) : Prop :=
  forall e s x,
    s ∈ L -> capable e (heap w0 s) = true -> representation e (heap w0 s) = Some x ->
    x ∈ Dom.children (dom w) (edgeNode above below e).

(** One of the two guarded removals of [_removeStickyFromContainers]. *)
Definition removeStep (e : Edge) (sticky : sid) : M unit :=
  withWorld (fun w =>
    match containerRef e w, representation e (heap w sticky) with
    | Some c, Some x => liftDom (Dom.removeChild c x)
    | _, _ => skip
    end).


(** ** Calls, ordered containers and the rest of the lifecycle *)

(** What a region is to the invariants of the pane: its capabilities and
    its element refs. *)
Definition shapeOf (s : Sticky)
  : bool * bool * option node * option node * option node * option node :=
  (canStickyTop s, canStickyBottom s, nonStickyContent s,
   stickyContentTop s, stickyContentBottom s, placeholder s).

#[global] Instance Event_eq_dec : EqDecision Event.
Proof. solve_decision. Defined.

(** Two DOMs with the same child lists. *)
Definition sameChildren (d d' : gmap node (list node)) : Prop :=
  forall c, Dom.children d c = Dom.children d' c.

(** The two halves of the check on a region that reports a pinned edge,
    as a function of the DOM alone. *)
Definition pinBoth (top bottom : bool) (above below nonSticky : node)
    (stickyContentTop stickyContentBottom : option node) (d : gmap node (list node))
  : gmap node (list node) :=
  let d1 := moved (pinTarget top (Some above) (Some nonSticky) stickyContentTop d)
                  (Some nonSticky) d in
  moved (pinTarget bottom (Some below) (Some nonSticky) stickyContentBottom d1)
        (Some nonSticky) d1.


(** The subscriber a call goes to. *)
Definition calledHandler (e : Event) : option handler :=
  match e with
  | Handle h _ _ => Some h
  | _ => None
  end.

(** How many of the calls go to [h]. *)
Definition callsTo (h : handler) (calls : list Event) : nat :=
  length (filter (fun e => calledHandler e = Some h) calls).

(** ** Ordered containers *)

(** The representation of a region for an edge, as an element. *)
Definition repNode (w0 : World) (e : Edge) (s : sid) : node :=
  default 0%nat (representation e (heap w0 s)).

(** The children of the container of [e] are the representations of the
    regions [L], in that order, and these regions are registered. *)
Definition Listed (w0 : World) (above below : node) (w : World) (e : Edge) (L : list sid)
  : Prop :=
  Dom.children (dom w) (edgeNode above below e) = repNode w0 e <$> L
  /\ (forall s, s ∈ L ->
        s ∈ _stickies w /\ representation e (heap w0 s) = Some (repNode w0 e s)).

(** Strictly closer to the top of the content, by the layout. *)
Definition byOffset (w0 : World) (s s' : sid) : Prop :=
  offsetFromContentTop w0 s < offsetFromContentTop w0 s'.

Record OrderInv (w0 : World) (above below : node) (w : World) : Prop := mkOrderInv {
  ord_layout : offsetFromContentTop w = offsetFromContentTop w0;
  ord_distance : forall s, s ∈ _stickies w ->
    distanceFromTop (heap w s) = offsetFromContentTop w0 s;
  ord_registry : NoDup (_stickies w);
  ord_listed : forall e, exists L,
    Listed w0 above below w e L /\ StronglySorted (byOffset w0) L
}.


(** A scenario in which a region has a pinned representation exactly for
    the edges it is capable of. *)
Definition builtRegion (top bottom : bool) (i : sid) : Sticky :=
  mkSticky top bottom 0 false false
           (Some (Scenario.rootOf i)) (Some (Scenario.nonStickyOf i))
           (if top then Some (Scenario.topOf i) else None)
           (if bottom then Some (Scenario.bottomOf i) else None)
           (Some (Scenario.placeholderOf i)).

#[global] Instance Edge_eq_dec : EqDecision Edge.
Proof. solve_decision. Defined.

(** [componentDidMount] together with the props it reads: the result is
    the value assigned to [contentContainer.scrollTop], if the assignment
    is made ([initialScrollPosition] is tested for truthiness, so [0] is
    skipped).  Attaching the listeners and the observer is outside the
    model; the observer's callback is [onMutation]. *)
Definition componentDidMountWith (props : Props) : M (option Z) :=
  withWorld (fun w =>
    let assigned :=
      match contentContainer w, initialScrollPosition props with
      | Some _, Some position => if bool_decide (position = 0) then None else Some position
      | _, _ => None
      end in
    bind componentDidMount (fun _ => ret assigned)).

(** The pane before its refs are set: regions may register, nothing is
    mounted yet. *)
Definition unmounted (h : sid -> Sticky) (measure : sid -> Z) : World :=
  mkWorld None None None [7%nat] [] 0 0 h ∅ (fun _ => 20) measure [] Scenario.paneProps.

(** ** A region rendered inside the content of another *)

Module Nested.

(** Region 2 is rendered inside the content element of region 1; each
    region, capable of the top edge only, has its top representation and
    its placeholder under its root, and its content element in the
    placeholder. *)
Definition startDom : gmap node (list node) :=
  {[ Scenario.content := [Scenario.rootOf 1%nat];
     Scenario.rootOf 1%nat := [Scenario.topOf 1%nat; Scenario.placeholderOf 1%nat];
     Scenario.placeholderOf 1%nat := [Scenario.nonStickyOf 1%nat];
     Scenario.nonStickyOf 1%nat := [Scenario.rootOf 2%nat];
     Scenario.rootOf 2%nat := [Scenario.topOf 2%nat; Scenario.placeholderOf 2%nat];
     Scenario.placeholderOf 2%nat := [Scenario.nonStickyOf 2%nat] ]}.

(** The pane is mounted, nothing is registered, the containers are empty. *)
Definition start : World :=
  mkWorld (Some Scenario.content) (Some Scenario.above) (Some Scenario.below) [7%nat] [] 0 0
          (Scenario.region true false) startDom (fun _ => 20) Scenario.abMeasure []
          Scenario.paneProps.

(** Region 1 registers and pins at the top, a height pass moves its
    content into the top container; then region 2 registers and pins. *)
Definition history : list Op :=
  [OpAddSticky 1%nat; OpSetPinned 1%nat true false; OpUpdateStickyRefHeights;
   OpAddSticky 2%nat; OpSetPinned 2%nat true false].

Definition reached : World := run history start.

(** Region 1 then unpins, and a height pass returns its content to its
    placeholder and moves the content of region 2 into the top
    representation of region 2, which was never placed. *)
Definition unpinned : World :=
  run [OpSetPinned 1%nat false false; OpUpdateStickyRefHeights] reached.

End Nested.

(** ** A pane as the components render it *)

Module Rendered.

(** Regions 1, 2 and 3 side by side under the content container: each
    root holds the two representations and the placeholder, and the
    placeholder holds the content element. *)
Definition regionDom (i : sid) : list (node * list node) :=
  [ (Scenario.rootOf i,
     [Scenario.topOf i; Scenario.bottomOf i; Scenario.placeholderOf i]);
    (Scenario.placeholderOf i, [Scenario.nonStickyOf i]) ].

Definition startDom : gmap node (list node) :=
  list_to_map
    ((Scenario.content, [Scenario.rootOf 1%nat; Scenario.rootOf 2%nat; Scenario.rootOf 3%nat])
     :: regionDom 1%nat ++ regionDom 2%nat ++ regionDom 3%nat).

(** The pane is mounted, nothing is registered, the containers are empty. *)
Definition mounted (h : sid -> Sticky) (measure : sid -> Z) : World :=
  mkWorld (Some Scenario.content) (Some Scenario.above) (Some Scenario.below) [7%nat] [] 0 0
          h startDom (fun _ => 20) measure [] Scenario.paneProps.

End Rendered.

(** ** Basic facts about the world and the DOM *)

Arguments Dom.move : simpl never.
Arguments Dom.contains : simpl never.

Lemma set_trace_id (w : World) : set_trace (trace w) w = w.
Proof. destruct w; reflexivity. Qed.

Lemma set_trace_nil (w : World) : set_trace (trace w ++ []) w = w.
Proof. rewrite app_nil_r. apply set_trace_id. Qed.

Lemma set_dom_id (w : World) : set_dom (dom w) w = w.
Proof. destruct w; reflexivity. Qed.

Lemma emit_eq (e : Event) (w : World) :
  emit e w = Return tt (set_trace (trace w ++ [e]) w).
Proof. reflexivity. Qed.

(** *** A broadcast only calls the subscribers *)

Lemma forEach_emit (cc : node) (l : list handler) : forall w : World,
  forEach l (fun handle => withWorld (fun w' => emit (Handle handle cc (stickyBelow w')))) w
  = Return tt (set_trace (trace w ++ map (fun h => Handle h cc (stickyBelow w)) l) w).
Proof.
  induction l as [|h l IH]; intros w; simpl.
  - unfold skip, ret. by rewrite set_trace_nil.
  - unfold bind, withWorld. rewrite emit_eq, IH. simpl.
    rewrite <- app_assoc. reflexivity.
Qed.

Lemma notifySubscribers_eq (w : World) :
  notifySubscribers w = Return tt (set_trace (trace w ++ broadcastCalls w) w).
Proof.
  unfold notifySubscribers, broadcastCalls, withWorld.
  destruct (contentContainer w) as [cc|].
  - apply forEach_emit.
  - unfold skip, ret. by rewrite set_trace_nil.
Qed.

(** *** The reconciliation: calls, and the content moved *)

Lemma moveContent_eq (parent : option node) (s : sid) (w : World) :
  moveContent parent s w
  = Return tt (set_dom (moved parent (nonStickyContent (heap w s)) (dom w)) w).
Proof.
  unfold moveContent, moved. destruct parent, (nonStickyContent (heap w s));
    by rewrite ?set_dom_id.
Qed.

Lemma _checkStickyStatus_eq (s : sid) (w : World) :
  _checkStickyStatus s w = Return tt (reconciled w s).
Proof.
  destruct w as [cc sa sb subs sts th bh h d oh oc tr pr].
  unfold _checkStickyStatus, reconciled, reconcileCommands, reconcileDom, bottomTarget,
    afterTop, topTarget, pinTarget, moved, addStickyCalls, stickyAddSticky, stickyResetSticky,
    moveContent, set_trace, set_dom, bind, withWorld, ret, skip, when, emit; simpl.
  destruct sa as [a|], sb as [b|], cc as [c|]; rewrite ?app_nil_r; try reflexivity.
  destruct (h s) as [ct cb dist it ib r nsc top bot ph] eqn:Hs; simpl.
  destruct nsc as [n|]; rewrite ?app_nil_r; try reflexivity.
  destruct it, ib, top as [t|], bot as [t'|]; repeat (progress (rewrite ?Hs; simpl));
    repeat (match goal with
            | |- context [Dom.contains ?d' ?x ?y] => destruct (Dom.contains d' x y) eqn:?
            end; repeat (progress (rewrite ?Hs; simpl)));
    rewrite ?app_nil_r, <- ?app_assoc; try reflexivity; try congruence;
    destruct ph; reflexivity.
Qed.

(** What a check leaves alone. *)
Lemma reconciled_frame (w : World) (s : sid) :
  let w' := reconciled w s in
  contentContainer w' = contentContainer w /\ stickyAbove w' = stickyAbove w
  /\ stickyBelow w' = stickyBelow w /\ _subscribers w' = _subscribers w
  /\ _stickies w' = _stickies w /\ stickyTopHeight w' = stickyTopHeight w
  /\ stickyBottomHeight w' = stickyBottomHeight w /\ heap w' = heap w
  /\ offsetHeight w' = offsetHeight w /\ offsetFromContentTop w' = offsetFromContentTop w
  /\ props w' = props w.
Proof. repeat split. Qed.

Lemma checked_frame (w : World) (s : sid) :
  let w' := checked w s in
  contentContainer w' = contentContainer w /\ stickyAbove w' = stickyAbove w
  /\ stickyBelow w' = stickyBelow w /\ _subscribers w' = _subscribers w
  /\ _stickies w' = _stickies w /\ stickyTopHeight w' = stickyTopHeight w
  /\ stickyBottomHeight w' = stickyBottomHeight w /\ heap w' = heap w
  /\ offsetHeight w' = offsetHeight w /\ offsetFromContentTop w' = offsetFromContentTop w
  /\ props w' = props w.
Proof. unfold checked. destruct (nonStickyContent (heap w s)); repeat split. Qed.

Lemma fold_checked_frame (l : list sid) : forall w : World,
  let w' := fold_left checked l w in
  contentContainer w' = contentContainer w /\ stickyAbove w' = stickyAbove w
  /\ stickyBelow w' = stickyBelow w /\ _subscribers w' = _subscribers w
  /\ _stickies w' = _stickies w /\ stickyTopHeight w' = stickyTopHeight w
  /\ stickyBottomHeight w' = stickyBottomHeight w /\ heap w' = heap w
  /\ offsetHeight w' = offsetHeight w /\ offsetFromContentTop w' = offsetFromContentTop w
  /\ props w' = props w.
Proof.
  induction l as [|s l IH]; intros w; [repeat split|].
  simpl. specialize (IH (checked w s)). simpl in IH.
  destruct IH as (H1 & H2 & H3 & H4 & H5 & H6 & H7 & H8 & H9 & H10 & H11).
  destruct (checked_frame w s) as (G1 & G2 & G3 & G4 & G5 & G6 & G7 & G8 & G9 & G10 & G11).
  rewrite H1, H2, H3, H4, H5, H6, H7, H8, H9, H10, H11. repeat split; assumption.
Qed.

Lemma heightStep_eq (acc : Z * Z) (s : sid) (w : World) :
  heightStep acc s w = Return (addHeights w acc s) (checked w s).
Proof.
  unfold heightStep, addHeights, checked, renderedHeight, withWorld, bind.
  destruct (nonStickyContent (heap w s)) as [n|] eqn:E.
  - rewrite _checkStickyStatus_eq. reflexivity.
  - unfold ret.
    destruct acc, (isStickyTop _), (isStickyBottom _); simpl; rewrite ?Z.add_0_r; reflexivity.
Qed.

Lemma addHeights_frame (w w' : World) :
  heap w' = heap w -> offsetHeight w' = offsetHeight w -> addHeights w' = addHeights w.
Proof. intros Hh Ho. unfold addHeights, renderedHeight. by rewrite Hh, Ho. Qed.

Lemma foldM_heightStep_eq (l : list sid) : forall (acc : Z * Z) (w : World),
  foldM heightStep l acc w = Return (fold_left (addHeights w) l acc) (fold_left checked l w).
Proof.
  induction l as [|s l IH]; intros acc w; simpl; [reflexivity|].
  unfold bind. rewrite heightStep_eq, IH.
  destruct (checked_frame w s) as (_ & _ & _ & _ & _ & _ & _ & Hh & Ho & _).
  by rewrite (addHeights_frame w (checked w s) Hh Ho).
Qed.

Lemma fold_left_addHeights (w : World) (l : list sid) : forall acc : Z * Z,
  fold_left (addHeights w) l acc =
  (fst acc + sumZ (map (renderedHeight w) (List.filter (fun s => isStickyTop (heap w s)) l)),
   snd acc + sumZ (map (renderedHeight w) (List.filter (fun s => isStickyBottom (heap w s)) l))).
Proof.
  induction l as [|s l IH]; intros [t b]; simpl.
  - f_equal; lia.
  - rewrite IH. unfold addHeights; simpl.
    destruct (isStickyTop (heap w s)), (isStickyBottom (heap w s)); simpl; f_equal; lia.
Qed.

Lemma setState_eq (top bottom : Z) (w : World) :
  setState top bottom w = Return tt (rerendered (stateOf w) (set_heights top bottom w)).
Proof.
  unfold setState, withWorld, bind, when, rerendered, heightsChanged, shouldComponentUpdate.
  cbv beta.
  change (stateOf (set_heights top bottom w)) with (mkPaneState top bottom).
  change (stickyTopHeight (set_heights top bottom w)) with top.
  change (stickyBottomHeight (set_heights top bottom w)) with bottom.
  cbn [stateTopHeight stateBottomHeight stateOf].
  rewrite !(bool_decide_eq_true_2 (_ = _ :> nat)), !(bool_decide_eq_true_2 (_ = _ :> option _))
    by done.
  cbn [negb orb].
  destruct (negb (bool_decide (stickyTopHeight w = top))
            || negb (bool_decide (stickyBottomHeight w = bottom))) eqn:E; [|reflexivity].
  unfold componentDidUpdate, withWorld, stateOf.
  change (stickyTopHeight (set_heights top bottom w)) with top.
  change (stickyBottomHeight (set_heights top bottom w)) with bottom.
  cbn [stateTopHeight stateBottomHeight]. rewrite E.
  unfold bind. rewrite notifySubscribers_eq. reflexivity.
Qed.

(** The height pass: the checks in registry order, then the two sums
    are stored and, when one of them changed, broadcast. *)
Lemma updateStickyRefHeights_eq (w : World) :
  updateStickyRefHeights w =
  Return tt (rerendered (stateOf w)
               (set_heights (pinnedTopHeight w) (pinnedBottomHeight w)
                  (fold_left checked (_stickies w) w))).
Proof.
  unfold updateStickyRefHeights, withWorld, bind.
  rewrite foldM_heightStep_eq, fold_left_addHeights, setState_eq. simpl.
  destruct (fold_checked_frame (_stickies w) w) as (_ & _ & _ & _ & _ & Ht & Hb & _).
  unfold stateOf. by rewrite Ht, Hb.
Qed.

Lemma pinnedHeights_frame (w w' : World) :
  _stickies w' = _stickies w -> heap w' = heap w -> offsetHeight w' = offsetHeight w ->
  pinnedTopHeight w' = pinnedTopHeight w /\ pinnedBottomHeight w' = pinnedBottomHeight w.
Proof.
  intros Hs Hh Ho. unfold pinnedTopHeight, pinnedBottomHeight, renderedHeight.
  by rewrite Hs, Hh, Ho.
Qed.

Lemma rerendered_frame (prevState : PaneState) (w : World) :
  let w' := rerendered prevState w in
  contentContainer w' = contentContainer w /\ stickyAbove w' = stickyAbove w
  /\ stickyBelow w' = stickyBelow w /\ _subscribers w' = _subscribers w
  /\ _stickies w' = _stickies w /\ stickyTopHeight w' = stickyTopHeight w
  /\ stickyBottomHeight w' = stickyBottomHeight w /\ heap w' = heap w
  /\ offsetHeight w' = offsetHeight w /\ offsetFromContentTop w' = offsetFromContentTop w
  /\ props w' = props w /\ dom w' = dom w.
Proof. unfold rerendered. destruct (heightsChanged prevState w); repeat split. Qed.

(** What the height pass stores and what it leaves alone. *)
Lemma updateStickyRefHeights_frame (w : World) :
  let w' := world_of (updateStickyRefHeights w) in
  updateStickyRefHeights w = Return tt w'
  /\ stickyTopHeight w' = pinnedTopHeight w /\ stickyBottomHeight w' = pinnedBottomHeight w
  /\ contentContainer w' = contentContainer w /\ stickyAbove w' = stickyAbove w
  /\ stickyBelow w' = stickyBelow w /\ _subscribers w' = _subscribers w
  /\ _stickies w' = _stickies w /\ heap w' = heap w
  /\ offsetHeight w' = offsetHeight w /\ offsetFromContentTop w' = offsetFromContentTop w
  /\ props w' = props w.
Proof.
  rewrite updateStickyRefHeights_eq. cbn [world_of].
  destruct (fold_checked_frame (_stickies w) w)
    as (H1 & H2 & H3 & H4 & H5 & H6 & H7 & H8 & H9 & H10 & H11).
  set (w1 := set_heights _ _ _).
  destruct (rerendered_frame (stateOf w) w1)
    as (G1 & G2 & G3 & G4 & G5 & G6 & G7 & G8 & G9 & G10 & G11 & _).
  cbv zeta in *.
  rewrite G1, G2, G3, G4, G5, G6, G7, G8, G9, G10, G11. subst w1. simpl.
  by rewrite H1, H2, H3, H4, H5, H8, H9, H10, H11.
Qed.

(** The checks do not read the registry. *)
Lemma checked_set_stickies (L : list sid) (w : World) (x : sid) :
  checked (set_stickies L w) x = set_stickies L (checked w x).
Proof.
  unfold checked. cbn [heap set_stickies].
  by destruct (nonStickyContent (heap w x)).
Qed.

Lemma fold_checked_set_stickies (L : list sid) (l : list sid) : forall w : World,
  fold_left checked l (set_stickies L w) = set_stickies L (fold_left checked l w).
Proof.
  induction l as [|x l IH]; intros w; [done|].
  simpl. by rewrite checked_set_stickies, IH.
Qed.

(** A region without content element is passed over. *)
Lemma fold_checked_set_delete (s : sid) (l : list sid) : forall w : World,
  nonStickyContent (heap w s) = None ->
  fold_left checked (set_delete s l) w = fold_left checked l w.
Proof.
  unfold set_delete. induction l as [|x l IH]; intros w Hs; [done|].
  rewrite filter_cons. destruct (checked_frame w x) as (_ & _ & _ & _ & _ & _ & _ & Hh & _).
  case_decide as Hx.
  - simpl. apply IH. by rewrite Hh.
  - try apply dec_stable in Hx. subst x. simpl.
    assert (Hc : checked w s = w) by (unfold checked; by rewrite Hs).
    rewrite Hc. by apply IH.
Qed.

Lemma sum_set_delete (w : World) (f : sid -> bool) (s : sid) (l : list sid) :
  renderedHeight w s = 0 ->
  sumZ (map (renderedHeight w) (List.filter f (set_delete s l)))
  = sumZ (map (renderedHeight w) (List.filter f l)).
Proof.
  intros Hr. unfold set_delete. induction l as [|x l IH]; [done|].
  rewrite filter_cons. case_decide as Hx.
  - simpl. destruct (f x); simpl; by rewrite IH.
  - try apply dec_stable in Hx. subst x. simpl. destruct (f s); simpl; rewrite IH; [|done].
    rewrite Hr. lia.
Qed.





(** *** The mutation callback *)




Lemma checkIfMutationIsSticky_null (w : World)
    (H : stickyAbove w = None \/ stickyBelow w = None) (r : MutationRecord) :
  checkIfMutationIsSticky w r = false.
Proof.
  unfold checkIfMutationIsSticky.
  destruct H as [-> | ->]; [reflexivity|]. by destruct (stickyAbove w).
Qed.

(** *** Child lists under the DOM operations *)

Lemma children_insert (d : gmap node (list node)) (c c' : node) (l : list node) :
  Dom.children (<[c := l]> d) c' = if decide (c = c') then l else Dom.children d c'.
Proof.
  unfold Dom.children. rewrite lookup_insert. by destruct (decide (c = c')).
Qed.

Lemma children_detach (d : gmap node (list node)) (x c : node) :
  Dom.children (Dom.detach x d) c = Dom.without x (Dom.children d c).
Proof.
  unfold Dom.children, Dom.detach. rewrite lookup_fmap.
  by destruct (d !! c).
Qed.

Lemma elem_of_without (x y : node) (l : list node) :
  y ∈ Dom.without x l <-> y ∈ l /\ y ≠ x.
Proof. unfold Dom.without. rewrite list_elem_of_filter. tauto. Qed.

Lemma without_absent (x : node) (l : list node) : x ∉ l -> Dom.without x l = l.
Proof.
  unfold Dom.without. induction l as [|y l IH]; intros Hx; [done|].
  rewrite filter_cons. apply not_elem_of_cons in Hx as [Hne Hl].
  rewrite decide_True by done. by rewrite IH.
Qed.

Lemma elem_of_put_before (x r y : node) (l : list node) :
  y ∈ Dom.put_before x r l <-> y = x \/ y ∈ l.
Proof.
  induction l as [|z l IH]; simpl.
  - rewrite list_elem_of_singleton. split; [by left|].
    intros [Hy|Hy]; [done|]. by apply elem_of_nil in Hy.
  - case_bool_decide; rewrite !elem_of_cons, ?IH; tauto.
Qed.

Lemma mem_true (x : node) (l : list node) : Dom.mem x l = true <-> x ∈ l.
Proof. unfold Dom.mem. apply bool_decide_eq_true. Qed.

Lemma contains_self (d : gmap node (list node)) (a : node) : Dom.contains d a a = true.
Proof.
  unfold Dom.contains. destruct (size d); simpl; by rewrite bool_decide_eq_true_2.
Qed.

Lemma contains_child (d : gmap node (list node)) (c x : node) :
  x ∈ Dom.children d c -> Dom.contains d c x = true.
Proof.
  intros Hx. unfold Dom.contains.
  assert (Hsize : size d ≠ 0%nat).
  { intros Hz. apply map_size_empty_inv in Hz. subst d.
    unfold Dom.children in Hx. rewrite lookup_empty in Hx. simpl in Hx. set_solver. }
  destruct (size d) as [|f]; [done|]. simpl.
  apply orb_true_iff. right. apply existsb_exists. exists x. split.
  - by apply list_elem_of_In.
  - destruct f; simpl; by rewrite bool_decide_eq_true_2.
Qed.

(** After [appendChild] and [insertBefore] the node is a child of the
    parent, and every other node stays where it was. *)
Lemma appendChild_child (c x : node) (d d' : gmap node (list node)) :
  Dom.appendChild c x d = inr d' -> x ∈ Dom.children d' c.
Proof.
  unfold Dom.appendChild. destruct (Dom.contains d x c); [done|].
  intros [= <-]. rewrite children_insert, decide_True by done. set_solver.
Qed.

Lemma appendChild_others (c x : node) (d d' : gmap node (list node)) (c' y : node) :
  Dom.appendChild c x d = inr d' -> y ≠ x ->
  (y ∈ Dom.children d' c' <-> y ∈ Dom.children d c').
Proof.
  unfold Dom.appendChild. destruct (Dom.contains d x c); [done|].
  intros [= <-] Hy. rewrite children_insert. destruct (decide (c = c')) as [->|].
  - rewrite elem_of_app, elem_of_without, list_elem_of_singleton. tauto.
  - rewrite children_detach, elem_of_without. tauto.
Qed.

Lemma insertBefore_child (c x : node) (ref : option node) (d d' : gmap node (list node)) :
  Dom.insertBefore c x ref d = inr d' -> x ∈ Dom.children d' c.
Proof.
  destruct ref as [r|]; [|apply appendChild_child].
  unfold Dom.insertBefore. destruct (Dom.contains d x c); [done|].
  destruct (negb _); [done|]. intros [= <-].
  rewrite children_insert, decide_True by done.
  destruct (if bool_decide (r = x) then _ else _).
  - apply elem_of_put_before. by left.
  - set_solver.
Qed.

Lemma insertBefore_others (c x : node) (ref : option node) (d d' : gmap node (list node))
    (c' y : node) :
  Dom.insertBefore c x ref d = inr d' -> y ≠ x ->
  (y ∈ Dom.children d' c' <-> y ∈ Dom.children d c').
Proof.
  destruct ref as [r|]; [|apply appendChild_others].
  unfold Dom.insertBefore. destruct (Dom.contains d x c); [done|].
  destruct (negb _); [done|]. intros [= <-] Hy.
  rewrite children_insert. destruct (decide (c = c')) as [->|].
  - destruct (if bool_decide (r = x) then _ else _).
    + rewrite elem_of_put_before, elem_of_without. tauto.
    + rewrite elem_of_app, elem_of_without, list_elem_of_singleton. tauto.
  - rewrite children_detach, elem_of_without. tauto.
Qed.

(** *** _addToStickyContainer through [placement] *)

Lemma _addToStickyContainer_eq (s : sid) (c x : node) (w : World) :
  _addToStickyContainer s c x w =
  match placement w s c x with
  | inl e => Throw e w
  | inr d => Return tt (set_dom d w)
  end.
Proof.
  unfold _addToStickyContainer, placement, withWorld, liftDom.
  destruct (Dom.children (dom w) c) as [|k ks]; [reflexivity|].
  destruct (Dom.contains (dom w) c x); simpl; [|reflexivity].
  unfold skip, ret. by rewrite set_dom_id.
Qed.

(** The placement reads the world through its DOM, container refs,
    registry and heap only. *)
Lemma placement_set_dom (w : World) (d : gmap node (list node)) (s : sid) (c x : node) :
  placement (set_dom d w) s c x =
  match Dom.children d c with
  | [] => Dom.appendChild c x d
  | _ :: _ =>
      if Dom.contains d c x then inr d
      else Dom.insertBefore c x (targetContainer (set_dom d w) s c) d
  end.
Proof. reflexivity. Qed.

Lemma placement_present (w : World) (s : sid) (c x : node) :
  x ∈ Dom.children (dom w) c -> placement w s c x = inr (dom w).
Proof.
  intros Hx. unfold placement.
  destruct (Dom.children (dom w) c) as [|k ks] eqn:E; [by apply elem_of_nil in Hx|].
  rewrite contains_child; [done|]. by rewrite E.
Qed.

Lemma placement_child (w : World) (s : sid) (c x : node) (d' : gmap node (list node)) :
  placement w s c x = inr d' ->
  x ∈ Dom.children d' c \/ (d' = dom w /\ Dom.contains (dom w) c x = true).
Proof.
  unfold placement.
  destruct (Dom.children (dom w) c) as [|k ks]; [left; by eapply appendChild_child|].
  destruct (Dom.contains (dom w) c x) eqn:E.
  - intros [= <-]. by right.
  - left. by eapply insertBefore_child.
Qed.

Lemma placement_others (w : World) (s : sid) (c x : node) (d' : gmap node (list node))
    (c' y : node) :
  placement w s c x = inr d' -> y ≠ x ->
  (y ∈ Dom.children d' c' <-> y ∈ Dom.children (dom w) c').
Proof.
  unfold placement.
  destruct (Dom.children (dom w) c) as [|k ks]; [apply appendChild_others|].
  destruct (Dom.contains (dom w) c x) eqn:E.
  - by intros [= <-].
  - apply insertBefore_others.
Qed.

Lemma placement_stable (w : World) (s : sid) (c x : node) (d' : gmap node (list node)) :
  placement w s c x = inr d' -> placement (set_dom d' w) s c x = inr d'.
Proof.
  intros Hp. destruct (placement_child _ _ _ _ _ Hp) as [Hx | [-> _]].
  - by apply (placement_present (set_dom d' w)).
  - by rewrite set_dom_id.
Qed.

(** *** sortSticky as two guarded placements *)

Lemma placeIf_cases (capable : bool) (oc : option node) (c : node) (s : sid) (w : World) :
  (placeIf capable oc c s w = Return tt w
   /\ (capable = false \/ oc = None))
  \/ (exists x, capable = true /\ oc = Some x
      /\ ((exists e, placement w s c x = inl e /\ placeIf capable oc c s w = Throw e w)
          \/ (exists d, placement w s c x = inr d
                        /\ placeIf capable oc c s w = Return tt (set_dom d w)))).
Proof.
  unfold placeIf. destruct capable; [|left; split; [done|by left]].
  destruct oc as [x|]; [|left; split; [done|by right]].
  right. exists x. split; [done|]. split; [done|].
  rewrite _addToStickyContainer_eq.
  destruct (placement w s c x) as [e|d]; [left|right]; eauto.
Qed.

Lemma sortSticky_eq (s : sid) (w : World) :
  sortSticky s w =
  match stickyAbove w, stickyBelow w with
  | Some above, Some below =>
      (placeIf (canStickyTop (heap w s)) (stickyContentTop (heap w s)) above s >>
       placeIf (canStickyBottom (heap w s)) (stickyContentBottom (heap w s)) below s) w
  | _, _ => Return tt w
  end.
Proof.
  unfold sortSticky, withWorld, bind, placeIf.
  destruct (stickyAbove w) as [a|] eqn:Ea; [|reflexivity].
  destruct (stickyBelow w) as [b|] eqn:Eb; [|reflexivity].
  rewrite Ea.
  assert (Hbottom : forall w', heap w' = heap w -> stickyBelow w' = Some b ->
    match canStickyBottom (heap w' s), stickyContentBottom (heap w' s), stickyBelow w' with
    | true, Some bottom, Some below => _addToStickyContainer s below bottom
    | _, _, _ => skip
    end w' =
    match canStickyBottom (heap w s), stickyContentBottom (heap w s) with
    | true, Some x => _addToStickyContainer s b x
    | _, _ => skip
    end w').
  { intros w' -> ->.
    by destruct (canStickyBottom (heap w s)), (stickyContentBottom (heap w s)). }
  destruct (canStickyTop (heap w s)); [|by apply Hbottom].
  destruct (stickyContentTop (heap w s)) as [t|]; [|by apply Hbottom].
  rewrite _addToStickyContainer_eq.
  destruct (placement w s a t) as [e|d]; [reflexivity|].
  by apply Hbottom.
Qed.

Lemma sortSticky_eq_none (s : sid) (w : World) :
  stickyAbove w = None \/ stickyBelow w = None ->
  sortSticky s (world_of (Return tt w)) = Return tt w.
Proof.
  intros H. rewrite sortSticky_eq. simpl.
  destruct H as [-> | ->]; [done|]. by destruct (stickyAbove w).
Qed.

Lemma placeIf_present (s : sid) (c x : node) (w : World) :
  x ∈ Dom.children (dom w) c -> _addToStickyContainer s c x w = Return tt w.
Proof.
  intros Hx. rewrite _addToStickyContainer_eq, placement_present by done.
  by rewrite set_dom_id.
Qed.

Lemma _addToStickyContainer_again (s : sid) (c x : node) (w : World)
    (d : gmap node (list node)) :
  placement w s c x = inr d ->
  _addToStickyContainer s c x (set_dom d w) = Return tt (set_dom d w).
Proof.
  intros Hp. rewrite _addToStickyContainer_eq, (placement_stable _ _ _ _ _ Hp).
  reflexivity.
Qed.

Lemma placeIf_set_dom_again (capable : bool) (oc : option node) (c : node) (s : sid)
    (w w' : World) :
  placeIf capable oc c s w = Return tt w' ->
  placeIf capable oc c s w' = Return tt w'.
Proof.
  destruct (placeIf_cases capable oc c s w)
    as [[Hr _] | (x & -> & -> & [(e & _ & Hr) | (d & Hp & Hr)])];
    rewrite Hr; intros [= <-]; [done|].
  simpl. by apply _addToStickyContainer_again.
Qed.

Lemma placeIf_throw (capable : bool) (oc : option node) (c : node) (s : sid)
    (w w' : World) (e : DOMException) :
  placeIf capable oc c s w = Throw e w' -> w' = w.
Proof.
  destruct (placeIf_cases capable oc c s w)
    as [[Hr _] | (x & -> & -> & [(e' & _ & Hr) | (d & Hp & Hr)])];
    rewrite Hr; by intros [= <-].
Qed.

(** A placement that returned leaves a world that differs in the DOM
    only; the placed node is then a child of its container unless it was
    nested below it, and the other nodes keep their parents. *)
Lemma placeIf_return (capable : bool) (oc : option node) (c : node) (s : sid)
    (w w' : World) :
  placeIf capable oc c s w = Return tt w' ->
  exists d, w' = set_dom d w
    /\ (forall c' y, oc ≠ Some y -> y ∈ Dom.children (dom w) c' -> y ∈ Dom.children d c')
    /\ (forall x, capable = true -> oc = Some x ->
          x ∈ Dom.children d c \/ (d = dom w /\ Dom.contains (dom w) c x = true)).
Proof.
  destruct (placeIf_cases capable oc c s w)
    as [[Hr Hc] | (x & -> & -> & [(e' & _ & Hr) | (d & Hp & Hr)])];
    rewrite Hr; intros [= <-].
  - exists (dom w). rewrite set_dom_id. split; [done|]. split; [done|].
    intros x -> ->. by destruct Hc.
  - exists d. split; [done|]. split.
    + intros c' y Hy Hin. apply (placement_others _ _ _ _ _ c' y Hp); [congruence|done].
    + intros x' _ [= <-]. by apply (placement_child _ _ _ _ _ Hp).
Qed.

Lemma sortSticky_on (w0 w : World) (s : sid) (a b : node) :
  heap w = heap w0 -> stickyAbove w = Some a -> stickyBelow w = Some b ->
  sortSticky s w =
  (placeIf (canStickyTop (heap w0 s)) (stickyContentTop (heap w0 s)) a s >>
   placeIf (canStickyBottom (heap w0 s)) (stickyContentBottom (heap w0 s)) b s) w.
Proof. intros Hh Ha Hb. by rewrite sortSticky_eq, Ha, Hb, Hh. Qed.

Lemma sortSticky_twice (w : World) (s : sid)
    (Hdistinct : forall t b, stickyContentTop (heap w s) = Some t ->
                             stickyContentBottom (heap w s) = Some b -> t ≠ b)
    (Hdirect : forall a t, stickyAbove w = Some a -> stickyContentTop (heap w s) = Some t ->
                           Dom.contains (dom w) a t = true -> t ∈ Dom.children (dom w) a) :
  sortSticky s (world_of (sortSticky s w)) = sortSticky s w.
Proof.
  destruct (stickyAbove w) as [a|] eqn:Ea;
    [|rewrite (sortSticky_eq s w), Ea; apply sortSticky_eq_none; by left].
  destruct (stickyBelow w) as [b|] eqn:Eb;
    [|rewrite (sortSticky_eq s w), Ea, Eb; apply sortSticky_eq_none; by right].
  rewrite (sortSticky_on w w s a b) by done.
  set (T := placeIf (canStickyTop (heap w s)) (stickyContentTop (heap w s)) a s).
  set (B := placeIf (canStickyBottom (heap w s)) (stickyContentBottom (heap w s)) b s).
  unfold bind.
  destruct (T w) as [[] w1|e w1] eqn:HT.
  2:{ pose proof (placeIf_throw _ _ _ _ _ _ _ HT) as ->. cbn [world_of].
      rewrite (sortSticky_on w w s a b) by done. fold T B. unfold bind. by rewrite HT. }
  destruct (placeIf_return _ _ _ _ _ _ HT) as (d1 & -> & Hkeep1 & Hin1).
  pose proof (placeIf_set_dom_again _ _ _ _ _ _ HT) as HT1. fold T in HT1.
  destruct (B (set_dom d1 w)) as [[] w2|e w2] eqn:HB.
  2:{ pose proof (placeIf_throw _ _ _ _ _ _ _ HB) as ->. cbn [world_of].
      rewrite (sortSticky_on w (set_dom d1 w) s a b) by done. fold T B.
      unfold bind. by rewrite HT1, HB. }
  destruct (placeIf_return _ _ _ _ _ _ HB) as (d2 & -> & Hkeep2 & Hin2).
  pose proof (placeIf_set_dom_again _ _ _ _ _ _ HB) as HB2. fold B in HB2.
  cbn [world_of]. rewrite (sortSticky_on w (set_dom d2 (set_dom d1 w)) s a b) by done. fold T B.
  unfold bind.
  assert (HT2 : T (set_dom d2 (set_dom d1 w)) = Return tt (set_dom d2 (set_dom d1 w))).
  { subst T. unfold placeIf.
    destruct (canStickyTop (heap w s)) eqn:Ect; [|done].
    destruct (stickyContentTop (heap w s)) as [t|] eqn:Et; [|done].
    apply placeIf_present. simpl.
    assert (Ht1 : t ∈ Dom.children d1 a).
    { destruct (Hin1 t eq_refl eq_refl) as [Hin | [-> Hc]]; [done|]. by eapply Hdirect. }
    apply Hkeep2; [|done].
    intros Heq. by apply (Hdistinct t t). }
  by rewrite HT2, HB2.
Qed.

(** *** More on the DOM operations *)

Lemma appendChild_ok (c x : node) (d : gmap node (list node)) :
  Dom.contains d x c = false -> exists d', Dom.appendChild c x d = inr d'.
Proof. intros H. unfold Dom.appendChild. rewrite H. eauto. Qed.

Lemma insertBefore_ok (c x : node) (ref : option node) (d : gmap node (list node)) :
  Dom.contains d x c = false ->
  (forall r, ref = Some r -> r ∈ Dom.children d c) ->
  exists d', Dom.insertBefore c x ref d = inr d'.
Proof.
  intros H Href. destruct ref as [r|]; [|by apply appendChild_ok].
  unfold Dom.insertBefore. rewrite H.
  assert (Hm : Dom.mem r (Dom.children d c) = true) by (apply mem_true; by apply Href).
  rewrite Hm. simpl. eauto.
Qed.

Lemma appendChild_elsewhere (c x : node) (d d' : gmap node (list node)) (c' : node) :
  Dom.appendChild c x d = inr d' -> c' ≠ c -> x ∉ Dom.children d' c'.
Proof.
  unfold Dom.appendChild. destruct (Dom.contains d x c); [done|].
  intros [= <-] Hc. rewrite children_insert, decide_False by done.
  rewrite children_detach, elem_of_without. tauto.
Qed.

Lemma insertBefore_elsewhere (c x : node) (ref : option node)
    (d d' : gmap node (list node)) (c' : node) :
  Dom.insertBefore c x ref d = inr d' -> c' ≠ c -> x ∉ Dom.children d' c'.
Proof.
  destruct ref as [r|]; [|apply appendChild_elsewhere].
  unfold Dom.insertBefore. destruct (Dom.contains d x c); [done|].
  destruct (negb _); [done|]. intros [= <-] Hc.
  rewrite children_insert, decide_False by done.
  rewrite children_detach, elem_of_without. tauto.
Qed.

Lemma placement_elsewhere (w : World) (s : sid) (c x : node) (d' : gmap node (list node))
    (c' : node) :
  placement w s c x = inr d' -> c' ≠ c ->
  x ∈ Dom.children d' c' -> x ∈ Dom.children (dom w) c'.
Proof.
  unfold placement.
  destruct (Dom.children (dom w) c) as [|k ks].
  - intros Hp Hc Hx. by destruct (appendChild_elsewhere _ _ _ _ _ Hp Hc).
  - destruct (Dom.contains (dom w) c x).
    + by intros [= <-].
    + intros Hp Hc Hx. by destruct (insertBefore_elsewhere _ _ _ _ _ _ Hp Hc).
Qed.

Lemma removeChild_cases (c x : node) (d : gmap node (list node)) :
  ((x ∉ Dom.children d c) /\ Dom.removeChild c x d = inl Dom.NotFoundError)
  \/ (x ∈ Dom.children d c
      /\ Dom.removeChild c x d = inr (<[c := Dom.without x (Dom.children d c)]> d)).
Proof.
  unfold Dom.removeChild. destruct (Dom.mem x (Dom.children d c)) eqn:E.
  - right. split; [by apply mem_true|done].
  - left. split; [|done]. intros Hx. apply mem_true in Hx. congruence.
Qed.

Lemma children_removed (c x : node) (d : gmap node (list node)) (c' y : node) :
  y ∈ Dom.children (<[c := Dom.without x (Dom.children d c)]> d) c'
  <-> y ∈ Dom.children d c' /\ (c' = c -> y ≠ x).
Proof.
  rewrite children_insert. destruct (decide (c = c')) as [->|Hne].
  - rewrite elem_of_without. tauto.
  - split; [|tauto]. intros Hy. split; [done|]. intros ->. done.
Qed.

(** The target of [insertBefore] is a child of the container. *)
Lemma targetContainer_child (w : World) (s : sid) (c r : node) :
  targetContainer w s c = Some r -> r ∈ Dom.children (dom w) c.
Proof.
  unfold targetContainer, targetStickyToAppendBefore.
  destruct (List.find _ _) as [t|] eqn:Hf; [|done].
  apply List.find_some in Hf as [Hin _].
  unfold stickyListSorted in Hin. apply List.filter_In in Hin as [_ Hm].
  intros Hr. rewrite Hr in Hm. by apply mem_true.
Qed.

(** *** [Node.contains] is reachability along the child lists *)

Lemma contains_leaf (d : gmap node (list node)) (x c : node) :
  Dom.children d x = [] -> Dom.contains d x c = bool_decide (x = c).
Proof.
  intros Hx. unfold Dom.contains. destruct (size d); simpl.
  - apply orb_false_r.
  - rewrite Hx. apply orb_false_r.
Qed.

Lemma reach_path (d : gmap node (list node)) (a b : node) :
  Dom.reach d a b <-> exists l, Dom.path d a b l.
Proof.
  split.
  - induction 1 as [a|a k b Hk _ [l Hl]]; [exists []; constructor|].
    exists (a :: l). by econstructor.
  - intros [l Hl]. induction Hl; [constructor|by econstructor].
Qed.

Lemma path_sources (d : gmap node (list node)) (a b : node) (l : list node) (x : node) :
  Dom.path d a b l -> x ∈ l -> x ∈ (base.dom d : gset node).
Proof.
  induction 1 as [|a k b l Hk _ IH]; intros Hx; [by apply elem_of_nil in Hx|].
  apply elem_of_cons in Hx as [->|Hx]; [|by apply IH].
  apply elem_of_dom. unfold Dom.children in Hk.
  destruct (d !! a); [done|]. by apply elem_of_nil in Hk.
Qed.

Lemma path_contains (d : gmap node (list node)) (a b : node) (l : list node) (f : nat) :
  Dom.path d a b l -> (length l <= f)%nat -> Dom.contains_upto f d a b = true.
Proof.
  intros Hp. revert f. induction Hp as [a|a k b l Hk _ IH]; intros f Hf.
  - destruct f; simpl; by rewrite bool_decide_eq_true_2.
  - destruct f as [|f]; [simpl in Hf; lia|]. simpl.
    apply orb_true_iff. right. apply existsb_exists. exists k.
    split; [by apply list_elem_of_In|]. apply IH. simpl in Hf. lia.
Qed.

Lemma contains_upto_reach (f : nat) (d : gmap node (list node)) : forall a b : node,
  Dom.contains_upto f d a b = true -> Dom.reach d a b.
Proof.
  induction f as [|f IH]; intros a b; simpl.
  - rewrite orb_false_r. intros ->%bool_decide_eq_true. constructor.
  - intros [->%bool_decide_eq_true|H]%orb_true_iff; [constructor|].
    apply existsb_exists in H as (k & Hk & Hkb).
    apply Dom.reach_step with k; [by apply list_elem_of_In|by apply IH].
Qed.

(** A descent can be cut where it passes a parent a second time. *)
Lemma path_simple (d : gmap node (list node)) (a b : node) (l : list node) :
  Dom.path d a b l -> exists l', Dom.path d a b l' /\ NoDup l'.
Proof.
  induction 1 as [a|a k b l Hk Hp (l' & Hl' & Hnd)].
  - exists []. split; [constructor|apply NoDup_nil_2].
  - destruct (decide (a ∈ l')) as [Hin|Hnin].
    + clear Hk Hp. revert Hin. induction Hl' as [|a' k' b' l' Hk' Hp' IH]; intros Hin;
        [by apply elem_of_nil in Hin|].
      apply NoDup_cons in Hnd as [Hn Hnd].
      destruct (decide (a = a')) as [->|Hne].
      * exists (a' :: l'). split; [by econstructor|by apply NoDup_cons].
      * apply elem_of_cons in Hin as [?|Hin]; [done|]. by apply IH.
    + exists (a :: l'). split; [by econstructor|by apply NoDup_cons].
Qed.

(** The fuel of [Dom.contains] is enough whatever the shape of the DOM. *)
Lemma contains_reach (d : gmap node (list node)) (a b : node) :
  Dom.contains d a b = true <-> Dom.reach d a b.
Proof.
  split; [apply contains_upto_reach|].
  intros (l & Hl)%reach_path. destruct (path_simple _ _ _ _ Hl) as (l' & Hl' & Hnd).
  apply (path_contains _ _ _ l'); [done|].
  rewrite <- (size_dom (D := gset node)). unfold size, set_size. simpl.
  apply submseteq_length, NoDup_submseteq; [done|].
  intros x Hx. apply elem_of_elements. by eapply path_sources.
Qed.

Lemma contains_false_reach (d : gmap node (list node)) (a b : node) :
  Dom.contains d a b = false <-> ~ Dom.reach d a b.
Proof.
  rewrite <- contains_reach. by destruct (Dom.contains d a b).
Qed.

Lemma reach_trans (d : gmap node (list node)) (a b c : node) :
  Dom.reach d a b -> Dom.reach d b c -> Dom.reach d a c.
Proof. induction 1; [done|]. intros Hc. econstructor; [done|]. by apply IHreach. Qed.

Lemma reach_child (d : gmap node (list node)) (a k : node) :
  k ∈ Dom.children d a -> Dom.reach d a k.
Proof. intros Hk. econstructor; [done|constructor]. Qed.

(** Reachability only reads the child lists. *)
Lemma reach_sub (d d' : gmap node (list node)) (a b : node) :
  (forall c k, k ∈ Dom.children d' c -> k ∈ Dom.children d c) ->
  Dom.reach d' a b -> Dom.reach d a b.
Proof.
  intros Hsub. induction 1 as [|a k b Hk _ IH]; [constructor|].
  econstructor; [by apply Hsub|done].
Qed.

Lemma contains_ext (d d' : gmap node (list node)) (a b : node) :
  (forall c, Dom.children d' c = Dom.children d c) ->
  Dom.contains d' a b = Dom.contains d a b.
Proof.
  intros Hext. apply eq_true_iff_eq. rewrite !contains_reach.
  split; apply reach_sub; intros c k; by rewrite Hext.
Qed.

(** One more edge [p -> q]: a descent either avoids it, or reaches [p]
    without it before using it a first time, or uses it a last time and
    goes on from [q] without it. *)
Lemma reach_added_first (d d' : gmap node (list node)) (p q a b : node) :
  (forall c k, k ∈ Dom.children d' c -> k ∈ Dom.children d c \/ (c = p /\ k = q)) ->
  Dom.reach d' a b -> Dom.reach d a b \/ Dom.reach d a p.
Proof.
  intros Hedge. induction 1 as [|a k b Hk _ IH]; [left; constructor|].
  destruct (Hedge _ _ Hk) as [Hold | [-> ->]]; [|right; constructor].
  destruct IH as [IH|IH]; [left|right]; by econstructor.
Qed.

Lemma reach_added_last (d d' : gmap node (list node)) (p q a b : node) :
  (forall c k, k ∈ Dom.children d' c -> k ∈ Dom.children d c \/ (c = p /\ k = q)) ->
  Dom.reach d' a b -> Dom.reach d a b \/ Dom.reach d q b.
Proof.
  intros Hedge. induction 1 as [|a k b Hk _ IH]; [left; constructor|].
  destruct IH as [IH|IH]; [|by right].
  destruct (Hedge _ _ Hk) as [Hold | [-> ->]]; [left; by econstructor|by right].
Qed.

(** *** A moved element *)

Lemma children_move (p n : node) (d : gmap node (list node)) (c : node) :
  Dom.children (Dom.move p n d) c
  = if decide (p = c) then Dom.without n (Dom.children d p) ++ [n]
    else Dom.without n (Dom.children d c).
Proof.
  unfold Dom.move. rewrite children_insert. case_decide; [done|]. apply children_detach.
Qed.

Lemma move_edges (p n : node) (d : gmap node (list node)) (c k : node) :
  k ∈ Dom.children (Dom.move p n d) c -> k ∈ Dom.children d c \/ (c = p /\ k = n).
Proof.
  rewrite children_move. case_decide as Hp.
  - subst c. rewrite elem_of_app, elem_of_without, list_elem_of_singleton.
    intros [[? _]| ->]; [by left|by right].
  - rewrite elem_of_without. intros [? _]. by left.
Qed.

Lemma without_without (x : node) (l : list node) :
  Dom.without x (Dom.without x l) = Dom.without x l.
Proof.
  apply without_absent. rewrite elem_of_without. tauto.
Qed.

Lemma without_app (x : node) (l k : list node) :
  Dom.without x (l ++ k) = Dom.without x l ++ Dom.without x k.
Proof. unfold Dom.without. apply filter_app. Qed.

Lemma without_self (x : node) : Dom.without x [x] = [].
Proof. unfold Dom.without. rewrite filter_cons. by case_decide. Qed.

(** The last move decides where the element is. *)
Lemma move_move (p q n : node) (d : gmap node (list node)) (c : node) :
  Dom.children (Dom.move p n (Dom.move q n d)) c = Dom.children (Dom.move p n d) c.
Proof.
  assert (Hw : forall c', Dom.without n (Dom.children (Dom.move q n d) c')
                          = Dom.without n (Dom.children d c')).
  { intros c'. rewrite children_move. case_decide as Hq.
    - subst c'. by rewrite without_app, without_without, without_self, app_nil_r.
    - apply without_without. }
  rewrite (children_move p n (Dom.move q n d)), (children_move p n d).
  case_decide; by rewrite Hw.
Qed.

Lemma move_ext (p n : node) (d d' : gmap node (list node)) :
  (forall c, Dom.children d' c = Dom.children d c) ->
  forall c, Dom.children (Dom.move p n d') c = Dom.children (Dom.move p n d) c.
Proof. intros Hext c. rewrite !children_move. by rewrite !Hext. Qed.

(** *** removeSticky when the representations are in their containers *)

Lemma removeSticky_eq (s : sid) (w : World) :
  removeSticky s w =
  (removeStep Top s >> removeStep Bottom s >> notifySubscribers)
    (set_stickies (set_delete s (_stickies w)) w).
Proof.
  unfold removeSticky, _removeStickyFromContainers, bind.
  change (withWorld (fun w1 : World =>
            match stickyAbove w1, stickyContentTop (heap w1 s) with
            | Some above, Some top => liftDom (Dom.removeChild above top)
            | _, _ => skip
            end)) with (removeStep Top s).
  change (withWorld (fun w1 : World =>
            match stickyBelow w1, stickyContentBottom (heap w1 s) with
            | Some below, Some bottom => liftDom (Dom.removeChild below bottom)
            | _, _ => skip
            end)) with (removeStep Bottom s).
  destruct (removeStep Top s _) as [[] w1|e w1]; [|reflexivity].
  destruct (removeStep Bottom s _) as [[] w2|e w2]; reflexivity.
Qed.

Lemma removeStep_present (e : Edge) (s : sid) (w : World) (c x : node) :
  containerRef e w = Some c -> representation e (heap w s) = Some x ->
  x ∈ Dom.children (dom w) c ->
  removeStep e s w
  = Return tt (set_dom (<[c := Dom.without x (Dom.children (dom w) c)]> (dom w)) w).
Proof.
  intros Hc Hx Hin. unfold removeStep, withWorld, liftDom. rewrite Hc, Hx.
  destruct (removeChild_cases c x (dom w)) as [[Hn _] | [_ ->]]; done.
Qed.

Lemma removeSticky_present (s : sid) (w : World) (above below top bottom : node) :
  stickyAbove w = Some above -> stickyBelow w = Some below -> above ≠ below ->
  stickyContentTop (heap w s) = Some top -> stickyContentBottom (heap w s) = Some bottom ->
  top ∈ Dom.children (dom w) above -> bottom ∈ Dom.children (dom w) below ->
  exists w',
    removeSticky s w = Return tt w'
    /\ _stickies w' = set_delete s (_stickies w)
    /\ (top ∉ Dom.children (dom w') above)
    /\ (bottom ∉ Dom.children (dom w') below)
    /\ trace w' = trace w ++ broadcastCalls w.
Proof.
  intros Ha Hb Hab Ht Hbt Hint Hinb. rewrite removeSticky_eq. unfold bind.
  rewrite (removeStep_present Top s _ above top) by done.
  rewrite (removeStep_present Bottom s _ below bottom); [|done|done|].
  2:{ simpl. by rewrite children_insert, decide_False. }
  rewrite notifySubscribers_eq. eexists. split; [reflexivity|].
  split; [reflexivity|]. simpl. split; [|split; [|reflexivity]].
  - rewrite !children_insert, decide_False, decide_True by done.
    rewrite elem_of_without. tauto.
  - rewrite !children_insert, !decide_True by done.
    rewrite elem_of_without. tauto.
Qed.

(** *** The reconciliation check run twice *)

Lemma sameChildren_refl (d : gmap node (list node)) : sameChildren d d.
Proof. by intros c. Qed.

Lemma sameChildren_sym (d d' : gmap node (list node)) :
  sameChildren d d' -> sameChildren d' d.
Proof. intros H c. by rewrite H. Qed.

Lemma sameChildren_trans (d d' d'' : gmap node (list node)) :
  sameChildren d d' -> sameChildren d' d'' -> sameChildren d d''.
Proof. intros H H' c. by rewrite H, H'. Qed.

Lemma contains_same (d d' : gmap node (list node)) (a b : node) :
  sameChildren d d' -> Dom.contains d a b = Dom.contains d' a b.
Proof. intros H. by apply contains_ext. Qed.

Lemma pinTarget_same (pinned : bool) (c n x : option node) (d d' : gmap node (list node)) :
  sameChildren d d' -> pinTarget pinned c n x d = pinTarget pinned c n x d'.
Proof.
  intros H. unfold pinTarget. destruct pinned, c, n, x; try done.
  by rewrite (contains_same d d').
Qed.

(** Wherever the element was moved before, the last move decides. *)
Lemma moved_last (n : node) (d dd : gmap node (list node)) (p : option node) :
  (forall q, sameChildren (Dom.move q n dd) (Dom.move q n d)) ->
  forall q, sameChildren (Dom.move q n (moved p (Some n) dd)) (Dom.move q n d).
Proof.
  intros H q. destruct p as [p|]; simpl; [|apply H].
  intros c. rewrite move_move. apply H.
Qed.

Lemma pinTarget_Some (pinned : bool) (c n : node) (x : option node)
    (d : gmap node (list node)) (y : node) :
  pinTarget pinned (Some c) (Some n) x d = Some y
  <-> pinned = true /\ x = Some y /\ Dom.contains d c n = false.
Proof.
  unfold pinTarget. destruct pinned; [|split; [done|by intros (? & _)]].
  destruct x as [x|]; [|split; [done|by intros (_ & ? & _)]].
  destruct (Dom.contains d c n); split.
  - done.
  - by intros (_ & _ & ?).
  - by intros [= ->].
  - by intros (_ & [= ->] & _).
Qed.

Lemma pinTarget_None (pinned : bool) (c n : node) (x : option node)
    (d : gmap node (list node)) :
  pinTarget pinned (Some c) (Some n) x d = None
  <-> pinned = false \/ x = None \/ Dom.contains d c n = true.
Proof.
  unfold pinTarget. destruct pinned; [|split; [by left|done]].
  destruct x as [x|]; [|split; [right; by left|done]].
  destruct (Dom.contains d c n); split.
  - right. by right.
  - done.
  - done.
  - by intros [?|[?|?]].
Qed.

Lemma pinBoth_twice (top bottom : bool) (above below n : node)
    (stickyContentTop stickyContentBottom : option node) (d : gmap node (list node)) :
  (top = true -> bottom = true ->
   forall t, stickyContentTop = Some t -> Dom.contains d below t = false) ->
  let once := pinBoth top bottom above below n stickyContentTop stickyContentBottom d in
  sameChildren
    (pinBoth top bottom above below n stickyContentTop stickyContentBottom once) once.
Proof.
  intros Hapart once. subst once. unfold pinBoth.
  set (T1 := pinTarget top (Some above) (Some n) stickyContentTop d).
  set (d1 := moved T1 (Some n) d).
  set (B1 := pinTarget bottom (Some below) (Some n) stickyContentBottom d1).
  set (d2 := moved B1 (Some n) d1).
  set (T2 := pinTarget top (Some above) (Some n) stickyContentTop d2).
  set (d3 := moved T2 (Some n) d2).
  set (B2 := pinTarget bottom (Some below) (Some n) stickyContentBottom d3).
  assert (P0 : forall q, sameChildren (Dom.move q n d) (Dom.move q n d)) by done.
  pose proof (moved_last n d d T1 P0) as P1. fold d1 in P1.
  pose proof (moved_last n d d1 B1 P1) as P2. fold d2 in P2.
  pose proof (moved_last n d d2 T2 P2) as P3. fold d3 in P3.
  destruct B2 as [b2|] eqn:HB2.
  - (* the bottom half moves again: it moved the first time too *)
    apply pinTarget_Some in HB2 as (Hb & Hbot & Hc3).
    assert (HB1 : B1 = Some b2).
    { apply pinTarget_Some. split; [done|]. split; [done|].
      destruct (Dom.contains d1 below n) eqn:Hc1; [|done]. exfalso.
      assert (HB1 : B1 = None) by (apply pinTarget_None; tauto).
      assert (Hd2 : d2 = d1) by (subst d2; by rewrite HB1).
      destruct T2 as [t2|] eqn:HT2.
      - apply pinTarget_Some in HT2 as (Ht & Htop & Hc2). rewrite Hd2 in Hc2.
        destruct T1 as [t1|] eqn:HT1.
        + apply pinTarget_Some in HT1 as (_ & Htop1 & _).
          assert (t1 = t2) by congruence. subst t1.
          assert (Hsame : sameChildren d3 d1).
          { subst d3. simpl. rewrite Hd2. subst d1. simpl. intros c. apply move_move. }
          rewrite (contains_same d3 d1 below n Hsame) in Hc3. congruence.
        + subst d1. simpl in Hc2.
          apply pinTarget_None in HT1 as [?|[?|?]]; congruence.
      - subst d3. simpl in Hc3. rewrite Hd2 in Hc3. congruence. }
    simpl. subst d2. rewrite HB1. simpl.
    apply (sameChildren_trans _ (Dom.move b2 n d)); [apply P3|].
    apply sameChildren_sym, P1.
  - simpl. destruct T2 as [t2|] eqn:HT2; [|subst d3; simpl; apply sameChildren_refl].
    apply pinTarget_Some in HT2 as (Ht & Htop & Hc2).
    apply pinTarget_None in HB2.
    subst d3. simpl. simpl in HB2.
    destruct B1 as [b1|] eqn:HB1.
    + (* the bottom half moved the first time and not the second *)
      exfalso. apply pinTarget_Some in HB1 as (Hb & Hbot & Hc1).
      destruct HB2 as [?|[?|Hc3]]; [congruence..|].
      rewrite (contains_same _ _ below n (P2 t2)) in Hc3.
      destruct T1 as [t1|] eqn:HT1.
      * apply pinTarget_Some in HT1 as (_ & Htop1 & _).
        assert (t1 = t2) by congruence. subst t1.
        subst d1. simpl in Hc1. congruence.
      * subst d1. simpl in Hc1.
        apply contains_reach in Hc3.
        destruct (reach_added_first _ _ _ _ _ _ (move_edges t2 n d) Hc3) as [Hr|Hr];
          apply contains_reach in Hr; [congruence|].
        by rewrite (Hapart Ht Hb t2 Htop) in Hr.
    + subst d2. simpl. simpl in Hc2.
      destruct T1 as [t1|] eqn:HT1.
      * apply pinTarget_Some in HT1 as (_ & Htop1 & _).
        assert (t1 = t2) by congruence. subst t1.
        subst d1. simpl. intros c. apply move_move.
      * exfalso. subst d1. simpl in Hc2.
        apply pinTarget_None in HT1 as [?|[?|?]]; congruence.
Qed.

(** An element that lies within [c] and not within the moved element
    still lies within [c] after the move, and so does the moved element
    when it is moved into it. *)
Lemma reach_move_keeps (p n : node) (d : gmap node (list node)) (a b : node) :
  ~ Dom.reach d n b -> Dom.reach d a b -> Dom.reach (Dom.move p n d) a b.
Proof.
  intros Hn. induction 1 as [|a k b Hk Hkb IH]; [constructor|].
  assert (Hkn : k ≠ n) by (by intros ->).
  econstructor; [|by apply IH].
  rewrite children_move. case_decide as Hp.
  - subst p. apply elem_of_app. left. by apply elem_of_without.
  - by apply elem_of_without.
Qed.

Lemma contains_after_move (p n c : node) (d : gmap node (list node)) :
  Dom.contains d c p = true -> Dom.contains d n p = false ->
  Dom.contains (Dom.move p n d) c n = true.
Proof.
  rewrite contains_false_reach, !contains_reach. intros Hc Hn.
  apply (reach_trans _ _ p); [by apply reach_move_keeps|].
  apply reach_child. rewrite children_move, decide_True by done.
  apply elem_of_app. right. apply list_elem_of_here.
Qed.

(** The check does nothing at all on a region whose content is where its
    flags want it. *)
Lemma reconciled_within (v : World) (s : sid) (above below content n : node) :
  stickyAbove v = Some above -> stickyBelow v = Some below ->
  contentContainer v = Some content -> nonStickyContent (heap v s) = Some n ->
  (isStickyTop (heap v s) = true ->
   stickyContentTop (heap v s) = None \/ Dom.contains (dom v) above n = true) ->
  (isStickyBottom (heap v s) = true ->
   stickyContentBottom (heap v s) = None \/ Dom.contains (dom v) below n = true) ->
  (isStickyTop (heap v s) = false -> isStickyBottom (heap v s) = false ->
   Dom.contains (dom v) content n = true) ->
  reconciled v s = v.
Proof.
  intros Ha Hb Hc Hn Htop Hbot Hnone.
  assert (HT : topTarget v s = None).
  { unfold topTarget. rewrite Ha, Hn. apply pinTarget_None.
    destruct (isStickyTop (heap v s)); [right; by apply Htop|by left]. }
  assert (Hd1 : afterTop v s = dom v) by (unfold afterTop; by rewrite HT).
  assert (HB : bottomTarget v s = None).
  { unfold bottomTarget. rewrite Hb, Hn, Hd1. apply pinTarget_None.
    destruct (isStickyBottom (heap v s)); [right; by apply Hbot|by left]. }
  unfold reconciled, reconcileCommands, reconcileDom.
  rewrite Ha, Hb, Hc, Hn, HT, HB, Hd1.
  destruct (isStickyTop (heap v s)), (isStickyBottom (heap v s)); simpl;
    rewrite ?Hnone by done; by rewrite set_dom_id, set_trace_nil.
Qed.

(** ** The invariant of a mounted pane *)

Section Invariant.

Variables (w0 : World) (content above below : node).
Hypothesis Hfresh : FreshPane w0 content above below.

Local Abbreviation container := (edgeNode above below).

Lemma edgeNode_inj (e e' : Edge) : container e = container e' -> e = e'.
Proof.
  pose proof (fresh_containers _ _ _ _ Hfresh).
  destruct e, e'; simpl; intros ?; congruence.
Qed.

Lemma edgeNode_cases (c : node) :
  (exists e, c = container e) \/ (c ≠ above /\ c ≠ below).
Proof.
  destruct (decide (c = above)) as [->|]; [left; by exists Top|].
  destruct (decide (c = below)) as [->|]; [left; by exists Bottom|].
  by right.
Qed.

Lemma PaneInv_fresh : PaneInv w0 above below w0.
Proof.
  destruct Hfresh. constructor; try done.
  - intros e x Hx. rewrite fresh_empty0 in Hx. by apply elem_of_nil in Hx.
  - intros e s x y Hx Hy Hr. apply (fresh_apart0 e s x y Hx Hy). by apply contains_reach.
  - intros s n y Hn Hy Hr. apply contains_reach in Hr.
    by rewrite (fresh_contents0 s n y Hn Hy) in Hr.
Qed.

(** Only the DOM, the refs and the shape of the regions matter. *)
Lemma PaneInv_transport (w w' : World) :
  PaneInv w0 above below w ->
  contentContainer w' = contentContainer w -> stickyAbove w' = stickyAbove w ->
  stickyBelow w' = stickyBelow w -> dom w' = dom w ->
  (forall s, shapeOf (heap w' s) = shapeOf (heap w s)) ->
  PaneInv w0 above below w'.
Proof.
  intros [] Hc Ha Hb Hd Hs. constructor; rewrite ?Hc, ?Ha, ?Hb, ?Hd; try done.
  - intros e s. specialize (Hs s). unfold shapeOf in Hs.
    injection Hs as H1 H2 H3 H4 H5 H6.
    destruct (inv_shape0 e s) as [G1 G2].
    destruct e; simpl in *; split; congruence.
  - intros s. specialize (Hs s). unfold shapeOf in Hs.
    injection Hs as H1 H2 H3 H4 H5 H6.
    destruct (inv_refs0 s) as [G1 G2]. split; congruence.
Qed.

Lemma shapeOf_with_distance (m : Z) (s : Sticky) : shapeOf (with_distance m s) = shapeOf s.
Proof. reflexivity. Qed.

Lemma shapeOf_with_pinned (top bottom : bool) (s : Sticky) :
  shapeOf (with_pinned top bottom s) = shapeOf s.
Proof. reflexivity. Qed.

Lemma shapeOf_update_heap (s : sid) (v : Sticky) (h : sid -> Sticky) :
  shapeOf v = shapeOf (h s) -> forall s', shapeOf (update_heap s v h s') = shapeOf (h s').
Proof. intros Hv s'. unfold update_heap. case_bool_decide; [by subst s'|done]. Qed.

(** The placed regions are read off the two containers only. *)
Lemma Placed_transport (L : list sid) (w w' : World) :
  Placed w0 above below L w ->
  (forall e, Dom.children (dom w') (container e) = Dom.children (dom w) (container e)) ->
  Placed w0 above below L w'.
Proof. intros HP Hd e s x. rewrite Hd. apply HP. Qed.

Lemma arranged_container (e : Edge) : arranged w0 above below (container e).
Proof. destruct e; [by left|right; by left]. Qed.

Lemma arranged_representation (e : Edge) (s : sid) (x : node) :
  representation e (heap w0 s) = Some x -> arranged w0 above below x.
Proof. intros Hx. right. right. eauto. Qed.

Lemma representation_not_container (e e' : Edge) (s : sid) (x : node) :
  representation e (heap w0 s) = Some x -> x ≠ container e'.
Proof. intros Hx. destruct (fresh_reps _ _ _ _ Hfresh e s x Hx). by destruct e'. Qed.

(** A content element is neither a container nor a representation. *)
Lemma content_not_arranged (w : World) (s : sid) (n : node) :
  PaneInv w0 above below w -> nonStickyContent (heap w0 s) = Some n ->
  ~ arranged w0 above below n.
Proof.
  intros Hinv Hn Ha. apply (inv_contents _ _ _ _ Hinv s n n Hn Ha). constructor.
Qed.

(** A representation is not an ancestor of a container, and within a
    container it can only be a child. *)
Lemma representation_outside (w : World) (e e' : Edge) (s : sid) (x : node) :
  PaneInv w0 above below w -> representation e' (heap w0 s) = Some x ->
  Dom.contains (dom w) x (container e) = false.
Proof.
  intros Hinv Hx. apply contains_false_reach. intros Hr.
  apply (representation_not_container e' e s x Hx). symmetry.
  apply (inv_apart _ _ _ _ Hinv e' s x _ Hx (arranged_container e) Hr).
Qed.

Lemma container_contains (w : World) (e e' : Edge) (s : sid) (x : node) :
  PaneInv w0 above below w -> representation e' (heap w0 s) = Some x ->
  Dom.contains (dom w) (container e) x = true -> x ∈ Dom.children (dom w) (container e).
Proof.
  intros Hinv Hx Hc. apply contains_reach in Hc.
  inversion Hc as [|? k ? Hk Hkx]; subst.
  - by destruct (representation_not_container e' e s (container e) Hx).
  - destruct (inv_owned _ _ _ _ Hinv e k Hk) as (s' & Hs' & _).
    by rewrite (inv_apart _ _ _ _ Hinv e s' k x Hs' (arranged_representation e' s x Hx) Hkx).
Qed.

(** Placing a representation of a capable region never throws and keeps
    the invariant. *)
Lemma placement_inv (L : list sid) (w : World) (e : Edge) (s : sid) (x : node) :
  PaneInv w0 above below w -> Placed w0 above below L w ->
  capable e (heap w0 s) = true -> representation e (heap w0 s) = Some x ->
  exists d',
    placement w s (container e) x = inr d'
    /\ PaneInv w0 above below (set_dom d' w)
    /\ Placed w0 above below L (set_dom d' w)
    /\ x ∈ Dom.children d' (container e)
    /\ (forall c' y, y ≠ x -> y ∈ Dom.children (dom w) c' -> y ∈ Dom.children d' c').
Proof.
  intros Hinv HP Hcap Hx.
  pose proof (representation_outside w e e s x Hinv Hx) as Hnot.
  assert (Hex : exists d', placement w s (container e) x = inr d').
  { unfold placement.
    destruct (Dom.children (dom w) (container e)); [by apply appendChild_ok|].
    destruct (Dom.contains (dom w) (container e) x); [eauto|].
    apply insertBefore_ok; [done|]. intros r. apply targetContainer_child. }
  destruct Hex as [d' Hp]. exists d'. split; [done|].
  assert (Hchild : x ∈ Dom.children d' (container e)).
  { destruct (placement_child _ _ _ _ _ Hp) as [Hin | [-> Hc]]; [done|].
    by eapply container_contains. }
  assert (Hkeep : forall c' y, y ≠ x -> y ∈ Dom.children (dom w) c' -> y ∈ Dom.children d' c').
  { intros c' y Hy Hin. by apply (placement_others _ _ _ _ _ c' y Hp). }
  assert (Hback : forall c' y, y ∈ Dom.children d' c' ->
            y ∈ Dom.children (dom w) c' \/ (c' = container e /\ y = x)).
  { intros c' y Hin. destruct (decide (y = x)) as [->|Hy].
    - destruct (decide (c' = container e)) as [->|Hc]; [by right|].
      left. by eapply placement_elsewhere.
    - left. by apply (placement_others _ _ _ _ _ c' y Hp). }
  split; [|split; [|split]]; try done.
  - destruct Hinv. constructor; try done.
    + intros e' y Hy. simpl in Hy. destruct (Hback _ y Hy) as [Hin | [Heq ->]].
      * by apply inv_owned0.
      * apply edgeNode_inj in Heq as ->. eauto.
    + intros e' s' x' y Hx' Hy Hr. simpl in Hr.
      destruct (reach_added_first _ _ _ _ _ _ Hback Hr) as [Hold|Hold];
        [by eapply inv_apart0|].
      destruct (representation_not_container e' e s' x' Hx'). symmetry.
      by apply (inv_apart0 e' s' x' _ Hx' (arranged_container e)).
    + intros s' n y Hn Hy Hr. simpl in Hr.
      destruct (reach_added_first _ _ _ _ _ _ Hback Hr) as [Hold|Hold];
        [by eapply inv_contents0|].
      by apply (inv_contents0 s' n _ Hn (arranged_container e)).
  - intros e' s' y Hs' Hcap' Hy. simpl.
    destruct (decide (y = x)) as [->|Hne].
    + destruct (fresh_distinct _ _ _ _ Hfresh e' e s' s x Hy Hx) as [-> _]. done.
    + apply Hkeep; [done|]. by eapply HP.
Qed.

Lemma placeIf_inv (L : list sid) (w : World) (e : Edge) (s : sid)
    (cap : bool) (oc : option node) :
  PaneInv w0 above below w -> Placed w0 above below L w ->
  cap = capable e (heap w0 s) -> oc = representation e (heap w0 s) ->
  exists d',
    placeIf cap oc (container e) s w = Return tt (set_dom d' w)
    /\ PaneInv w0 above below (set_dom d' w)
    /\ Placed w0 above below L (set_dom d' w)
    /\ (forall x, cap = true -> oc = Some x -> x ∈ Dom.children d' (container e))
    /\ (forall c' y, oc ≠ Some y -> y ∈ Dom.children (dom w) c' -> y ∈ Dom.children d' c').
Proof.
  intros Hinv HP Hcap Hoc. unfold placeIf.
  destruct cap; [destruct oc as [x|]|].
  - destruct (placement_inv L w e s x Hinv HP) as (d' & Hp & Hinv' & HP' & Hin & Hkeep);
      [done..|].
    exists d'. rewrite _addToStickyContainer_eq, Hp.
    split; [done|]. split; [done|]. split; [done|]. split.
    + by intros x' _ [= <-].
    + intros c' y Hy. apply Hkeep. congruence.
  - exists (dom w). rewrite set_dom_id.
    split; [done|]. split; [done|]. split; [done|]. split; [by intros|by intros].
  - exists (dom w). rewrite set_dom_id.
    split; [done|]. split; [done|]. split; [done|]. split; [by intros|by intros].
Qed.

Lemma sortSticky_inv (L : list sid) (w : World) (s : sid) :
  PaneInv w0 above below w -> Placed w0 above below L w ->
  exists d',
    sortSticky s w = Return tt (set_dom d' w)
    /\ PaneInv w0 above below (set_dom d' w)
    /\ Placed w0 above below L (set_dom d' w)
    /\ Placed w0 above below [s] (set_dom d' w).
Proof.
  intros Hinv HP.
  rewrite sortSticky_eq, (inv_above _ _ _ _ Hinv), (inv_below _ _ _ _ Hinv).
  destruct (inv_shape _ _ _ _ Hinv Top s) as [Hct Hrt].
  destruct (inv_shape _ _ _ _ Hinv Bottom s) as [Hcb Hrb].
  simpl in Hct, Hrt, Hcb, Hrb.
  destruct (placeIf_inv L w Top s _ _ Hinv HP Hct Hrt)
    as (d1 & Hr1 & Hinv1 & HP1 & Hin1 & _).
  destruct (placeIf_inv L (set_dom d1 w) Bottom s _ _ Hinv1 HP1 Hcb Hrb)
    as (d2 & Hr2 & Hinv2 & HP2 & Hin2 & Hkeep2).
  exists d2. unfold bind. simpl in Hr1, Hr2. rewrite Hr1, Hr2.
  split; [done|]. split; [done|]. split; [done|].
  intros e s' x Hs' Hcap Hx. apply list_elem_of_singleton in Hs' as ->.
  destruct e; simpl.
  - apply Hkeep2.
    + rewrite Hrb. intros Hy.
      by destruct (fresh_distinct _ _ _ _ Hfresh Bottom Top s s x Hy Hx).
    + apply Hin1; [by rewrite Hct|by rewrite Hrt].
  - apply Hin2; [by rewrite Hcb|by rewrite Hrb].
Qed.

Lemma addSticky_eq (s : sid) (w : World) :
  addSticky s w =
  match contentContainer w with
  | Some cc =>
      (sortSticky s >> notifySubscribers)
        (set_heap (update_heap s (with_distance (offsetFromContentTop w s) (heap w s)) (heap w))
                  (set_stickies (set_add s (_stickies w)) w))
  | None => notifySubscribers (set_stickies (set_add s (_stickies w)) w)
  end.
Proof.
  unfold addSticky, bind, withWorld. simpl.
  destruct (contentContainer w); reflexivity.
Qed.

Lemma elem_of_set_add (x y : nat) (l : list nat) : y ∈ set_add x l <-> y ∈ l \/ y = x.
Proof.
  unfold set_add. case_bool_decide.
  - split; [by left|]. by intros [?| ->].
  - rewrite elem_of_app, list_elem_of_singleton. tauto.
Qed.

Lemma elem_of_set_delete (x y : nat) (l : list nat) : y ∈ set_delete x l <-> y ∈ l /\ y ≠ x.
Proof. unfold set_delete. rewrite list_elem_of_filter. tauto. Qed.

Lemma addSticky_inv (w : World) (s : sid) :
  PaneInv w0 above below w -> Placed w0 above below (_stickies w) w ->
  exists w',
    addSticky s w = Return tt w'
    /\ PaneInv w0 above below w'
    /\ Placed w0 above below (_stickies w') w'
    /\ _stickies w' = set_add s (_stickies w).
Proof.
  intros Hinv HP. rewrite addSticky_eq.
  rewrite (inv_content _ _ _ _ Hinv), (fresh_content _ _ _ _ Hfresh).
  set (w1 := set_heap _ _).
  assert (Hinv1 : PaneInv w0 above below w1).
  { apply (PaneInv_transport w); try done. by apply shapeOf_update_heap. }
  assert (HP1 : Placed w0 above below (_stickies w) w1) by (by apply (Placed_transport _ w)).
  destruct (sortSticky_inv _ w1 s Hinv1 HP1) as (d' & Hr & Hinv2 & HP2 & HPs).
  unfold bind. rewrite Hr, notifySubscribers_eq.
  eexists. split; [reflexivity|]. split; [|split; [|reflexivity]].
  - by apply (PaneInv_transport (set_dom d' w1)).
  - intros e s' x Hs'. simpl in Hs'. apply elem_of_set_add in Hs' as [Hs' | ->].
    + by apply HP2.
    + apply HPs. apply list_elem_of_singleton. reflexivity.
Qed.

(** One of the two guarded removals of [_removeStickyFromContainers]:
    whether it returns or throws, the world it leaves keeps the
    invariant. *)
Lemma removeStep_inv (L : list sid) (w : World) (e : Edge) (s : sid) :
  PaneInv w0 above below w -> Placed w0 above below L w -> s ∉ L ->
  exists d',
    (removeStep e s w = Return tt (set_dom d' w)
     \/ exists err, removeStep e s w = Throw err (set_dom d' w))
    /\ PaneInv w0 above below (set_dom d' w)
    /\ Placed w0 above below L (set_dom d' w).
Proof.
  intros Hinv HP Hs. unfold removeStep, withWorld.
  assert (Hc : containerRef e w = Some (container e)).
  { destruct e; simpl; [apply (inv_above _ _ _ _ Hinv) | apply (inv_below _ _ _ _ Hinv)]. }
  rewrite Hc.
  destruct (inv_shape _ _ _ _ Hinv e s) as [_ Hrep].
  destruct (representation e (heap w s)) as [x|] eqn:Hx;
    [|exists (dom w); rewrite set_dom_id; split; [by left|done]].
  unfold liftDom.
  destruct (removeChild_cases (container e) x (dom w)) as [[_ ->] | [Hin ->]].
  { exists (dom w). rewrite set_dom_id. split; [right; eauto|done]. }
  eexists. split; [by left|]. split.
  - assert (Hsub : forall c k,
              k ∈ Dom.children (<[container e := Dom.without x (Dom.children (dom w) (container e))]>
                                  (dom w)) c -> k ∈ Dom.children (dom w) c).
    { intros c k Hk. by apply children_removed in Hk as [Hk _]. }
    destruct Hinv. constructor; try done.
    + intros e' y Hy. simpl in Hy. apply Hsub in Hy. by apply inv_owned0.
    + intros e' s' x' y Hx' Hy Hr. simpl in Hr.
      apply (inv_apart0 e' s' x' y Hx' Hy). by apply (reach_sub _ _ _ _ Hsub).
    + intros s' n y Hn Hy Hr. simpl in Hr.
      apply (inv_contents0 s' n y Hn Hy). by apply (reach_sub _ _ _ _ Hsub).
  - intros e' s' y Hs' Hcap Hy. simpl. apply children_removed. split; [by eapply HP|].
    intros Heq ->. apply edgeNode_inj in Heq as ->.
    symmetry in Hrep.
    destruct (fresh_distinct _ _ _ _ Hfresh e e s' s x Hy Hrep) as [_ ->]. done.
Qed.

Lemma removeSticky_inv (w : World) (s : sid) :
  PaneInv w0 above below w -> Placed w0 above below (_stickies w) w ->
  let w' := world_of (removeSticky s w) in
  PaneInv w0 above below w'
  /\ Placed w0 above below (_stickies w') w'
  /\ _stickies w' = set_delete s (_stickies w).
Proof.
  intros Hinv HP. rewrite removeSticky_eq.
  set (L := set_delete s (_stickies w)).
  assert (Hs : s ∉ L) by (subst L; rewrite elem_of_set_delete; tauto).
  assert (Hinv1 : PaneInv w0 above below (set_stickies L w))
    by (by apply (PaneInv_transport w)).
  assert (HP1 : Placed w0 above below L (set_stickies L w)).
  { intros e s' x Hs'. apply elem_of_set_delete in Hs' as [Hs' _]. by apply HP. }
  destruct (removeStep_inv L _ Top s Hinv1 HP1 Hs) as (d1 & Hr1 & Hinv2 & HP2).
  unfold bind.
  destruct Hr1 as [Hr1 | [err Hr1]]; rewrite Hr1; [|by (cbn [world_of]; split)].
  destruct (removeStep_inv L _ Bottom s Hinv2 HP2 Hs) as (d2 & Hr2 & Hinv3 & HP3).
  destruct Hr2 as [Hr2 | [err Hr2]]; rewrite Hr2; [|by (cbn [world_of]; split)].
  rewrite notifySubscribers_eq. cbn [world_of].
  split; [|by split]. by apply (PaneInv_transport (set_dom d2 (set_dom d1 (set_stickies L w)))).
Qed.

(** A region moving its content keeps the invariant and leaves the two
    containers as they are. *)
Lemma moved_inv (w : World) (s : sid) (n p : node) :
  PaneInv w0 above below w -> nonStickyContent (heap w0 s) = Some n ->
  p ≠ above -> p ≠ below ->
  PaneInv w0 above below (set_dom (Dom.move p n (dom w)) w)
  /\ forall e, Dom.children (Dom.move p n (dom w)) (container e)
               = Dom.children (dom w) (container e).
Proof.
  intros Hinv Hn Hpa Hpb.
  assert (Hkids : forall e, Dom.children (Dom.move p n (dom w)) (container e)
                            = Dom.children (dom w) (container e)).
  { intros e. rewrite children_move, decide_False by (by destruct e).
    apply without_absent. intros Hin.
    destruct (inv_owned _ _ _ _ Hinv e n Hin) as (s' & Hs' & _).
    apply (content_not_arranged w s n Hinv Hn). by eapply arranged_representation. }
  split; [|done].
  pose proof (move_edges p n (dom w)) as Hedge.
  destruct Hinv. constructor; try done.
  - intros e x Hx. simpl in Hx. rewrite Hkids in Hx. by apply inv_owned0.
  - intros e s' x y Hx Hy Hr. simpl in Hr.
    destruct (reach_added_last _ _ _ _ _ _ Hedge Hr) as [Hold|Hold];
      [by eapply inv_apart0|]. by destruct (inv_contents0 s n y Hn Hy).
  - intros s' n' y Hn' Hy Hr. simpl in Hr.
    destruct (reach_added_last _ _ _ _ _ _ Hedge Hr) as [Hold|Hold];
      [by apply (inv_contents0 s' n' y Hn' Hy)|by apply (inv_contents0 s n y Hn Hy)].
Qed.

Lemma moved_option_inv (w : World) (s : sid) (parent : option node) :
  PaneInv w0 above below w ->
  (forall p, parent = Some p -> p ≠ above /\ p ≠ below) ->
  PaneInv w0 above below
    (set_dom (moved parent (nonStickyContent (heap w s)) (dom w)) w)
  /\ forall e, Dom.children (moved parent (nonStickyContent (heap w s)) (dom w)) (container e)
               = Dom.children (dom w) (container e).
Proof.
  intros Hinv Hp. unfold moved.
  destruct parent as [p|]; [|by rewrite set_dom_id].
  destruct (nonStickyContent (heap w s)) as [n|] eqn:Hn; [|by rewrite set_dom_id].
  destruct (Hp p eq_refl). apply (moved_inv w s); try done.
  destruct (inv_refs _ _ _ _ Hinv s) as [<- _]. done.
Qed.

Lemma pinTarget_outside (w : World) (e : Edge) (s : sid) (pinned : bool)
    (c n : option node) (d : gmap node (list node)) (p : node) :
  PaneInv w0 above below w ->
  pinTarget pinned c n (representation e (heap w s)) d = Some p -> p ≠ above /\ p ≠ below.
Proof.
  intros Hinv. unfold pinTarget.
  destruct pinned, c, n; try done.
  destruct (representation e (heap w s)) as [x|] eqn:Hx; [|done].
  destruct (Dom.contains d _ _); [done|]. intros [= <-].
  destruct (inv_shape _ _ _ _ Hinv e s) as [_ Hrep]. rewrite Hrep in Hx.
  apply (fresh_reps _ _ _ _ Hfresh e s x Hx).
Qed.

(** The reconciliation check keeps the invariant and leaves the two
    containers as they are. *)
Lemma reconciled_inv (w : World) (s : sid) :
  PaneInv w0 above below w ->
  PaneInv w0 above below (reconciled w s)
  /\ forall e, Dom.children (dom (reconciled w s)) (container e)
               = Dom.children (dom w) (container e).
Proof.
  intros Hinv.
  assert (Hgoal : PaneInv w0 above below (set_dom (reconcileDom w s) w)
                  /\ forall e, Dom.children (reconcileDom w s) (container e)
                               = Dom.children (dom w) (container e)).
  2:{ destruct Hgoal as [Hinv' Hkids]. split; [|done].
      by apply (PaneInv_transport (set_dom (reconcileDom w s) w)). }
  unfold reconcileDom.
  destruct (stickyAbove w) as [a|], (stickyBelow w) as [b|],
    (contentContainer w) as [cc|]; try (by rewrite set_dom_id).
  destruct (nonStickyContent (heap w s)) as [n|] eqn:Hn; [|by rewrite set_dom_id].
  destruct (isStickyTop (heap w s) || isStickyBottom (heap w s)).
  - destruct (moved_option_inv w s (topTarget w s) Hinv) as [Hinv1 Hkids1].
    { intros p. apply (pinTarget_outside w Top). done. }
    change (moved (topTarget w s) (nonStickyContent (heap w s)) (dom w))
      with (afterTop w s) in Hinv1, Hkids1.
    destruct (moved_option_inv (set_dom (afterTop w s) w) s (bottomTarget w s) Hinv1)
      as [Hinv2 Hkids2].
    { intros p. apply (pinTarget_outside w Bottom). done. }
    cbn [heap set_dom dom] in Hinv2, Hkids2. rewrite Hn in Hinv2, Hkids2.
    split; [done|]. intros e. by rewrite Hkids2, Hkids1.
  - destruct (Dom.contains (dom w) _ n); [by rewrite set_dom_id|].
    destruct (moved_option_inv w s (placeholder (heap w s)) Hinv) as [Hinv1 Hkids1].
    { intros p Hp. destruct (inv_refs _ _ _ _ Hinv s) as [_ Hph]. rewrite Hph in Hp.
      apply (fresh_placeholders _ _ _ _ Hfresh s p Hp). }
    by rewrite Hn in Hinv1, Hkids1.
Qed.

Lemma checked_inv (w : World) (s : sid) :
  PaneInv w0 above below w ->
  PaneInv w0 above below (checked w s)
  /\ forall e, Dom.children (dom (checked w s)) (container e)
               = Dom.children (dom w) (container e).
Proof.
  intros Hinv. unfold checked. destruct (nonStickyContent (heap w s)); [|done].
  by apply reconciled_inv.
Qed.

Lemma fold_checked_inv (l : list sid) : forall w : World,
  PaneInv w0 above below w ->
  PaneInv w0 above below (fold_left checked l w)
  /\ forall e, Dom.children (dom (fold_left checked l w)) (container e)
               = Dom.children (dom w) (container e).
Proof.
  induction l as [|s l IH]; intros w Hinv; [done|].
  simpl. destruct (checked_inv w s Hinv) as [Hinv1 Hkids1].
  destruct (IH _ Hinv1) as [Hinv2 Hkids2]. split; [done|].
  intros e. by rewrite Hkids2, Hkids1.
Qed.

Lemma rerendered_dom (prevState : PaneState) (w : World) :
  dom (rerendered prevState w) = dom w.
Proof. unfold rerendered. by destruct (heightsChanged prevState w). Qed.

Lemma PaneInv_rerendered (prevState : PaneState) (w : World) :
  PaneInv w0 above below w -> PaneInv w0 above below (rerendered prevState w).
Proof.
  intros Hinv. unfold rerendered. destruct (heightsChanged prevState w); [|done].
  by apply (PaneInv_transport w).
Qed.

(** The height pass keeps the invariant and leaves the two containers as
    they are. *)
Lemma updateStickyRefHeights_inv (w : World) :
  PaneInv w0 above below w ->
  let w' := world_of (updateStickyRefHeights w) in
  PaneInv w0 above below w'
  /\ (forall e, Dom.children (dom w') (container e) = Dom.children (dom w) (container e))
  /\ _stickies w' = _stickies w /\ heap w' = heap w
  /\ offsetFromContentTop w' = offsetFromContentTop w.
Proof.
  intros Hinv. rewrite updateStickyRefHeights_eq. cbn [world_of].
  destruct (fold_checked_inv (_stickies w) w Hinv) as [Hinv1 Hkids1].
  destruct (fold_checked_frame (_stickies w) w)
    as (_ & _ & _ & _ & Hreg & _ & _ & Hheap & _ & Hoff & _).
  split; [|split; [|split; [|split]]].
  - apply PaneInv_rerendered. by apply (PaneInv_transport (fold_left checked (_stickies w) w)).
  - intros e. rewrite rerendered_dom. apply Hkids1.
  - unfold rerendered. by destruct (heightsChanged _ _).
  - unfold rerendered. by destruct (heightsChanged _ _).
  - unfold rerendered. by destruct (heightsChanged _ _).
Qed.

Lemma exec_inv (op : Op) (w : World) :
  PaneInv w0 above below w -> Placed w0 above below (_stickies w) w ->
  PaneInv w0 above below (exec op w) /\ Placed w0 above below (_stickies (exec op w)) (exec op w).
Proof.
  intros Hinv HP. destruct op as [s|s|s| | |s top bottom]; simpl.
  - destruct (addSticky_inv w s Hinv HP) as (w' & -> & Hinv' & HP' & _). done.
  - destruct (removeSticky_inv w s Hinv HP) as (Hinv' & HP' & _). done.
  - destruct (sortSticky_inv _ w s Hinv HP) as (d' & -> & Hinv' & HP' & _). done.
  - destruct (updateStickyRefHeights_inv w Hinv) as (Hinv' & Hkids & Hreg & _).
    split; [done|]. rewrite Hreg. by apply (Placed_transport _ w).
  - rewrite notifySubscribers_eq. simpl. split; [|done].
    by apply (PaneInv_transport w).
  - split; [|done]. apply (PaneInv_transport w); try done.
    by apply shapeOf_update_heap.
Qed.

Lemma run_inv (ops : list Op) : forall w : World,
  PaneInv w0 above below w -> Placed w0 above below (_stickies w) w ->
  PaneInv w0 above below (run ops w) /\ Placed w0 above below (_stickies (run ops w)) (run ops w).
Proof.
  induction ops as [|op ops IH]; intros w Hinv HP; [done|].
  simpl. destruct (exec_inv op w Hinv HP). by apply IH.
Qed.

Lemma run_fresh_inv (ops : list Op) :
  PaneInv w0 above below (run ops w0)
  /\ Placed w0 above below (_stickies (run ops w0)) (run ops w0).
Proof.
  apply run_inv; [apply PaneInv_fresh|].
  intros e s x Hs. rewrite (fresh_registry _ _ _ _ Hfresh) in Hs. by apply elem_of_nil in Hs.
Qed.

(** In every world of such a history [sortSticky] returns, and a second
    call changes nothing. *)
Lemma sortSticky_twice_reachable (ops : list Op) (s : sid) :
  let w := run ops w0 in
  returns (sortSticky s w) = true
  /\ sortSticky s (world_of (sortSticky s w)) = sortSticky s w.
Proof.
  intros w. destruct (run_fresh_inv ops) as [Hinv HP]. fold w in Hinv, HP.
  split.
  - destruct (sortSticky_inv _ w s Hinv HP) as (d' & -> & _). reflexivity.
  - apply sortSticky_twice.
    + intros t b Ht Hb.
      destruct (inv_shape _ _ _ _ Hinv Top s) as [_ Hrt].
      destruct (inv_shape _ _ _ _ Hinv Bottom s) as [_ Hrb].
      simpl in Hrt, Hrb. rewrite Hrt in Ht. rewrite Hrb in Hb. intros ->.
      by destruct (fresh_distinct _ _ _ _ Hfresh Top Bottom s s b Ht Hb).
    + intros a t Ha Ht Hc.
      rewrite (inv_above _ _ _ _ Hinv) in Ha. injection Ha as <-.
      destruct (inv_shape _ _ _ _ Hinv Top s) as [_ Hrt]. simpl in Hrt.
      rewrite Hrt in Ht.
      by apply (container_contains w Top Top s t Hinv Ht).
Qed.

End Invariant.

(** ** The scenarios are fresh panes *)

(** In a DOM where the representations and the content elements have no
    children of their own the regions are not nested. *)
Lemma FreshPane_leaves (w0 : World) (content above below : node) :
  contentContainer w0 = Some content -> stickyAbove w0 = Some above ->
  stickyBelow w0 = Some below -> above ≠ below -> _stickies w0 = [] ->
  (forall e, Dom.children (dom w0) (edgeNode above below e) = []) ->
  (forall e e' s s' x,
     representation e (heap w0 s) = Some x ->
     representation e' (heap w0 s') = Some x -> e = e' /\ s = s') ->
  (forall e s x, representation e (heap w0 s) = Some x ->
     x ≠ above /\ x ≠ below /\ Dom.children (dom w0) x = []) ->
  (forall s p, placeholder (heap w0 s) = Some p -> p ≠ above /\ p ≠ below) ->
  (forall s n, nonStickyContent (heap w0 s) = Some n ->
     n ≠ above /\ n ≠ below /\ Dom.children (dom w0) n = []
     /\ forall e s', representation e (heap w0 s') ≠ Some n) ->
  FreshPane w0 content above below.
Proof.
  intros Hc Ha Hb Hab Hreg Hempty Hdist Hreps Hph Hcont. constructor; try done.
  - intros e s x Hx. destruct (Hreps e s x Hx) as (? & ? & _). done.
  - intros e s x y Hx _ Hxy. destruct (Hreps e s x Hx) as (_ & _ & Hleaf).
    rewrite contains_leaf in Hxy by done. by apply bool_decide_eq_true in Hxy.
  - intros s n y Hn Hy. destruct (Hcont s n Hn) as (Hna & Hnb & Hleaf & Hnr).
    rewrite contains_leaf by done. apply bool_decide_eq_false. intros <-.
    destruct Hy as [?|[?|(e & s' & Hy)]]; [done..|]. by apply (Hnr e s').
Defined.

Lemma region_representation (top bottom : bool) (e : Edge) (s : sid) (x : node) :
  representation e (Scenario.region top bottom s) = Some x ->
  x = match e with Top => Scenario.topOf s | Bottom => Scenario.bottomOf s end.
Proof. destruct e; simpl; by intros [= <-]. Defined.

Lemma builtRegion_representation (top bottom : bool) (e : Edge) (s : sid) (x : node) :
  representation e (builtRegion top bottom s) = Some x ->
  x = match e with Top => Scenario.topOf s | Bottom => Scenario.bottomOf s end.
Proof. destruct e, top, bottom; simpl; by intros [= <-]. Defined.

Lemma startDom_leaf (x : node) :
  x ∉ [Scenario.content; Scenario.rootOf 1%nat; Scenario.placeholderOf 1%nat;
       Scenario.rootOf 2%nat; Scenario.placeholderOf 2%nat;
       Scenario.rootOf 3%nat; Scenario.placeholderOf 3%nat] ->
  Dom.children Rendered.startDom x = [].
Proof.
  intros Hx. unfold Dom.children, Rendered.startDom.
  rewrite (not_elem_of_list_to_map_1 _ x); [done|].
  intros Hin. apply Hx. exact Hin.
Defined.

Ltac scenario_nodes :=
  unfold Scenario.topOf, Scenario.bottomOf, Scenario.nonStickyOf, Scenario.placeholderOf,
    Scenario.rootOf, Scenario.above, Scenario.below, Scenario.content in *.

Ltac not_a_key :=
  apply startDom_leaf; scenario_nodes;
  repeat (apply not_elem_of_cons; split; [lia|]); apply not_elem_of_nil.

Section ScenarioFresh.

Variable h : sid -> Sticky.
Hypothesis Hrep : forall e s x, representation e (h s) = Some x ->
  x = match e with Top => Scenario.topOf s | Bottom => Scenario.bottomOf s end.
Hypothesis Hcontent : forall s, nonStickyContent (h s) = Some (Scenario.nonStickyOf s).
Hypothesis Hplaceholder : forall s, placeholder (h s) = Some (Scenario.placeholderOf s).

Lemma scenario_fresh (d : gmap node (list node)) (measure : sid -> Z) :
  Dom.children d Scenario.above = [] -> Dom.children d Scenario.below = [] ->
  (forall s, Dom.children d (Scenario.topOf s) = []
             /\ Dom.children d (Scenario.bottomOf s) = []
             /\ Dom.children d (Scenario.nonStickyOf s) = []) ->
  FreshPane (mkWorld (Some Scenario.content) (Some Scenario.above) (Some Scenario.below)
                     [7%nat] [] 0 0 h d (fun _ => 20) measure [] Scenario.paneProps)
            Scenario.content Scenario.above Scenario.below.
Proof.
  intros Hda Hdb Hleaf. apply FreshPane_leaves; try reflexivity.
  - discriminate.
  - by intros [].
  - intros e e' s s' x Hx Hx'. cbn [heap] in Hx, Hx'.
    apply Hrep in Hx, Hx'. scenario_nodes. destruct e, e'; subst x;
      first [split; [reflexivity|lia] | exfalso; lia].
  - intros e s x Hx. cbn [heap] in Hx. apply Hrep in Hx. subst x.
    destruct (Hleaf s) as (Ht & Hb & _).
    destruct e; (split; [|split]); try done; scenario_nodes; lia.
  - intros s p Hp. cbn [heap] in Hp. rewrite Hplaceholder in Hp. injection Hp as <-.
    scenario_nodes. split; lia.
  - intros s n Hn. cbn [heap] in Hn. rewrite Hcontent in Hn. injection Hn as <-.
    destruct (Hleaf s) as (_ & _ & Hnl).
    split; [scenario_nodes; lia|]. split; [scenario_nodes; lia|]. split; [done|].
    intros e s' Hx. cbn [heap] in Hx. apply Hrep in Hx. scenario_nodes. destruct e; lia.
Defined.

Lemma scenario_mounted_fresh (measure : sid -> Z) :
  FreshPane (Scenario.mounted h measure) Scenario.content Scenario.above Scenario.below.
Proof. by apply scenario_fresh. Defined.

Lemma scenario_rendered_fresh (measure : sid -> Z) :
  FreshPane (Rendered.mounted h measure) Scenario.content Scenario.above Scenario.below.
Proof.
  apply scenario_fresh; [not_a_key|not_a_key|].
  intros s. split; [|split]; not_a_key.
Defined.

End ScenarioFresh.

Lemma mounted_region_fresh (top bottom : bool) (measure : sid -> Z) :
  FreshPane (Scenario.mounted (Scenario.region top bottom) measure)
            Scenario.content Scenario.above Scenario.below.
Proof. apply scenario_mounted_fresh; [apply region_representation|done..]. Defined.

Lemma mounted_built_fresh (top bottom : bool) (measure : sid -> Z) :
  FreshPane (Scenario.mounted (builtRegion top bottom) measure)
            Scenario.content Scenario.above Scenario.below.
Proof. apply scenario_mounted_fresh; [apply builtRegion_representation|done..]. Defined.

Lemma rendered_region_fresh (top bottom : bool) (measure : sid -> Z) :
  FreshPane (Rendered.mounted (Scenario.region top bottom) measure)
            Scenario.content Scenario.above Scenario.below.
Proof. apply scenario_rendered_fresh; [apply region_representation|done..]. Defined.

Lemma rendered_built_fresh (top bottom : bool) (measure : sid -> Z) :
  FreshPane (Rendered.mounted (builtRegion top bottom) measure)
            Scenario.content Scenario.above Scenario.below.
Proof. apply scenario_rendered_fresh; [apply builtRegion_representation|done..]. Defined.
(** ** The ordering of a pinned container *)

(** Regions A (distance 10) then B (distance 5), both top-capable, are
    added to a mounted pane: the top container holds [B; A]. *)
Example addSticky_A_then_B :
  let r := (addSticky 1%nat >> addSticky 2%nat) Scenario.abWorld in
  returns r = true
  /\ pinnedChildren (world_of r) (stickyAbove (world_of r))
     = [Scenario.topOf 2%nat; Scenario.topOf 1%nat]
  /\ pinnedOrdered (world_of r) Scenario.above = true.
Proof. vm_compute. auto. Qed.

(** C1 (the code breaks the claim).  Three top-capable regions are added
    to a mounted pane in the order 1 (distance 5), 2 (distance 5),
    3 (distance 3).  Every call returns, nothing is pending, and the top
    container holds the representations of 2, 3, 1, whose owners'
    distances are 5, 3, 5: the children are not in non-decreasing order of
    [distanceFromTop]. *)
Theorem addSticky_equal_distances_break_order :
  let r := (addSticky 1%nat >> addSticky 2%nat >> addSticky 3%nat) Scenario.tieWorld in
  returns r = true
  /\ _stickies (world_of r) = [1%nat; 2%nat; 3%nat]
  /\ pinnedChildren (world_of r) (stickyAbove (world_of r))
     = [Scenario.topOf 2%nat; Scenario.topOf 3%nat; Scenario.topOf 1%nat]
  /\ ownerDistances (world_of r) Scenario.above = [Some 5; Some 3; Some 5]
  /\ pinnedOrdered (world_of r) Scenario.above = false.
Proof. vm_compute. auto 6. Qed.

(** ** removeSticky on a representation that is not in its container *)

(** C2 (the code breaks the claim).  On a mounted pane with empty
    containers, [removeSticky] of a region that was never added, and whose
    top representation exists, ends in the [NotFoundError] of
    [removeChild]: the call does not return and the subscriber is never
    called. *)
Theorem removeSticky_never_added_throws :
  let w := Scenario.mounted (Scenario.region true false) (fun _ => 0) in
  exists w',
    removeSticky 1%nat w = Throw Dom.NotFoundError w'
    /\ _subscribers w' = [7%nat]
    /\ trace w' = []
    /\ notifySubscribers w' <> Return tt w'.
Proof.
  eexists. split; [vm_compute; reflexivity|].
  split; [reflexivity|]. split; [reflexivity|].
  vm_compute. intros H. inversion H.
Qed.

(** ** The candidate sibling list of _addToStickyContainer *)

(** C3 (the code breaks the claim).  Region 1 is registered, its top
    representation is a child of the top container and its own
    [canStickyTop] is false; region 2, top-capable, is being placed.  The
    list the code builds contains region 1, the list of the claim is
    empty, and region 2 is inserted before region 1 instead of being
    appended. *)
Theorem stickyListSorted_reads_flag_of_placed_region :
  let w := Scenario.flagWorld in
  canStickyTop (heap w 1%nat) = false
  /\ stickyListSorted w 2%nat Scenario.above = [1%nat]
  /\ candidateSiblings_spec w Scenario.above = []
  /\ pinnedChildren (world_of (sortSticky 2%nat w)) (Some Scenario.above)
     = [Scenario.topOf 2%nat; Scenario.topOf 1%nat].
Proof. vm_compute. auto. Qed.

(** ** The height pass *)

(** C5.  [updateStickyRefHeights] always returns, and the heights it
    reports are the sums of the rendered heights
    ([nonStickyContent.offsetHeight]) of the registered regions whose
    [isStickyTop], respectively [isStickyBottom], flag is true.  The sums
    are those of the world after the pass as well as before it, they do not
    depend on the heights held before, and both edges read the same
    [renderedHeight] of a region. *)
Theorem updateStickyRefHeights_reports_sums (w : World) :
  exists w',
    updateStickyRefHeights w = Return tt w'
    /\ stickyTopHeight w' = pinnedTopHeight w'
    /\ stickyBottomHeight w' = pinnedBottomHeight w'
    /\ pinnedTopHeight w' = pinnedTopHeight w
    /\ pinnedBottomHeight w' = pinnedBottomHeight w
    /\ forall top0 bottom0 : Z,
         let w0 := world_of (updateStickyRefHeights (set_heights top0 bottom0 w)) in
         stickyTopHeight w0 = stickyTopHeight w'
         /\ stickyBottomHeight w0 = stickyBottomHeight w'.
Proof.
  destruct (updateStickyRefHeights_frame w)
    as (Hr & Ht & Hb & _ & _ & _ & _ & Hs & Hh & Ho & _).
  destruct (pinnedHeights_frame w _ Hs Hh Ho) as [Hpt Hpb].
  eexists. split; [exact Hr|].
  split; [by rewrite Ht, Hpt|]. split; [by rewrite Hb, Hpb|].
  split; [done|]. split; [done|]. intros top0 bottom0 w1. subst w1.
  destruct (updateStickyRefHeights_frame (set_heights top0 bottom0 w))
    as (_ & Ht' & Hb' & _).
  rewrite Ht, Hb, Ht', Hb'. split; reflexivity.
Qed.

(** C10.  A registered region whose [nonStickyContent] is null leaves both
    accumulators and the world as they are, whatever its [isStickyTop] and
    [isStickyBottom] say: it adds nothing to either total and
    [_checkStickyStatus] is not run for it.  The whole pass reports the
    same heights and makes the same calls as on the registry without that
    region. *)
Theorem updateStickyRefHeights_skips_null_content
    (w : World) (s : sid) (H : nonStickyContent (heap w s) = None) :
  (forall acc : Z * Z, heightStep acc s w = Return acc w)
  /\ (let w1 := world_of (updateStickyRefHeights w) in
      let w2 := world_of (updateStickyRefHeights (set_stickies (set_delete s (_stickies w)) w)) in
      stickyTopHeight w1 = stickyTopHeight w2
      /\ stickyBottomHeight w1 = stickyBottomHeight w2
      /\ trace w1 = trace w2).
Proof.
  assert (Hr : renderedHeight w s = 0) by (unfold renderedHeight; by rewrite H).
  split.
  - intros acc. rewrite heightStep_eq. unfold checked, addHeights. rewrite H, Hr.
    destruct acc, (isStickyTop _), (isStickyBottom _); simpl; rewrite ?Z.add_0_r; reflexivity.
  - rewrite !updateStickyRefHeights_eq. cbn [world_of _stickies set_stickies].
    rewrite fold_checked_set_stickies, fold_checked_set_delete by done.
    assert (Ht : pinnedTopHeight (set_stickies (set_delete s (_stickies w)) w)
                 = pinnedTopHeight w) by (by apply sum_set_delete).
    assert (Hb : pinnedBottomHeight (set_stickies (set_delete s (_stickies w)) w)
                 = pinnedBottomHeight w) by (by apply sum_set_delete).
    rewrite Ht, Hb.
    change (stateOf (set_stickies (set_delete s (_stickies w)) w)) with (stateOf w).
    unfold rerendered.
    change (heightsChanged (stateOf w)
              (set_heights (pinnedTopHeight w) (pinnedBottomHeight w)
                 (set_stickies (set_delete s (_stickies w))
                    (fold_left checked (_stickies w) w))))
      with (heightsChanged (stateOf w)
              (set_heights (pinnedTopHeight w) (pinnedBottomHeight w)
                 (fold_left checked (_stickies w) w))).
    by destruct (heightsChanged _ _).
Qed.

Lemma updateStickyRefHeights_skips_null_content_witness :
  isStickyTop (heap Scenario.noContentWorld 1%nat) = true
  /\ heightStep (0, 0) 1%nat Scenario.noContentWorld = Return (0, 0) Scenario.noContentWorld.
Proof.
  split; [reflexivity|].
  apply (updateStickyRefHeights_skips_null_content Scenario.noContentWorld 1%nat eq_refl).
Defined.

(** ** The pinned containers are required together *)

(** C9.  When either container ref is null, [sortSticky] places nothing
    (the world is returned as it was, also for the edge whose container
    exists), [_checkStickyStatus] makes no call and changes nothing, and
    no mutation record counts as touching a pinned container, wherever its
    target lies. *)
Theorem pinned_containers_required_together
    (w : World) (H : stickyAbove w = None \/ stickyBelow w = None) :
  (forall sticky, sortSticky sticky w = Return tt w)
  /\ (forall sticky, _checkStickyStatus sticky w = Return tt w)
  /\ (forall mutationRecord, checkIfMutationIsSticky w mutationRecord = false).
Proof.
  split; [|split]; intros x.
  - unfold sortSticky, withWorld.
    destruct H as [-> | ->]; [reflexivity|]. by destruct (stickyAbove w).
  - rewrite _checkStickyStatus_eq. unfold reconciled, reconcileCommands, reconcileDom.
    destruct H as [-> | ->]; [by rewrite set_dom_id, set_trace_nil|].
    destruct (stickyAbove w); by rewrite set_dom_id, set_trace_nil.
  - unfold checkIfMutationIsSticky.
    destruct H as [-> | ->]; [reflexivity|]. by destruct (stickyAbove w).
Qed.

Lemma pinned_containers_required_together_witness :
  let w := Scenario.halfWorld in
  let inside := mkMutation (Scenario.topOf 1%nat) in
  stickyAbove w = Some Scenario.above
  /\ Dom.contains (dom w) Scenario.above (target inside) = true
  /\ canStickyTop (heap w 1%nat) = true
  /\ sortSticky 1%nat w = Return tt w
  /\ _checkStickyStatus 1%nat w = Return tt w
  /\ checkIfMutationIsSticky w inside = false.
Proof.
  pose proof (pinned_containers_required_together Scenario.halfWorld (or_intror eq_refl))
    as (Hsort & Hcheck & Hmut).
  intros w inside.
  split; [reflexivity|]. split; [reflexivity|]. split; [reflexivity|].
  split; [apply Hsort|]. split; [apply Hcheck | apply Hmut].
Defined.

(** ** The mutation callback *)




(** ** The reconciliation check *)

(** C7 as stated fails.  Region 2 is rendered inside the content of
    region 1.  Region 1 registers, pins at the top, and a height pass
    moves its content, region 2 with it, into the top container; then
    region 2 registers and pins at the top.  Region 2 now reports
    [isStickyTop], its top representation is not a child of the top
    container, and the check neither places the representation nor calls
    the region: its content already lies within the top container.
    And a second run is not without effect.  Region 1 unpins, and the
    next height pass returns its content to the placeholder and moves the
    content of region 2 into the top representation of region 2, which
    was never placed and lies outside the top container: from then on
    every run of the check calls [addSticky] on region 2 again. *)
Lemma _checkStickyStatus_spec_counterexample :
  (let w := Nested.reached in
   _stickies w = [1%nat; 2%nat]
   /\ isStickyTop (heap w 2%nat) = true
   /\ stickyContentTop (heap w 2%nat) = Some (Scenario.topOf 2%nat)
   /\ Dom.children (dom w) Scenario.above = [Scenario.topOf 1%nat]
   /\ world_of (_checkStickyStatus 2%nat w) = w
   /\ ~ reconcileTop_spec w 2%nat)
  /\ (let w := Nested.unpinned in
      let once := world_of (_checkStickyStatus 2%nat w) in
      let twice := world_of (_checkStickyStatus 2%nat once) in
      isStickyTop (heap w 2%nat) = true
      /\ isStickyBottom (heap w 2%nat) = false
      /\ Dom.children (dom w) (Scenario.topOf 2%nat) = [Scenario.nonStickyOf 2%nat]
      /\ trace once = trace w ++ [StickyAddSticky 2%nat (Scenario.topOf 2%nat)]
      /\ trace twice = trace once ++ [StickyAddSticky 2%nat (Scenario.topOf 2%nat)]
      /\ twice <> once).
Proof.
  split.
  2:{ intros w once twice.
      assert (H2 : trace twice = trace once ++ [StickyAddSticky 2%nat (Scenario.topOf 2%nat)])
        by (vm_compute; reflexivity).
      split; [reflexivity|]. split; [reflexivity|].
      split; [vm_compute; reflexivity|]. split; [vm_compute; reflexivity|].
      split; [exact H2|].
      intros Heq. rewrite Heq in H2. apply (f_equal length) in H2.
      rewrite length_app in H2. simpl in H2. lia. }
  intros w.
  assert (Hsame : world_of (_checkStickyStatus 2%nat w) = w).
  { rewrite _checkStickyStatus_eq. cbn [world_of]. unfold reconciled.
    assert (Hc : reconcileCommands w 2%nat = []) by (vm_compute; reflexivity).
    assert (Hd : reconcileDom w 2%nat = dom w) by (vm_compute; reflexivity).
    by rewrite Hc, Hd, set_dom_id, set_trace_nil. }
  split; [vm_compute; reflexivity|]. split; [reflexivity|]. split; [reflexivity|].
  split; [vm_compute; reflexivity|]. split; [exact Hsame|].
  intros H. specialize (H eq_refl Scenario.above (Scenario.topOf 2%nat) eq_refl eq_refl).
  assert (Hn : Scenario.topOf 2%nat ∉ Dom.children (dom w) Scenario.above).
  { vm_compute. intros Hin. apply list_elem_of_In in Hin. simpl in Hin. intuition discriminate. }
  specialize (H Hn). cbv zeta in H. rewrite Hsame in H.
  destruct H as [Hin | Hin]; vm_compute in Hin;
    apply list_elem_of_In in Hin; simpl in Hin; intuition discriminate.
Qed.

(** C7, amended.  The check always returns, changes nothing but the call
    log and the DOM, and in the DOM moves nothing but the content element
    of the region; it never places a representation.  With [stickyAbove],
    [stickyBelow], [contentContainer] and the region's [nonStickyContent]
    all non-null it does this.  A region that reports [isStickyTop],
    whose top representation exists and whose content is not within the
    top container, is called with [addSticky(stickyContentTop)] and its
    content moves into that representation; symmetrically at the bottom,
    on the DOM the top half left.  It is not called while its content is
    within the container of each edge it reports.  A region that reports
    neither edge and whose content is not within the content container is
    called with [resetSticky], nothing else, and its content returns to
    the placeholder; when the content is within, nothing happens.  When
    one of the four refs is null nothing happens at all.  Running the
    check a second time leaves every child list, the registry, the
    regions and the heights as the first run left them; for a region that
    reports both edges this needs its top representation not to lie
    within the bottom container.  The second run makes no call and
    changes nothing at all when the region reports at most one edge and
    the element its content is moved into lies within the container the
    check tests and not within the content itself: the representation of
    the reported edge within its pinned container, the placeholder, which
    must be non-null, within the content container. *)
Theorem _checkStickyStatus_reconciles (w : World) (sticky : sid) :
  let w' := world_of (_checkStickyStatus sticky w) in
  let calls := reconcileCommands w sticky in
  _checkStickyStatus sticky w = Return tt w'
  /\ trace w' = trace w ++ calls
  /\ (_stickies w' = _stickies w /\ heap w' = heap w
      /\ stickyTopHeight w' = stickyTopHeight w /\ stickyBottomHeight w' = stickyBottomHeight w
      /\ stickyAbove w' = stickyAbove w /\ stickyBelow w' = stickyBelow w
      /\ contentContainer w' = contentContainer w /\ _subscribers w' = _subscribers w)
  /\ (forall c y, nonStickyContent (heap w sticky) ≠ Some y ->
        (y ∈ Dom.children (dom w') c <-> y ∈ Dom.children (dom w) c))
  /\ (stickyAbove w = None \/ stickyBelow w = None \/ contentContainer w = None
      \/ nonStickyContent (heap w sticky) = None -> w' = w)
  /\ (forall above below content nonSticky : node,
        stickyAbove w = Some above -> stickyBelow w = Some below ->
        contentContainer w = Some content ->
        nonStickyContent (heap w sticky) = Some nonSticky ->
        (forall top, isStickyTop (heap w sticky) = true ->
           stickyContentTop (heap w sticky) = Some top ->
           Dom.contains (dom w) above nonSticky = false ->
           StickyAddSticky sticky top ∈ calls
           /\ afterTop w sticky = Dom.move top nonSticky (dom w))
        /\ (forall bottom, isStickyBottom (heap w sticky) = true ->
             stickyContentBottom (heap w sticky) = Some bottom ->
             Dom.contains (afterTop w sticky) below nonSticky = false ->
             StickyAddSticky sticky bottom ∈ calls
             /\ dom w' = Dom.move bottom nonSticky (afterTop w sticky))
        /\ (isStickyTop (heap w sticky) = true \/ isStickyBottom (heap w sticky) = true ->
             (isStickyTop (heap w sticky) = true ->
              Dom.contains (dom w) above nonSticky = true) ->
             (isStickyBottom (heap w sticky) = true ->
              Dom.contains (dom w) below nonSticky = true) ->
             w' = w)
        /\ (isStickyTop (heap w sticky) = false -> isStickyBottom (heap w sticky) = false ->
             Dom.contains (dom w) content nonSticky = false ->
             calls = [StickyResetSticky sticky]
             /\ dom w' = moved (placeholder (heap w sticky)) (Some nonSticky) (dom w))
        /\ (isStickyTop (heap w sticky) = false -> isStickyBottom (heap w sticky) = false ->
             Dom.contains (dom w) content nonSticky = true -> w' = w))
  /\ ((isStickyTop (heap w sticky) = true -> isStickyBottom (heap w sticky) = true ->
       forall below top, stickyBelow w = Some below ->
         stickyContentTop (heap w sticky) = Some top ->
         Dom.contains (dom w) below top = false) ->
      let w'' := world_of (_checkStickyStatus sticky w') in
      (forall c, Dom.children (dom w'') c = Dom.children (dom w') c)
      /\ _stickies w'' = _stickies w' /\ heap w'' = heap w'
      /\ stickyTopHeight w'' = stickyTopHeight w'
      /\ stickyBottomHeight w'' = stickyBottomHeight w')
  /\ (forall above below content nonSticky : node,
        stickyAbove w = Some above -> stickyBelow w = Some below ->
        contentContainer w = Some content ->
        nonStickyContent (heap w sticky) = Some nonSticky ->
        (isStickyTop (heap w sticky) = true -> isStickyBottom (heap w sticky) = false) ->
        (forall top, isStickyTop (heap w sticky) = true ->
           stickyContentTop (heap w sticky) = Some top ->
           Dom.contains (dom w) above top = true
           /\ Dom.contains (dom w) nonSticky top = false) ->
        (forall bottom, isStickyBottom (heap w sticky) = true ->
           stickyContentBottom (heap w sticky) = Some bottom ->
           Dom.contains (dom w) below bottom = true
           /\ Dom.contains (dom w) nonSticky bottom = false) ->
        (isStickyTop (heap w sticky) = false -> isStickyBottom (heap w sticky) = false ->
         Dom.contains (dom w) content nonSticky = false ->
         exists p, placeholder (heap w sticky) = Some p
                   /\ Dom.contains (dom w) content p = true
                   /\ Dom.contains (dom w) nonSticky p = false) ->
        world_of (_checkStickyStatus sticky w') = w').
Proof.
  intros w' calls. subst w' calls. rewrite !_checkStickyStatus_eq. cbn [world_of].
  split; [done|]. split; [done|]. split; [done|].
  assert (Hnull : stickyAbove w = None \/ stickyBelow w = None \/ contentContainer w = None
                  \/ nonStickyContent (heap w sticky) = None -> reconciled w sticky = w).
  { intros H. unfold reconciled, reconcileCommands, reconcileDom.
    destruct (stickyAbove w), (stickyBelow w), (contentContainer w),
      (nonStickyContent (heap w sticky)); try (by rewrite set_dom_id, set_trace_nil).
    destruct H as [H|[H|[H|H]]]; discriminate. }
  split; [|split; [exact Hnull|split; [|split]]].
  - (* only the content element moves *)
    intros c y Hy. cbn [dom reconciled set_trace set_dom]. unfold reconcileDom.
    assert (Hmoved : forall p d, y ∈ Dom.children (moved p (nonStickyContent (heap w sticky)) d) c
                                 <-> y ∈ Dom.children d c).
    { intros p d. unfold moved. destruct p as [p|]; [|done].
      destruct (nonStickyContent (heap w sticky)) as [n|]; [|done].
      rewrite children_move. case_decide as Hp.
      - subst c. rewrite elem_of_app, elem_of_without, list_elem_of_singleton.
        split; [intros [[? _]| ->]; [done|congruence]|]. intros ?. left. split; [done|congruence].
      - rewrite elem_of_without. split; [tauto|]. intros ?. split; [done|congruence]. }
    destruct (stickyAbove w) as [a|], (stickyBelow w) as [b|],
      (contentContainer w) as [cc|]; try done.
    destruct (nonStickyContent (heap w sticky)) as [n|] eqn:Hn; [|done].
    destruct (_ || _).
    + rewrite (Hmoved (bottomTarget w sticky) (afterTop w sticky)).
      unfold afterTop. rewrite Hn. apply (Hmoved (topTarget w sticky) (dom w)).
    + destruct (Dom.contains _ _ _); [done|]. apply Hmoved.
  - (* all four refs are set *)
    intros above below content nonSticky Ha Hb Hc Hn.
    unfold reconciled, reconcileCommands, reconcileDom. rewrite Ha, Hb, Hc, Hn.
    cbn [dom set_trace set_dom].
    split; [|split; [|split; [|split]]].
    + intros top Ht Htop Hcont.
      assert (HT : topTarget w sticky = Some top).
      { unfold topTarget. rewrite Ha, Hn. by apply pinTarget_Some. }
      rewrite Ht. cbn [orb]. split.
      * apply elem_of_app. left. rewrite HT. apply list_elem_of_here.
      * unfold afterTop. by rewrite HT, Hn.
    + intros bottom Ht Hbot Hcont.
      assert (HB : bottomTarget w sticky = Some bottom).
      { unfold bottomTarget. rewrite Hb, Hn. by apply pinTarget_Some. }
      rewrite Ht, orb_true_r. split.
      * apply elem_of_app. right. rewrite HB. apply list_elem_of_here.
      * by rewrite HB.
    + intros Hflag Htop Hbot.
      assert (HT : topTarget w sticky = None).
      { unfold topTarget. rewrite Ha, Hn. apply pinTarget_None.
        destruct (isStickyTop (heap w sticky)); [right; right; by apply Htop|by left]. }
      assert (Hd1 : afterTop w sticky = dom w) by (unfold afterTop; by rewrite HT).
      assert (HB : bottomTarget w sticky = None).
      { unfold bottomTarget. rewrite Hb, Hn, Hd1. apply pinTarget_None.
        destruct (isStickyBottom (heap w sticky)); [right; right; by apply Hbot|by left]. }
      assert (Hor : isStickyTop (heap w sticky) || isStickyBottom (heap w sticky) = true).
      { destruct Hflag as [-> | ->]; [done|apply orb_true_r]. }
      rewrite Hor, HT, HB, Hd1. simpl. by rewrite set_dom_id, set_trace_nil.
    + intros Ht Hbt Hcont. by rewrite Ht, Hbt, Hcont.
    + intros Ht Hbt Hcont. rewrite Ht, Hbt, Hcont. simpl.
      by rewrite set_dom_id, set_trace_nil.
  - (* a second run *)
    intros Hapart. split; [|done].
    destruct (stickyAbove w) as [above|] eqn:Ha;
      [|by rewrite !(Hnull (or_introl eq_refl))].
    destruct (stickyBelow w) as [below|] eqn:Hb;
      [|by rewrite !(Hnull (or_intror (or_introl eq_refl)))].
    destruct (contentContainer w) as [content|] eqn:Hc;
      [|by rewrite !(Hnull (or_intror (or_intror (or_introl eq_refl))))].
    destruct (nonStickyContent (heap w sticky)) as [n|] eqn:Hn;
      [|by rewrite !(Hnull (or_intror (or_intror (or_intror eq_refl))))].
    clear Hnull.
    assert (Hdom : forall v, stickyAbove v = Some above -> stickyBelow v = Some below ->
              contentContainer v = Some content -> heap v = heap w ->
              dom (reconciled v sticky) =
              if isStickyTop (heap w sticky) || isStickyBottom (heap w sticky)
              then pinBoth (isStickyTop (heap w sticky)) (isStickyBottom (heap w sticky))
                     above below n (stickyContentTop (heap w sticky))
                     (stickyContentBottom (heap w sticky)) (dom v)
              else if Dom.contains (dom v) content n then dom v
                   else moved (placeholder (heap w sticky)) (Some n) (dom v)).
    { intros v Hva Hvb Hvc Hvh. cbn [dom reconciled set_trace set_dom].
      unfold reconcileDom, bottomTarget, afterTop, topTarget, pinBoth.
      by rewrite Hva, Hvb, Hvc, Hvh, Hn. }
    rewrite (Hdom (reconciled w sticky)), (Hdom w) by done. clear Hdom.
    destruct (isStickyTop (heap w sticky) || isStickyBottom (heap w sticky)) eqn:Hflag.
    + apply pinBoth_twice. intros Ht Hbt t Htop. by apply (Hapart Ht Hbt below t).
    + destruct (Dom.contains (dom w) content n) eqn:Hcont; [by rewrite Hcont|].
      destruct (Dom.contains (moved _ _ _) content n); [done|].
      destruct (placeholder (heap w sticky)) as [p|]; [|done].
      simpl. intros c. apply move_move.
  - (* a second run that makes no call *)
    intros above below content n Ha Hb Hc Hn Hone Htop Hbot Hreset.
    assert (Hdom : dom (reconciled w sticky) = reconcileDom w sticky) by done.
    apply (reconciled_within (reconciled w sticky) sticky above below content n);
      [exact Ha|exact Hb|exact Hc|exact Hn| | |];
      change (heap (reconciled w sticky)) with (heap w); rewrite Hdom;
      unfold reconcileDom; rewrite Ha, Hb, Hc, Hn.
    + intros Ht. pose proof (Hone Ht) as Hbf.
      assert (HB : bottomTarget w sticky = None)
        by (unfold bottomTarget; by rewrite Hbf).
      rewrite Ht, HB. cbn [orb moved]. unfold afterTop. rewrite Hn.
      destruct (topTarget w sticky) as [y|] eqn:HT.
      * unfold topTarget in HT. rewrite Ha, Hn in HT.
        apply pinTarget_Some in HT as (_ & Hy & _).
        destruct (Htop y Ht Hy) as [Hwithin Hout].
        right. cbn [moved]. by apply contains_after_move.
      * unfold topTarget in HT. rewrite Ha, Hn in HT.
        apply pinTarget_None in HT as [HT|[HT|HT]]; [congruence|by left|by right].
    + intros Hbt.
      assert (Htf : isStickyTop (heap w sticky) = false).
      { destruct (isStickyTop (heap w sticky)); [|done]. by rewrite Hone in Hbt. }
      assert (HT : afterTop w sticky = dom w).
      { unfold afterTop, topTarget. by rewrite Htf. }
      rewrite Htf, Hbt. cbn [orb].
      destruct (bottomTarget w sticky) as [y|] eqn:HB.
      * unfold bottomTarget in HB. rewrite Hb, Hn, HT in HB.
        apply pinTarget_Some in HB as (_ & Hy & _).
        destruct (Hbot y Hbt Hy) as [Hwithin Hout].
        right. rewrite HT. cbn [moved]. by apply contains_after_move.
      * unfold bottomTarget in HB. rewrite Hb, Hn, HT in HB. rewrite HT.
        apply pinTarget_None in HB as [HB|[HB|HB]]; [congruence|by left|by right].
    + intros Htf Hbf. rewrite Htf, Hbf. cbn [orb].
      destruct (Dom.contains (dom w) content n) eqn:Hcont; [done|].
      destruct (Hreset Htf Hbf eq_refl) as (p & -> & Hwithin & Hout).
      cbn [moved]. by apply contains_after_move.
Qed.

Lemma _checkStickyStatus_reconciles_witness :
  let w := run [OpAddSticky 1%nat; OpSetPinned 1%nat true true]
               (Scenario.mounted (Scenario.region true true) (fun _ => 0)) in
  let w' := world_of (_checkStickyStatus 1%nat w) in
  trace w' = trace w ++ [StickyAddSticky 1%nat (Scenario.topOf 1%nat);
                         StickyAddSticky 1%nat (Scenario.bottomOf 1%nat)]
  /\ Dom.children (dom w') (Scenario.bottomOf 1%nat) = [Scenario.nonStickyOf 1%nat]
  /\ (forall c, Dom.children (dom (world_of (_checkStickyStatus 1%nat w'))) c
                = Dom.children (dom w') c)
  /\ world_of (_checkStickyStatus 1%nat Scenario.noContentWorld) = Scenario.noContentWorld
  /\ (let v := run [OpAddSticky 1%nat; OpSetPinned 1%nat true false]
                   (Rendered.mounted (Scenario.region true false) (fun _ => 0)) in
      let v' := world_of (_checkStickyStatus 1%nat v) in
      Dom.children (dom v') (Scenario.topOf 1%nat) = [Scenario.nonStickyOf 1%nat]
      /\ world_of (_checkStickyStatus 1%nat v') = v').
Proof.
  intros w w'.
  destruct (_checkStickyStatus_reconciles w 1%nat)
    as (_ & Htrace & _ & _ & _ & _ & Htwice & _).
  split; [exact Htrace|]. split; [vm_compute; reflexivity|]. split; [|split].
  - apply Htwice. intros _ _ below top [= <-] [= <-]. vm_compute. reflexivity.
  - destruct (_checkStickyStatus_reconciles Scenario.noContentWorld 1%nat)
      as (_ & _ & _ & _ & Hnull & _).
    apply Hnull. right. right. right. reflexivity.
  - intros v v'. split; [vm_compute; reflexivity|].
    destruct (_checkStickyStatus_reconciles v 1%nat)
      as (_ & _ & _ & _ & _ & _ & _ & Hsettled).
    apply (Hsettled Scenario.above Scenario.below Scenario.content
             (Scenario.nonStickyOf 1%nat)); try reflexivity.
    + intros top _ [= <-]. split; vm_compute; reflexivity.
    + intros bottom Hb. vm_compute in Hb. discriminate.
    + intros Ht. vm_compute in Ht. discriminate.
Defined.

(** ** Placement is idempotent *)

(** C4.  A representation that is already a child of the target
    container is left where it is: [_addToStickyContainer] returns the
    world unchanged.  Consequently a second [sortSticky] of the same
    region, run on the world the first one left, ends as the first did and
    leaves that world as it is, so the children of both containers keep
    their number and order.  The region is taken as the Sticky component
    builds it: its two representations are distinct elements, and its top
    representation is not nested below the top container (it is a child of
    it or outside it). *)
Theorem placement_is_idempotent :
  (forall (w : World) (sticky : sid) (stickyContainer stickyContentToAdd : node),
      stickyContentToAdd ∈ Dom.children (dom w) stickyContainer ->
      _addToStickyContainer sticky stickyContainer stickyContentToAdd w = Return tt w)
  /\ (forall (w : World) (sticky : sid),
        (forall top bottom,
            stickyContentTop (heap w sticky) = Some top ->
            stickyContentBottom (heap w sticky) = Some bottom -> top ≠ bottom) ->
        (forall above top,
            stickyAbove w = Some above -> stickyContentTop (heap w sticky) = Some top ->
            Dom.contains (dom w) above top = true -> top ∈ Dom.children (dom w) above) ->
        let once := sortSticky sticky w in
        let twice := sortSticky sticky (world_of once) in
        twice = once
        /\ world_of twice = world_of once
        /\ (forall container,
              pinnedChildren (world_of twice) container
              = pinnedChildren (world_of once) container)).
Proof.
  split.
  - intros w sticky c x Hx. by apply placeIf_present.
  - intros w sticky Hdistinct Hdirect once twice.
    assert (Heq : twice = once) by (by apply sortSticky_twice).
    split; [done|]. split; [by rewrite Heq|]. intros container. by rewrite Heq.
Qed.

Lemma placement_is_idempotent_witness :
  let w := Scenario.mounted (Scenario.region true true) (fun _ => 0) in
  let once := sortSticky 1%nat w in
  pinnedChildren (world_of once) (stickyAbove w) = [Scenario.topOf 1%nat]
  /\ pinnedChildren (world_of once) (stickyBelow w) = [Scenario.bottomOf 1%nat]
  /\ _addToStickyContainer 1%nat Scenario.above (Scenario.topOf 1%nat) (world_of once)
     = Return tt (world_of once)
  /\ sortSticky 1%nat (world_of once) = once.
Proof.
  intros w once.
  destruct placement_is_idempotent as [Hpresent Htwice].
  split; [reflexivity|]. split; [reflexivity|]. split.
  - apply Hpresent. vm_compute. apply list_elem_of_here.
  - apply (Htwice w 1%nat).
    + intros top bottom [= <-] [= <-]. discriminate.
    + intros above top [= <-] [= <-] Hc. vm_compute in Hc. discriminate.
Defined.

(** ** Which representations are in the containers *)

(** C6 as stated fails, in both directions.  First, a top-capable region
    that does not report itself pinned is added to a mounted pane: its
    top representation is a child of the top container while
    [isStickyTop] is false.  Second, region 2 is rendered inside the
    content of region 1; region 1 registers and pins at the top, a height
    pass moves its content into the top container, then region 2
    registers and pins at the top: region 2 reports [isStickyTop] while
    its top representation is not a child of the top container, because
    [_addToStickyContainer] found it within the container already. *)
Lemma membership_spec_counterexample :
  (let w := run [OpAddSticky 1%nat]
                (Scenario.mounted (Scenario.region true false) (fun _ => 0)) in
   1%nat ∈ _stickies w
   /\ isStickyTop (heap w 1%nat) = false
   /\ pinnedChildren w (stickyAbove w) = [Scenario.topOf 1%nat]
   /\ ~ membership_spec w Top 1%nat)
  /\ (let w := Nested.reached in
      2%nat ∈ _stickies w
      /\ isStickyTop (heap w 2%nat) = true
      /\ pinnedChildren w (stickyAbove w) = [Scenario.topOf 1%nat]
      /\ ~ membership_spec w Top 2%nat).
Proof.
  split; intros w.
  - split; [vm_compute; apply list_elem_of_here|].
    split; [reflexivity|]. split; [reflexivity|].
    intros H. destruct (H (Scenario.topOf 1%nat) eq_refl) as [Hflag _].
    assert (Hin : Scenario.topOf 1%nat ∈ pinnedChildren w (containerRef Top w))
      by (vm_compute; apply list_elem_of_here).
    specialize (Hflag Hin). vm_compute in Hflag. discriminate.
  - split; [vm_compute; apply list_elem_of_further, list_elem_of_here|].
    split; [reflexivity|]. split; [vm_compute; reflexivity|].
    intros H. destruct (H (Scenario.topOf 2%nat) eq_refl) as [_ Hchild].
    specialize (Hchild eq_refl). vm_compute in Hchild.
    apply list_elem_of_In in Hchild. simpl in Hchild. intuition discriminate.
Qed.

(** C6, amended.  Start from a mounted pane with an empty registry and
    empty containers, whatever the rest of its DOM, over regions that are
    not nested in one another: their representations are pairwise distinct
    elements, no representation holds a container or another
    representation, and no content element holds a container or a
    representation.  Apply any sequence of [addSticky], [removeSticky],
    [sortSticky], [updateStickyRefHeights] with the content moves it asks
    the regions for, [notifySubscribers], and changes of the regions' own
    pinned flags.  In the resulting world a region's representation is a
    child of the container of its edge only if the region is capable of
    that edge ([canStickyTop], [canStickyBottom]), and it is a child
    whenever the region is registered and capable.  The capabilities and
    representations are those the regions started with; [isStickyTop] and
    [isStickyBottom] play no part. *)
Theorem membership_follows_capability
    (w0 : World) (content above below : node)
    (Hfresh : FreshPane w0 content above below) (ops : list Op) :
  let w := run ops w0 in
  forall (e : Edge) (sticky : sid) (x : node),
    representation e (heap w sticky) = Some x ->
    (x ∈ pinnedChildren w (containerRef e w) -> capable e (heap w sticky) = true)
    /\ (sticky ∈ _stickies w -> capable e (heap w sticky) = true ->
        x ∈ pinnedChildren w (containerRef e w))
    /\ capable e (heap w sticky) = capable e (heap w0 sticky)
    /\ representation e (heap w sticky) = representation e (heap w0 sticky).
Proof.
  intros w e sticky x Hx.
  destruct (run_fresh_inv w0 content above below Hfresh ops) as [Hinv HP].
  fold w in Hinv, HP.
  destruct (inv_shape _ _ _ _ Hinv e sticky) as [Hcap Hrep].
  assert (Hc : containerRef e w = Some (edgeNode above below e)).
  { destruct e; simpl; [apply (inv_above _ _ _ _ Hinv) | apply (inv_below _ _ _ _ Hinv)]. }
  rewrite Hc. simpl. rewrite Hrep in Hx.
  split; [|split; [|done]].
  - intros Hin. destruct (inv_owned _ _ _ _ Hinv e x Hin) as (s' & Hs' & Hcap').
    destruct (fresh_distinct _ _ _ _ Hfresh e e s' sticky x Hs' Hx) as [_ ->].
    by rewrite Hcap.
  - intros Hs Hcap'. apply (HP e sticky x); [done| |done]. by rewrite <- Hcap.
Qed.

Lemma membership_follows_capability_witness :
  let w0 := Rendered.mounted (Scenario.region true false) (fun _ => 0) in
  let w := run [OpAddSticky 1%nat; OpSetPinned 1%nat true false; OpUpdateStickyRefHeights;
                OpAddSticky 2%nat; OpSetPinned 1%nat false false; OpUpdateStickyRefHeights;
                OpRemoveSticky 1%nat] w0 in
  FreshPane w0 Scenario.content Scenario.above Scenario.below
  /\ (Scenario.topOf 2%nat ∈ pinnedChildren w (containerRef Top w))
  /\ capable Top (heap w 2%nat) = canStickyTop (heap w0 2%nat).
Proof.
  intros w0 w.
  pose proof (rendered_region_fresh true false (fun _ => 0)) as Hfresh.
  split; [exact Hfresh|].
  destruct (membership_follows_capability w0 _ _ _ Hfresh
              [OpAddSticky 1%nat; OpSetPinned 1%nat true false; OpUpdateStickyRefHeights;
               OpAddSticky 2%nat; OpSetPinned 1%nat false false; OpUpdateStickyRefHeights;
               OpRemoveSticky 1%nat]
              Top 2%nat (Scenario.topOf 2%nat) eq_refl) as (_ & Hplaced & Hcap & _).
  split; [|exact Hcap].
  apply Hplaced; [vm_compute; apply list_elem_of_here | reflexivity].
Defined.

(** * Further properties of the pane *)

(** ** Subscribers *)

Lemma NoDup_set_add (x : nat) (l : list nat) : NoDup l -> NoDup (set_add x l).
Proof.
  intros Hl. unfold set_add. case_bool_decide as Hx; [done|].
  apply NoDup_app. split; [done|]. split.
  - intros y Hy Hy'. apply list_elem_of_singleton in Hy'. by subst y.
  - apply NoDup_singleton.
Qed.


Lemma set_add_present (x : nat) (l : list nat) : x ∈ l -> set_add x l = l.
Proof. intros Hx. unfold set_add. by rewrite bool_decide_eq_true_2. Qed.

Lemma elem_of_set_add_iff (x y : nat) (l : list nat) : y ∈ set_add x l <-> y ∈ l \/ y = x.
Proof.
  unfold set_add. case_bool_decide.
  - split; [by left|]. by intros [?| ->].
  - rewrite elem_of_app, list_elem_of_singleton. tauto.
Qed.

Lemma callsTo_map (h : handler) (cc : node) (below : option node) (l : list handler) :
  callsTo h (map (fun h' => Handle h' cc below) l) = length (filter (fun h' => h' = h) l).
Proof.
  unfold callsTo. induction l as [|k l IH]; [done|].
  simpl. rewrite !filter_cons. simpl.
  destruct (decide (k = h)) as [->|Hk].
  - rewrite decide_True by done. simpl. by rewrite IH.
  - rewrite decide_False by congruence. done.
Qed.

Lemma NoDup_count_one (h : nat) (l : list nat) :
  NoDup l -> h ∈ l -> length (filter (fun h' => h' = h) l) = 1%nat.
Proof.
  induction 1 as [|k l Hk Hl IH]; intros Hin; [by apply elem_of_nil in Hin|].
  rewrite filter_cons. apply elem_of_cons in Hin as [<-|Hin].
  - rewrite decide_True by done. simpl. f_equal.
    apply length_zero_iff_nil. apply elem_of_nil_inv. intros y Hy.
    apply list_elem_of_filter in Hy as [-> Hy]. done.
  - rewrite decide_False by (intros ->; done). by apply IH.
Qed.

Lemma count_absent (h : nat) (l : list nat) :
  h ∉ l -> length (filter (fun h' => h' = h) l) = 0%nat.
Proof.
  intros Hh. apply length_zero_iff_nil. apply elem_of_nil_inv. intros y Hy.
  apply list_elem_of_filter in Hy as [-> Hy]. done.
Qed.

(** The subscribers are a set: subscribing again changes nothing, and a
    broadcast on a mounted pane calls a subscribed handler exactly once,
    however often it subscribed. *)
Theorem subscribe_twice_notifies_once
    (w : World) (h : handler) (Hset : NoDup (_subscribers w)) :
  let w1 := world_of (subscribe h w) in
  subscribe h w1 = subscribe h w
  /\ NoDup (_subscribers w1)
  /\ (forall cc, contentContainer w = Some cc ->
        callsTo h (broadcastCalls w1) = 1%nat
        /\ trace (world_of (notifySubscribers w1))
           = trace w ++ map (fun h' => Handle h' cc (stickyBelow w)) (_subscribers w1))
  /\ (forall h', h' ≠ h ->
        callsTo h' (broadcastCalls w1) = callsTo h' (broadcastCalls w)).
Proof.
  intros w1. subst w1. simpl.
  split; [|split; [|split]].
  - unfold subscribe. simpl. rewrite set_add_present; [done|].
    apply elem_of_set_add_iff. by right.
  - by apply NoDup_set_add.
  - intros cc Hcc. split.
    + unfold broadcastCalls. simpl. rewrite Hcc, callsTo_map.
      apply NoDup_count_one; [by apply NoDup_set_add|].
      apply elem_of_set_add_iff. by right.
    + rewrite notifySubscribers_eq. unfold broadcastCalls. simpl. by rewrite Hcc.
  - intros h' Hne. unfold broadcastCalls. simpl.
    destruct (contentContainer w) as [cc|]; [|done].
    rewrite !callsTo_map. unfold set_add. case_bool_decide; [done|].
    rewrite filter_app, length_app, filter_cons, decide_False by congruence.
    simpl. lia.
Qed.

Lemma subscribe_twice_notifies_once_witness :
  let w := world_of (subscribe 7%nat (Scenario.mounted (Scenario.region true false) (fun _ => 0))) in
  callsTo 7%nat (broadcastCalls (world_of (subscribe 7%nat w))) = 1%nat.
Proof.
  intros w.
  assert (Hset : NoDup (_subscribers w)).
  { vm_compute. apply NoDup_singleton. }
  destruct (subscribe_twice_notifies_once w 7%nat Hset) as (_ & _ & Hcalls & _).
  apply (Hcalls Scenario.content eq_refl).
Defined.

(** After [unsubscribe] a broadcast never calls the handler again, and
    calls the others as before, in the same order. *)
Theorem unsubscribe_silences (w : World) (h : handler) :
  let w1 := world_of (unsubscribe h w) in
  callsTo h (broadcastCalls w1) = 0%nat
  /\ broadcastCalls w1 = filter (fun e => calledHandler e ≠ Some h) (broadcastCalls w)
  /\ trace (world_of (notifySubscribers w1)) = trace w ++ broadcastCalls w1.
Proof.
  intros w1. subst w1.
  assert (Hcalls : broadcastCalls (world_of (unsubscribe h w))
                   = filter (fun e => calledHandler e ≠ Some h) (broadcastCalls w)).
  { unfold broadcastCalls. simpl. destruct (contentContainer w) as [cc|]; [|done].
    unfold set_delete. induction (_subscribers w) as [|k l IH]; [done|].
    simpl. rewrite !filter_cons. simpl.
    destruct (decide (k ≠ h)) as [Hk|Hk].
    - rewrite (decide_True (P := k ≠ h)) by done.
      rewrite (decide_True (P := Some k ≠ Some h)) by (by intros [= ?]).
      simpl. by rewrite IH.
    - apply dec_stable in Hk. subst k.
      rewrite (decide_False (P := h ≠ h)) by (by intros ?).
      rewrite (decide_False (P := Some h ≠ Some h)) by (by intros ?).
      done. }
  split; [|split; [done|]].
  - rewrite Hcalls. unfold callsTo. apply length_zero_iff_nil.
    apply elem_of_nil_inv. intros e He.
    apply list_elem_of_filter in He as [He1 He].
    apply list_elem_of_filter in He as [He2 _]. done.
  - by rewrite notifySubscribers_eq.
Qed.

(** ** What the operations leave alone *)

Lemma placeIf_frame (capable : bool) (oc : option node) (c : node) (s : sid) (w : World) :
  exists d,
    world_of (placeIf capable oc c s w) = set_dom d w
    /\ (placeIf capable oc c s w = Return tt (set_dom d w)
        \/ exists e, placeIf capable oc c s w = Throw e (set_dom d w))
    /\ (forall c' y, oc ≠ Some y ->
          (y ∈ Dom.children d c' <-> y ∈ Dom.children (dom w) c')).
Proof.
  destruct (placeIf_cases capable oc c s w)
    as [[Hr _] | (x & -> & -> & [(e & _ & Hr) | (d & Hp & Hr)])]; rewrite Hr.
  - exists (dom w). rewrite set_dom_id. split; [done|]. split; [by left|done].
  - exists (dom w). rewrite set_dom_id. split; [done|]. split; [right; eauto|done].
  - exists d. split; [done|]. split; [by left|].
    intros c' y Hy. apply (placement_others _ _ _ _ _ c' y Hp). congruence.
Qed.

(** [sortSticky] changes nothing but the DOM, and in the DOM it moves
    nothing but the two representations of the region it is given: every
    other element keeps its parent.  This holds whether the call returns
    or ends in a DOM exception. *)
Theorem sortSticky_moves_only_its_representations (w : World) (sticky : sid) :
  let w' := world_of (sortSticky sticky w) in
  w' = set_dom (dom w') w
  /\ (forall c y,
        stickyContentTop (heap w sticky) ≠ Some y ->
        stickyContentBottom (heap w sticky) ≠ Some y ->
        (y ∈ Dom.children (dom w') c <-> y ∈ Dom.children (dom w) c)).
Proof.
  intros w'. subst w'. rewrite sortSticky_eq.
  destruct (stickyAbove w) as [a|]; [|simpl; by rewrite set_dom_id].
  destruct (stickyBelow w) as [b|]; [|simpl; by rewrite set_dom_id].
  unfold bind.
  destruct (placeIf_frame (canStickyTop (heap w sticky)) (stickyContentTop (heap w sticky))
              a sticky w) as (d1 & _ & [Hr1 | [e Hr1]] & Hk1); rewrite Hr1.
  2:{ simpl. split; [done|]. intros c y Ht _. by apply Hk1. }
  destruct (placeIf_frame (canStickyBottom (heap w sticky))
              (stickyContentBottom (heap w sticky)) b sticky (set_dom d1 w))
    as (d2 & _ & [Hr2 | [e Hr2]] & Hk2); rewrite Hr2; simpl.
  - split; [done|]. intros c y Ht Hb. rewrite Hk2 by done. by apply Hk1.
  - split; [done|]. intros c y Ht Hb. rewrite Hk2 by done. by apply Hk1.
Qed.

(** ** Heights and re-rendering *)

(** A height pass asks for a re-render exactly when one of the two totals
    differs from the height held before.  A second pass on the world the
    first one left asks for none, and the [componentDidUpdate] of an
    update with unchanged heights makes no broadcast. *)
Theorem height_pass_rerenders_on_change (w : World) (props : Props) :
  let w1 := world_of (updateStickyRefHeights w) in
  let w2 := world_of (updateStickyRefHeights w1) in
  shouldComponentUpdate props props (stateOf w) (stateOf w1)
  = negb (bool_decide (stickyTopHeight w = pinnedTopHeight w
                       /\ stickyBottomHeight w = pinnedBottomHeight w))
  /\ shouldComponentUpdate props props (stateOf w1) (stateOf w2) = false
  /\ stateOf w2 = stateOf w1
  /\ trace (world_of (componentDidUpdate props props (stateOf w1) w2)) = trace w2.
Proof.
  intros w1 w2.
  destruct (updateStickyRefHeights_frame w)
    as (_ & Ht1 & Hb1 & _ & _ & _ & _ & Hs1 & Hh1 & Ho1 & _). fold w1 in Ht1, Hb1, Hs1, Hh1, Ho1.
  destruct (updateStickyRefHeights_frame w1) as (_ & Ht2 & Hb2 & _). fold w2 in Ht2, Hb2.
  destruct (pinnedHeights_frame w w1 Hs1 Hh1 Ho1) as [Hpt Hpb].
  rewrite Hpt in Ht2. rewrite Hpb in Hb2.
  assert (Hstate : stateOf w2 = stateOf w1).
  { unfold stateOf. by rewrite Ht1, Hb1, Ht2, Hb2. }
  unfold shouldComponentUpdate. rewrite Hstate.
  repeat match goal with
         | |- context [bool_decide (?x = ?x)] =>
             rewrite (bool_decide_eq_true_2 (x = x)) by done
         end.
  cbn [negb orb].
  change (stateTopHeight (stateOf w)) with (stickyTopHeight w).
  change (stateBottomHeight (stateOf w)) with (stickyBottomHeight w).
  change (stateTopHeight (stateOf w1)) with (stickyTopHeight w1).
  change (stateBottomHeight (stateOf w1)) with (stickyBottomHeight w1).
  rewrite Ht1, Hb1.
  split; [|split; [done|split; [done|]]].
  - destruct (decide (stickyTopHeight w = pinnedTopHeight w)) as [Ht|Ht],
      (decide (stickyBottomHeight w = pinnedBottomHeight w)) as [Hb|Hb].
    + rewrite !bool_decide_eq_true_2 by done. done.
    + rewrite (bool_decide_eq_false_2 (_ /\ _)) by tauto.
      rewrite (bool_decide_eq_false_2 (stickyBottomHeight w = _)) by done.
      by rewrite orb_true_r.
    + rewrite (bool_decide_eq_false_2 (_ /\ _)) by tauto.
      by rewrite (bool_decide_eq_false_2 (stickyTopHeight w = _)) by done.
    + rewrite (bool_decide_eq_false_2 (_ /\ _)) by tauto.
      by rewrite (bool_decide_eq_false_2 (stickyTopHeight w = _)) by done.
  - unfold componentDidUpdate, withWorld.
    change (stateTopHeight (stateOf w1)) with (stickyTopHeight w1).
    change (stateBottomHeight (stateOf w1)) with (stickyBottomHeight w1).
    rewrite Ht1, Hb1, Ht2, Hb2.
    rewrite !(bool_decide_eq_true_2 (_ = _ :> Z)) by done. cbn [negb orb]. reflexivity.
Qed.

(** ** Sorting by distance *)

Section SortBy.

Variable key : sid -> Z.

Local Abbreviation leKey := (fun a b : sid => key a <= key b).

Lemma insert_sorted_perm (x : sid) (l : list sid) : insert_sorted key x l ≡ₚ x :: l.
Proof.
  induction l as [|y l IH]; simpl; [done|].
  destruct (key x <=? key y); [done|].
  rewrite IH. apply Permutation_swap.
Qed.

Lemma sort_by_perm (l : list sid) : sort_by key l ≡ₚ l.
Proof.
  induction l as [|x l IH]; simpl; [done|].
  fold (sort_by key l). rewrite insert_sorted_perm. by rewrite IH.
Qed.

Lemma insert_sorted_sorted (x : sid) (l : list sid) :
  StronglySorted leKey l -> StronglySorted leKey (insert_sorted key x l).
Proof.
  induction 1 as [|y l Hl IH Hy]; simpl.
  - repeat constructor.
  - destruct (key x <=? key y) eqn:E.
    + apply Z.leb_le in E. constructor; [by constructor|].
      constructor; [done|]. eapply Forall_impl; [exact Hy|]. simpl. intros z Hz. lia.
    + apply Z.leb_gt in E. constructor; [done|].
      assert (Hp : insert_sorted key x l ≡ₚ x :: l) by apply insert_sorted_perm.
      rewrite Hp. constructor; [lia|done].
Qed.

Lemma sort_by_sorted (l : list sid) : StronglySorted leKey (sort_by key l).
Proof.
  induction l as [|x l IH]; simpl; [constructor|].
  by apply insert_sorted_sorted.
Qed.

Lemma insert_sorted_first (x : sid) (l : list sid) :
  Forall (fun z => key x <= key z) l -> insert_sorted key x l = x :: l.
Proof.
  destruct l as [|y l]; [done|]. intros H. simpl.
  apply Forall_cons in H as [Hy _]. apply Z.leb_le in Hy. by rewrite Hy.
Qed.

Lemma StronglySorted_List_filter (R : relation sid) (f : sid -> bool) (l : list sid) :
  StronglySorted R l -> StronglySorted R (List.filter f l).
Proof.
  induction 1 as [|y l Hl IH Hy]; simpl; [constructor|].
  destruct (f y); [|done]. constructor; [done|].
  apply Forall_forall. intros z Hz. apply list_elem_of_In in Hz.
  apply List.filter_In in Hz as [Hz _]. apply list_elem_of_In in Hz.
  rewrite Forall_forall in Hy. by apply Hy.
Qed.

(** Filtering commutes with the stable sort. *)
Lemma filter_insert_sorted (f : sid -> bool) (x : sid) (l : list sid) :
  StronglySorted leKey l ->
  List.filter f (insert_sorted key x l)
  = if f x then insert_sorted key x (List.filter f l) else List.filter f l.
Proof.
  induction 1 as [|y l Hl IH Hy]; simpl.
  - by destruct (f x).
  - destruct (key x <=? key y) eqn:E; simpl.
    + destruct (f x) eqn:Ex; [|done].
      destruct (f y) eqn:Ey; simpl; [by rewrite E|].
      symmetry. apply insert_sorted_first.
      apply Forall_forall. intros z Hz. apply list_elem_of_In in Hz.
      apply List.filter_In in Hz as [Hz _]. apply list_elem_of_In in Hz.
      rewrite Forall_forall in Hy. specialize (Hy z Hz). simpl in Hy.
      apply Z.leb_le in E. lia.
    + rewrite IH. destruct (f y) eqn:Ey, (f x) eqn:Ex; simpl; try done.
      by rewrite E.
Qed.

Lemma filter_sort_by (f : sid -> bool) (l : list sid) :
  List.filter f (sort_by key l) = sort_by key (List.filter f l).
Proof.
  induction l as [|x l IH]; simpl; [done|].
  fold (sort_by key l). rewrite filter_insert_sorted by apply sort_by_sorted.
  rewrite IH. by destruct (f x).
Qed.

End SortBy.

Lemma List_filter_ext_in (f g : sid -> bool) (l : list sid) :
  (forall x, x ∈ l -> f x = g x) -> List.filter f l = List.filter g l.
Proof.
  intros H. apply List.filter_ext_in. intros x Hx. apply H. by apply list_elem_of_In.
Qed.

Lemma List_filter_true (f : sid -> bool) (l : list sid) :
  (forall x, x ∈ l -> f x = true) -> List.filter f l = l.
Proof.
  induction l as [|x l IH]; intros H; simpl; [done|].
  rewrite H by apply list_elem_of_here. f_equal. apply IH.
  intros y Hy. apply H. by apply list_elem_of_further.
Qed.

(** ** Concrete fresh panes *)


(** ** Worlds a fresh pane can reach *)

Section Reachable.

Variables (w0 : World) (content above below : node).
Hypothesis Hfresh : FreshPane w0 content above below.

Local Abbreviation container := (edgeNode above below).

Lemma isStickyAbove_edge (w : World) (e : Edge) :
  PaneInv w0 above below w ->
  isStickyAbove w (container e) = match e with Top => true | Bottom => false end.
Proof.
  intros Hinv. unfold isStickyAbove. rewrite (inv_above _ _ _ _ Hinv).
  destruct e; simpl.
  - by apply bool_decide_eq_true.
  - apply bool_decide_eq_false. intros [= H].
    by apply (fresh_containers _ _ _ _ Hfresh).
Qed.

Lemma stickyContentFor_edge (w : World) (e : Edge) (item : sid) :
  PaneInv w0 above below w ->
  stickyContentFor w (container e) item = representation e (heap w0 item).
Proof.
  intros Hinv. unfold stickyContentFor. rewrite (isStickyAbove_edge w e Hinv).
  destruct (inv_shape _ _ _ _ Hinv e item) as [_ Hr]. by destruct e.
Qed.

Lemma ownFlag_edge (w : World) (e : Edge) (item : sid) :
  PaneInv w0 above below w ->
  ownFlag w (container e) item = capable e (heap w0 item).
Proof.
  intros Hinv. unfold ownFlag. rewrite (isStickyAbove_edge w e Hinv).
  destruct (inv_shape _ _ _ _ Hinv e item) as [Hc _]. by destruct e.
Qed.

Lemma stickyList_all (w : World) (e : Edge) (s : sid) :
  PaneInv w0 above below w -> capable e (heap w0 s) = true ->
  stickyList w s (container e) = _stickies w.
Proof.
  intros Hinv Hcap. unfold stickyList. apply List_filter_true. intros x _.
  rewrite (isStickyAbove_edge w e Hinv).
  destruct (inv_shape _ _ _ _ Hinv Top s) as [Hct _].
  destruct (inv_shape _ _ _ _ Hinv Bottom s) as [Hcb _].
  simpl in Hct, Hcb. destruct e; simpl in *.
  - by rewrite Hct, Hcap.
  - by rewrite Hcb, Hcap.
Qed.

(** A registered region whose representation sits in a container is
    capable of that edge. *)
Lemma present_capable (w : World) (e : Edge) (item : sid) (x : node) :
  PaneInv w0 above below w -> representation e (heap w0 item) = Some x ->
  x ∈ Dom.children (dom w) (container e) -> capable e (heap w0 item) = true.
Proof.
  intros Hinv Hx Hin. destruct (inv_owned _ _ _ _ Hinv e x Hin) as (s' & Hs' & Hcap).
  by destruct (fresh_distinct _ _ _ _ Hfresh e e s' item x Hs' Hx) as [_ <-].
Qed.

Lemma List_filter_filter_implied (f g : sid -> bool) (l : list sid) :
  (forall x, f x = true -> g x = true) ->
  List.filter f (List.filter g l) = List.filter f l.
Proof.
  intros H. induction l as [|x l IH]; simpl; [done|].
  destruct (g x) eqn:Eg; simpl.
  - by rewrite IH.
  - rewrite IH. destruct (f x) eqn:Ef; [|done]. apply H in Ef. congruence.
Qed.

(** While capabilities stay what they were, the flag [_addToStickyContainer]
    reads from the region being placed does no harm: in every world of a
    history of a fresh pane the list the code builds for a capable region
    is the list of the registered regions that are themselves capable and
    already placed, ascending by [distanceFromTop]. *)
Theorem stickyListSorted_agrees_while_capabilities_are_fixed
    (ops : list Op) (e : Edge) (sticky : sid) :
  let w := run ops w0 in
  capable e (heap w sticky) = true ->
  stickyListSorted w sticky (container e) = candidateSiblings_spec w (container e).
Proof.
  intros w Hcap.
  destruct (run_fresh_inv w0 content above below Hfresh ops) as [Hinv _]. fold w in Hinv.
  destruct (inv_shape _ _ _ _ Hinv e sticky) as [Hc _]. rewrite Hc in Hcap.
  unfold stickyListSorted, candidateSiblings_spec.
  rewrite (stickyList_all w e sticky Hinv Hcap), filter_sort_by. f_equal.
  symmetry. apply List_filter_filter_implied. intros x Hx.
  rewrite (ownFlag_edge w e x Hinv).
  rewrite (stickyContentFor_edge w e x Hinv) in Hx.
  destruct (representation e (heap w0 x)) as [r|] eqn:Hr; [|done].
  apply mem_true in Hx. by eapply present_capable.
Qed.

End Reachable.

Lemma stickyListSorted_agrees_while_capabilities_are_fixed_witness :
  let w0 := Scenario.mounted (Scenario.region true false) Scenario.tieMeasure in
  let w := run [OpAddSticky 1%nat; OpAddSticky 2%nat] w0 in
  stickyListSorted w 3%nat Scenario.above = [1%nat; 2%nat]
  /\ candidateSiblings_spec w Scenario.above = [1%nat; 2%nat].
Proof.
  intros w0 w.
  pose proof (stickyListSorted_agrees_while_capabilities_are_fixed
                w0 _ _ _ (mounted_region_fresh true false Scenario.tieMeasure)
                [OpAddSticky 1%nat; OpAddSticky 2%nat] Top 3%nat eq_refl) as H.
  split; [|reflexivity]. exact H.
Defined.

(** ** Insertion and removal as list operations *)

Lemma put_before_split (x r : node) (l : list node) :
  r ∈ l ->
  exists l1 l2, l = l1 ++ r :: l2 /\ (r ∉ l1) /\ Dom.put_before x r l = l1 ++ x :: r :: l2.
Proof.
  induction l as [|y l IH]; intros Hr; [by apply elem_of_nil in Hr|].
  simpl. case_bool_decide as Hy.
  - subst y. exists [], l. split; [done|]. split; [apply not_elem_of_nil|done].
  - apply elem_of_cons in Hr as [->|Hr]; [done|].
    destruct (IH Hr) as (l1 & l2 & -> & Hn & ->).
    exists (y :: l1), l2. split; [done|]. split; [|done].
    apply not_elem_of_cons. split; [congruence|done].
Qed.

Lemma without_inserted (x : node) (l1 l2 : list node) :
  x ∉ l1 ++ l2 -> Dom.without x (l1 ++ x :: l2) = l1 ++ l2.
Proof.
  intros Hx. apply not_elem_of_app in Hx as [H1 H2]. unfold Dom.without.
  rewrite filter_app, filter_cons, decide_False by (by intros ?).
  fold (Dom.without x l1) (Dom.without x l2).
  by rewrite !without_absent.
Qed.

Lemma set_delete_set_add (x : nat) (l : list nat) :
  x ∉ l -> set_delete x (set_add x l) = l.
Proof.
  intros Hx. unfold set_add, set_delete. rewrite bool_decide_eq_false_2 by done.
  rewrite filter_app, filter_cons, decide_False by (by intros ?).
  rewrite filter_nil, app_nil_r.
  induction l as [|y l IH]; [done|].
  apply not_elem_of_cons in Hx as [Hy Hl].
  rewrite filter_cons, decide_True by congruence. by rewrite IH.
Qed.

Section Lists.

Variables (w0 : World) (content above below : node).
Hypothesis Hfresh : FreshPane w0 content above below.

Local Abbreviation container := (edgeNode above below).

Lemma targetContainer_empty (w : World) (s : sid) (c : node) :
  Dom.children (dom w) c = [] -> targetContainer w s c = None.
Proof.
  intros Hc. destruct (targetContainer w s c) as [r|] eqn:E; [|done].
  apply targetContainer_child in E. rewrite Hc in E. by apply elem_of_nil in E.
Qed.

(** Placing a representation that is not in its container yet: the DOM
    that results, spelled out. *)
Lemma placement_absent (w : World) (s : sid) (e : Edge) (x : node) :
  PaneInv w0 above below w -> representation e (heap w0 s) = Some x ->
  x ∉ Dom.children (dom w) (container e) ->
  placement w s (container e) x =
  inr (<[container e :=
           match targetContainer w s (container e) with
           | Some r => Dom.put_before x r (Dom.children (dom w) (container e))
           | None => Dom.children (dom w) (container e) ++ [x]
           end]> (Dom.detach x (dom w))).
Proof.
  intros Hinv Hx Hnot.
  pose proof (representation_outside w0 content above below Hfresh w e e s x Hinv Hx) as Hup.
  assert (Hdown : Dom.contains (dom w) (container e) x = false).
  { destruct (Dom.contains (dom w) (container e) x) eqn:E; [|done].
    destruct Hnot.
    by apply (container_contains w0 content above below Hfresh w e e s x). }
  unfold placement.
  destruct (Dom.children (dom w) (container e)) as [|k ks] eqn:Hc.
  - rewrite (targetContainer_empty w s _ Hc).
    unfold Dom.appendChild. by rewrite Hup, Hc.
  - rewrite Hdown. rewrite <- Hc in *.
    destruct (targetContainer w s (container e)) as [r|] eqn:Ht.
    + apply targetContainer_child in Ht.
      unfold Dom.insertBefore. rewrite Hup.
      assert (Hm : Dom.mem r (Dom.children (dom w) (container e)) = true)
        by (by apply mem_true).
      rewrite Hm. simpl.
      rewrite bool_decide_eq_false_2 by (intros ->; done).
      by rewrite without_absent.
    + unfold Dom.insertBefore, Dom.appendChild. rewrite Hup.
      by rewrite without_absent.
Qed.

(** The list a placement leaves in the container, and the lists it leaves
    in the other nodes. *)
Lemma placement_lists (w : World) (s : sid) (e : Edge) (x : node)
    (d' : gmap node (list node)) :
  PaneInv w0 above below w -> representation e (heap w0 s) = Some x ->
  x ∉ Dom.children (dom w) (container e) ->
  placement w s (container e) x = inr d' ->
  (exists l1 l2,
      Dom.children (dom w) (container e) = l1 ++ l2
      /\ Dom.children d' (container e) = l1 ++ x :: l2
      /\ (targetContainer w s (container e) = None -> l2 = [])
      /\ (forall r, targetContainer w s (container e) = Some r ->
            (r ∉ l1) /\ exists l2', l2 = r :: l2'))
  /\ (forall c, c ≠ container e ->
        Dom.children d' c = Dom.without x (Dom.children (dom w) c))
  /\ (forall e', e' ≠ e ->
        Dom.children d' (container e') = Dom.children (dom w) (container e')).
Proof.
  intros Hinv Hx Hnot Hp.
  rewrite (placement_absent w s e x Hinv Hx Hnot) in Hp. injection Hp as <-.
  assert (Hothers : forall c, c ≠ container e ->
            Dom.children (<[container e :=
                match targetContainer w s (container e) with
                | Some r => Dom.put_before x r (Dom.children (dom w) (container e))
                | None => Dom.children (dom w) (container e) ++ [x]
                end]> (Dom.detach x (dom w))) c
            = Dom.without x (Dom.children (dom w) c)).
  { intros c Hc. rewrite children_insert, decide_False by done. apply children_detach. }
  split; [|split; [exact Hothers|]].
  - rewrite children_insert, decide_True by done.
    destruct (targetContainer w s (container e)) as [r|] eqn:Ht.
    + apply targetContainer_child in Ht.
      destruct (put_before_split x r _ Ht) as (l1 & l2 & Hl & Hr & Hpb).
      exists l1, (r :: l2). split; [done|]. split; [done|]. split; [done|].
      intros r' [= <-]. split; [done|]. eauto.
    + exists (Dom.children (dom w) (container e)), [].
      rewrite app_nil_r. split; [done|]. split; [done|]. split; [done|]. done.
  - intros e' He'. rewrite Hothers.
    2:{ intros Heq. apply He'. by apply (edgeNode_inj w0 content above below Hfresh). }
    apply without_absent. intros Hin.
    destruct (inv_owned _ _ _ _ Hinv e' x Hin) as (s' & Hs' & _).
    destruct (fresh_distinct _ _ _ _ Hfresh e' e s' s x Hs' Hx) as [-> _]. done.
Qed.

(** One guarded placement of a region whose representation, if it has
    one for the edge, is not in the container yet. *)
Lemma placeIf_fresh_lists (w : World) (s : sid) (e : Edge) :
  PaneInv w0 above below w ->
  (forall x, representation e (heap w0 s) = Some x ->
     capable e (heap w0 s) = true /\ x ∉ Dom.children (dom w) (container e)) ->
  exists d',
    placeIf (capable e (heap w0 s)) (representation e (heap w0 s)) (container e) s w
    = Return tt (set_dom d' w)
    /\ PaneInv w0 above below (set_dom d' w)
    /\ (forall e', e' ≠ e ->
          Dom.children d' (container e') = Dom.children (dom w) (container e'))
    /\ (forall c y, representation e (heap w0 s) ≠ Some y ->
          (y ∈ Dom.children d' c <-> y ∈ Dom.children (dom w) c))
    /\ (forall c x, representation e (heap w0 s) = Some x -> c ≠ container e ->
          x ∉ Dom.children d' c)
    /\ match representation e (heap w0 s) with
       | Some x => exists l1 l2,
           Dom.children (dom w) (container e) = l1 ++ l2
           /\ Dom.children d' (container e) = l1 ++ x :: l2
       | None => Dom.children d' (container e) = Dom.children (dom w) (container e)
       end.
Proof.
  intros Hinv Hrep.
  destruct (representation e (heap w0 s)) as [x|] eqn:Hx.
  - destruct (Hrep x eq_refl) as [Hcap Hnot]. rewrite Hcap. simpl.
    assert (HP : Placed w0 above below [] w).
    { intros e' s' y Hs'. by apply elem_of_nil in Hs'. }
    destruct (placement_inv w0 content above below Hfresh [] w e s x Hinv HP Hcap Hx)
      as (d' & Hp & Hinv' & _).
    exists d'. rewrite _addToStickyContainer_eq, Hp.
    split; [done|]. split; [done|].
    destruct (placement_lists w s e x d' Hinv Hx Hnot Hp)
      as ((l1 & l2 & Hl & Hl' & _) & Hothers & Hedges).
    split; [done|]. split; [|split; [|eauto]].
    + intros c y Hy. apply (placement_others _ _ _ _ _ c y Hp). congruence.
    + intros c x' [= <-] Hc. rewrite Hothers by done. rewrite elem_of_without. tauto.
  - exists (dom w). rewrite set_dom_id.
    assert (Hskip : placeIf (capable e (heap w0 s)) None (container e) s w = Return tt w)
      by (unfold placeIf; by destruct (capable e (heap w0 s))).
    by rewrite Hskip.
Qed.

Lemma removeStep_lists (w : World) (s : sid) (e : Edge) :
  containerRef e w = Some (container e) ->
  match representation e (heap w s) with
  | Some x => x ∈ Dom.children (dom w) (container e)
  | None => True
  end ->
  exists d',
    removeStep e s w = Return tt (set_dom d' w)
    /\ (forall c, c ≠ container e -> Dom.children d' c = Dom.children (dom w) c)
    /\ Dom.children d' (container e)
       = match representation e (heap w s) with
         | Some x => Dom.without x (Dom.children (dom w) (container e))
         | None => Dom.children (dom w) (container e)
         end.
Proof.
  intros Hc Hin. destruct (representation e (heap w s)) as [x|] eqn:Hx.
  - rewrite (removeStep_present e s w (container e) x Hc Hx Hin).
    eexists. split; [done|]. split.
    + intros c Hne. by rewrite children_insert, decide_False.
    + by rewrite children_insert, decide_True.
  - exists (dom w). rewrite set_dom_id. split; [|done].
    unfold removeStep, withWorld. by rewrite Hc, Hx.
Qed.

(** Registering a region and unregistering it again restores the
    registry and the two containers.  In every world of a history of a
    fresh pane, whose regions are not nested in one another, for a region
    that is not registered, whose
    representations exist only for the edges it is capable of and are not
    in the containers: [addSticky] then [removeSticky] both return, the
    registry and the child lists of both containers are what they were,
    every element other than the representations of the region keeps its
    parent, and the representations of the region end up as children of
    no element. *)
Theorem addSticky_then_removeSticky_restores (ops : list Op) (s : sid) :
  let w := run ops w0 in
  s ∉ _stickies w ->
  (forall e x, representation e (heap w s) = Some x ->
     capable e (heap w s) = true /\ x ∉ pinnedChildren w (containerRef e w)) ->
  let added := addSticky s w in
  let removed := removeSticky s (world_of added) in
  returns added = true
  /\ returns removed = true
  /\ s ∈ _stickies (world_of added)
  /\ _stickies (world_of removed) = _stickies w
  /\ (forall e, Dom.children (dom (world_of removed)) (container e)
                = Dom.children (dom w) (container e))
  /\ (forall c y, (forall e, representation e (heap w s) ≠ Some y) ->
        (y ∈ Dom.children (dom (world_of removed)) c <-> y ∈ Dom.children (dom w) c))
  /\ (forall e x c, representation e (heap w s) = Some x ->
        x ∉ Dom.children (dom (world_of removed)) c).
Proof.
  intros w Hs Hrep added removed.
  destruct (run_fresh_inv w0 content above below Hfresh ops) as [Hinv _]. fold w in Hinv.
  pose proof (fresh_containers _ _ _ _ Hfresh) as Hab.
  assert (Hrep0 : forall e x, representation e (heap w0 s) = Some x ->
            capable e (heap w0 s) = true /\ x ∉ Dom.children (dom w) (container e)).
  { intros e x Hx. destruct (inv_shape _ _ _ _ Hinv e s) as [Hc Hr].
    rewrite <- Hr in Hx. destruct (Hrep e x Hx) as [Hcap Hnot].
    rewrite Hc in Hcap. split; [done|].
    destruct e; simpl in Hnot.
    - by rewrite (inv_above _ _ _ _ Hinv) in Hnot.
    - by rewrite (inv_below _ _ _ _ Hinv) in Hnot. }
  assert (Hshape : forall e, representation e (heap w s) = representation e (heap w0 s)).
  { intros e. by destruct (inv_shape _ _ _ _ Hinv e s). }
  subst removed added. rewrite addSticky_eq.
  rewrite (inv_content _ _ _ _ Hinv), (fresh_content _ _ _ _ Hfresh).
  set (w1 := set_heap _ _).
  assert (Hinv1 : PaneInv w0 above below w1).
  { apply (PaneInv_transport w0 above below w); try done. by apply shapeOf_update_heap. }
  destruct (inv_shape _ _ _ _ Hinv1 Top s) as [Hct Hrt].
  destruct (inv_shape _ _ _ _ Hinv1 Bottom s) as [Hcb Hrb].
  cbn [representation capable] in Hct, Hrt, Hcb, Hrb.
  unfold bind.
  rewrite (sortSticky_on w1 w1 s above below eq_refl
             (inv_above _ _ _ _ Hinv1) (inv_below _ _ _ _ Hinv1)).
  rewrite Hct, Hrt, Hcb, Hrb.
  destruct (placeIf_fresh_lists w1 s Top Hinv1 (Hrep0 Top))
    as (d1 & Hr1 & Hinv2 & Ho1 & Hk1 & Hx1 & Hl1).
  assert (Hrepb : forall x, representation Bottom (heap w0 s) = Some x ->
            capable Bottom (heap w0 s) = true
            /\ x ∉ Dom.children (dom (set_dom d1 w1)) (container Bottom)).
  { intros x Hx. destruct (Hrep0 Bottom x Hx) as [Hcap Hnot]. split; [done|].
    change (x ∉ Dom.children d1 (container Bottom)).
    rewrite (Ho1 Bottom) by done. done. }
  destruct (placeIf_fresh_lists (set_dom d1 w1) s Bottom Hinv2 Hrepb)
    as (d2 & Hr2 & Hinv3 & Ho2 & Hk2 & Hx2 & Hl2).
  cbn [representation capable edgeNode dom set_dom] in Hr1, Hr2, Ho1, Ho2, Hl1, Hl2,
    Hk1, Hk2, Hx1, Hx2.
  change (dom w1) with (dom w) in Ho1, Hk1, Hl1.
  assert (Ho2t : Dom.children d2 above = Dom.children d1 above)
    by exact (Ho2 Top ltac:(done)).
  assert (Ho1b : Dom.children d1 below = Dom.children (dom w) below)
    by exact (Ho1 Bottom ltac:(done)).
  unfold bind. rewrite Hr1, Hr2, notifySubscribers_eq.
  cbn [world_of returns].
  set (w2 := set_trace _ _).
  rewrite removeSticky_eq. unfold bind.
  set (w3 := set_stickies _ w2).
  assert (Ha3 : containerRef Top w3 = Some above) by apply (inv_above _ _ _ _ Hinv).
  assert (Hb3 : containerRef Bottom w3 = Some below) by apply (inv_below _ _ _ _ Hinv).
  assert (Hin3 : match representation Top (heap w3 s) with
                 | Some x => x ∈ Dom.children (dom w3) (container Top)
                 | None => True
                 end).
  { change (representation Top (heap w3 s)) with (stickyContentTop (heap w1 s)).
    rewrite Hrt. cbn [edgeNode]. change (dom w3) with d2.
    destruct (stickyContentTop (heap w0 s)) as [x|]; [|done].
    rewrite Ho2t. destruct Hl1 as (l1 & l2 & _ & ->).
    apply elem_of_app. right. apply list_elem_of_here. }
  destruct (removeStep_lists w3 s Top Ha3 Hin3) as (d3 & Hr3 & Ho3 & Hl3).
  assert (Hin4 : match representation Bottom (heap (set_dom d3 w3) s) with
                 | Some x => x ∈ Dom.children (dom (set_dom d3 w3)) (container Bottom)
                 | None => True
                 end).
  { change (representation Bottom (heap (set_dom d3 w3) s))
      with (stickyContentBottom (heap w1 s)).
    rewrite Hrb. cbn [edgeNode dom set_dom].
    destruct (stickyContentBottom (heap w0 s)) as [x|]; [|done].
    rewrite Ho3 by (cbn [edgeNode]; congruence). change (dom w3) with d2.
    destruct Hl2 as (l1 & l2 & _ & ->).
    apply elem_of_app. right. apply list_elem_of_here. }
  destruct (removeStep_lists (set_dom d3 w3) s Bottom Hb3 Hin4) as (d4 & Hr4 & Ho4 & Hl4).
  rewrite Hr3, Hr4, notifySubscribers_eq.
  cbn [world_of returns].
  change (representation Top (heap w3 s)) with (stickyContentTop (heap w1 s)) in Hl3.
  change (representation Bottom (heap (set_dom d3 w3) s))
    with (stickyContentBottom (heap w1 s)) in Hl4.
  rewrite Hrt in Hl3. rewrite Hrb in Hl4.
  cbn [edgeNode dom set_dom] in Hl3, Hl4, Ho3, Ho4.
  change (dom w3) with d2 in Hl3, Ho3.
  cbn [dom set_trace set_dom].
  (* the child lists of the last DOM, from those of the DOM the
     placements left *)
  assert (Hd4 : forall c, Dom.children d4 c =
            if decide (c = below)
            then match stickyContentBottom (heap w0 s) with
                 | Some x => Dom.without x (Dom.children d2 below)
                 | None => Dom.children d2 below
                 end
            else if decide (c = above)
                 then match stickyContentTop (heap w0 s) with
                      | Some x => Dom.without x (Dom.children d2 above)
                      | None => Dom.children d2 above
                      end
                 else Dom.children d2 c).
  { intros c. destruct (decide (c = below)) as [->|Hcb'].
    - rewrite Hl4. by rewrite Ho3 by congruence.
    - rewrite Ho4 by done. destruct (decide (c = above)) as [->|Hca']; [done|].
      by apply Ho3. }
  split; [done|]. split; [done|]. split.
  { simpl. apply elem_of_set_add_iff. by right. }
  split.
  { simpl. by apply set_delete_set_add. }
  split; [|split].
  - intros e. rewrite Hd4. destruct e; cbn [edgeNode].
    + rewrite decide_False, decide_True by done. rewrite Ho2t.
      destruct (stickyContentTop (heap w0 s)) as [x|] eqn:Hx; [|done].
      destruct Hl1 as (l1 & l2 & Hl & ->).
      rewrite without_inserted; [done|].
      rewrite <- Hl. by destruct (Hrep0 Top x Hx).
    + rewrite decide_True by done.
      destruct (stickyContentBottom (heap w0 s)) as [x|] eqn:Hx.
      * destruct Hl2 as (l1 & l2 & Hl & ->).
        rewrite without_inserted.
        -- by rewrite <- Hl.
        -- rewrite <- Hl, Ho1b.
           by destruct (Hrep0 Bottom x Hx).
      * by rewrite Hl2.
  - intros c y Hy.
    assert (Hyt : stickyContentTop (heap w0 s) ≠ Some y).
    { intros Hy'. apply (Hy Top). by rewrite Hshape. }
    assert (Hyb : stickyContentBottom (heap w0 s) ≠ Some y).
    { intros Hy'. apply (Hy Bottom). by rewrite Hshape. }
    rewrite <- (Hk1 c y Hyt), <- (Hk2 c y Hyb), Hd4.
    destruct (decide (c = below)) as [->|_].
    + destruct (stickyContentBottom (heap w0 s)) as [x|]; [|done].
      rewrite elem_of_without. split; [tauto|]. intros ?. split; [done|congruence].
    + destruct (decide (c = above)) as [->|_]; [|done].
      destruct (stickyContentTop (heap w0 s)) as [x|]; [|done].
      rewrite elem_of_without. split; [tauto|]. intros ?. split; [done|congruence].
  - intros e x c Hx. rewrite Hshape in Hx. rewrite Hd4.
    assert (Hd2 : x ∈ Dom.children d2 c -> c = container e).
    { intros Hin. destruct (decide (c = container e)) as [|Hne]; [done|]. exfalso.
      destruct e; cbn [representation edgeNode] in Hx, Hne.
      - assert (Hxb : stickyContentBottom (heap w0 s) ≠ Some x).
        { intros Hb'. by destruct (fresh_distinct _ _ _ _ Hfresh Top Bottom s s x Hx Hb'). }
        apply (Hk2 c x Hxb) in Hin. by apply (Hx1 c x Hx Hne).
      - by apply (Hx2 c x Hx Hne). }
    destruct (decide (c = below)) as [->|Hcb'].
    + destruct e; cbn [representation] in Hx.
      * intros Hin.
        assert (Hin' : x ∈ Dom.children d2 below).
        { destruct (stickyContentBottom (heap w0 s)); [|done].
          by apply elem_of_without in Hin as [? _]. }
        apply Hd2 in Hin'. cbn [edgeNode] in Hin'. congruence.
      * rewrite Hx, elem_of_without. tauto.
    + destruct (decide (c = above)) as [->|Hca'].
      * destruct e; cbn [representation] in Hx.
        -- rewrite Hx, elem_of_without. tauto.
        -- intros Hin.
           assert (Hin' : x ∈ Dom.children d2 above).
           { destruct (stickyContentTop (heap w0 s)); [|done].
             by apply elem_of_without in Hin as [? _]. }
           apply Hd2 in Hin'. cbn [edgeNode] in Hin'. congruence.
      * intros Hin. apply Hd2 in Hin. destruct e; cbn [edgeNode] in Hin; congruence.
Qed.

(** Unregistering a registered region never throws when its
    representations exist only for the edges it is capable of and the
    regions of the pane are not nested in one another: in every world of
    a history of a fresh pane, height passes with their content moves
    included, [removeSticky] returns, the region is out of the registry,
    its representations are out of both containers, and every other
    element keeps its parent. *)
Theorem removeSticky_of_registered_returns (ops : list Op) (s : sid) :
  let w := run ops w0 in
  s ∈ _stickies w ->
  (forall e x, representation e (heap w s) = Some x -> capable e (heap w s) = true) ->
  let removed := removeSticky s w in
  returns removed = true
  /\ (s ∉ _stickies (world_of removed))
  /\ (forall e x, representation e (heap w s) = Some x ->
        x ∉ pinnedChildren (world_of removed) (containerRef e (world_of removed)))
  /\ (forall c y, (forall e, representation e (heap w s) ≠ Some y) ->
        (y ∈ Dom.children (dom (world_of removed)) c <-> y ∈ Dom.children (dom w) c)).
Proof.
  intros w Hs Hbuilt removed.
  destruct (run_fresh_inv w0 content above below Hfresh ops) as [Hinv HP].
  fold w in Hinv, HP.
  pose proof (fresh_containers _ _ _ _ Hfresh) as Hab.
  destruct (inv_shape _ _ _ _ Hinv Top s) as [Hct Hrt].
  destruct (inv_shape _ _ _ _ Hinv Bottom s) as [Hcb Hrb].
  assert (Hplaced : forall e x, representation e (heap w s) = Some x ->
            x ∈ Dom.children (dom w) (container e)).
  { intros e x Hx. destruct (inv_shape _ _ _ _ Hinv e s) as [Hc Hr].
    apply (HP e s x); [done| |by rewrite <- Hr].
    rewrite <- Hc. by apply (Hbuilt e x). }
  subst removed. rewrite removeSticky_eq. unfold bind.
  set (w1 := set_stickies _ w).
  assert (Ha1 : containerRef Top w1 = Some above) by apply (inv_above _ _ _ _ Hinv).
  assert (Hb1 : containerRef Bottom w1 = Some below) by apply (inv_below _ _ _ _ Hinv).
  assert (Hin1 : match representation Top (heap w1 s) with
                 | Some x => x ∈ Dom.children (dom w1) (container Top)
                 | None => True
                 end).
  { change (heap w1 s) with (heap w s). change (dom w1) with (dom w).
    destruct (representation Top (heap w s)) as [x|] eqn:Hx; [|done]. by apply Hplaced. }
  destruct (removeStep_lists w1 s Top Ha1 Hin1) as (d1 & Hr1 & Ho1 & Hl1).
  assert (Hin2 : match representation Bottom (heap (set_dom d1 w1) s) with
                 | Some x => x ∈ Dom.children (dom (set_dom d1 w1)) (container Bottom)
                 | None => True
                 end).
  { change (heap (set_dom d1 w1) s) with (heap w s). cbn [dom set_dom].
    destruct (representation Bottom (heap w s)) as [x|] eqn:Hx; [|done].
    rewrite Ho1 by (cbn [edgeNode]; congruence). by apply Hplaced. }
  destruct (removeStep_lists (set_dom d1 w1) s Bottom Hb1 Hin2) as (d2 & Hr2 & Ho2 & Hl2).
  rewrite Hr1, Hr2, notifySubscribers_eq. cbn [world_of returns].
  change (heap w1 s) with (heap w s) in Hl1.
  change (heap (set_dom d1 w1) s) with (heap w s) in Hl2.
  change (dom w1) with (dom w) in Hl1, Ho1.
  cbn [dom set_dom edgeNode] in Hl1, Hl2, Ho1, Ho2.
  assert (Hkids : forall c y, y ∈ Dom.children d2 c <->
            y ∈ Dom.children (dom w) c
            /\ (c = above -> representation Top (heap w s) ≠ Some y)
            /\ (c = below -> representation Bottom (heap w s) ≠ Some y)).
  { intros c y. destruct (decide (c = below)) as [->|Hcb'].
    - rewrite Hl2, Ho1 by congruence.
      destruct (representation Bottom (heap w s)) as [x|].
      + rewrite elem_of_without. split.
        * intros [Hy Hne]. split; [done|]. split; [congruence|]. intros _ [= ->]. done.
        * intros (Hy & _ & Hne). split; [done|]. intros ->. by apply Hne.
      + split; [|tauto]. intros Hy. split; [done|]. split; [congruence|done].
    - rewrite Ho2 by done. destruct (decide (c = above)) as [->|Hca'].
      + rewrite Hl1. destruct (representation Top (heap w s)) as [x|].
        * rewrite elem_of_without. split.
          -- intros [Hy Hne]. split; [done|]. split; [|congruence]. intros _ [= ->]. done.
          -- intros (Hy & Hne & _). split; [done|]. intros ->. by apply Hne.
        * split; [|tauto]. intros Hy. split; [done|]. split; [done|congruence].
      + rewrite Ho1 by done. split; [|tauto]. intros Hy. split; [done|].
        split; congruence. }
  split; [done|]. split.
  { simpl. rewrite elem_of_set_delete. tauto. }
  split.
  - intros e x Hx Hin. destruct e; simpl in Hin.
    + rewrite (inv_above _ _ _ _ Hinv) in Hin. simpl in Hin.
      apply Hkids in Hin as (_ & Hne & _). by apply Hne.
    + rewrite (inv_below _ _ _ _ Hinv) in Hin. simpl in Hin.
      apply Hkids in Hin as (_ & _ & Hne). by apply Hne.
  - intros c y Hy. simpl. rewrite Hkids. split; [tauto|].
    intros Hin. split; [done|]. split; intros _; apply Hy.
Qed.

End Lists.

Lemma addSticky_then_removeSticky_restores_witness :
  let w0 := Rendered.mounted (Scenario.region true true) Scenario.tieMeasure in
  let w := run [OpAddSticky 1%nat; OpAddSticky 2%nat] w0 in
  let w' := world_of (removeSticky 3%nat (world_of (addSticky 3%nat w))) in
  pinnedChildren (world_of (addSticky 3%nat w)) (stickyAbove w)
  = [Scenario.topOf 2%nat; Scenario.topOf 3%nat; Scenario.topOf 1%nat]
  /\ Dom.children (dom w') Scenario.above = [Scenario.topOf 2%nat; Scenario.topOf 1%nat]
  /\ Dom.children (dom w') (Scenario.rootOf 3%nat) = [Scenario.placeholderOf 3%nat]
  /\ _stickies w' = [1%nat; 2%nat].
Proof.
  intros w0 w w'.
  assert (Hs : 3%nat ∉ _stickies w).
  { intros Hin. apply list_elem_of_In in Hin. vm_compute in Hin. intuition discriminate. }
  assert (Hrep : forall e x, representation e (heap w 3%nat) = Some x ->
            capable e (heap w 3%nat) = true /\ x ∉ pinnedChildren w (containerRef e w)).
  { intros [] x [= <-]; (split; [reflexivity|]); intros Hin;
      apply list_elem_of_In in Hin; vm_compute in Hin; intuition discriminate. }
  destruct (addSticky_then_removeSticky_restores w0 _ _ _
              (rendered_region_fresh true true Scenario.tieMeasure)
              [OpAddSticky 1%nat; OpAddSticky 2%nat] 3%nat Hs Hrep)
    as (_ & _ & _ & Hreg & Hkids & _).
  split; [vm_compute; reflexivity|]. split; [|split; [vm_compute; reflexivity|exact Hreg]].
  exact (eq_trans (Hkids Top) ltac:(vm_compute; reflexivity)).
Defined.

Lemma removeSticky_of_registered_returns_witness :
  let w0 := Rendered.mounted (Scenario.region true true) Scenario.tieMeasure in
  let w := run [OpAddSticky 1%nat; OpAddSticky 2%nat] w0 in
  returns (removeSticky 1%nat w) = true
  /\ pinnedChildren (world_of (removeSticky 1%nat w)) (stickyAbove w) = [Scenario.topOf 2%nat].
Proof.
  intros w0 w.
  assert (Hs : 1%nat ∈ _stickies w) by (vm_compute; apply list_elem_of_here).
  assert (Hbuilt : forall e x, representation e (heap w 1%nat) = Some x ->
            capable e (heap w 1%nat) = true).
  { intros [] x _; reflexivity. }
  destruct (removeSticky_of_registered_returns w0 _ _ _
              (rendered_region_fresh true true Scenario.tieMeasure)
              [OpAddSticky 1%nat; OpAddSticky 2%nat] 1%nat Hs Hbuilt) as (Hret & _).
  split; [exact Hret | reflexivity].
Defined.

(** ** Ordered lists *)

Lemma StronglySorted_weaken_in {A} (R R' : relation A) (l : list A) :
  StronglySorted R l ->
  (forall a b, a ∈ l -> b ∈ l -> R a b -> R' a b) ->
  StronglySorted R' l.
Proof.
  induction 1 as [|x l Hl IH Hx]; intros Himp; [constructor|].
  constructor.
  - apply IH. intros a b Ha Hb. apply Himp; by apply list_elem_of_further.
  - apply Forall_forall. intros y Hy. rewrite Forall_forall in Hx.
    apply Himp; [apply list_elem_of_here|by apply list_elem_of_further|by apply Hx].
Qed.

Lemma StronglySorted_irrefl_NoDup {A} (R : relation A) (l : list A) :
  (forall a, ~ R a a) -> StronglySorted R l -> NoDup l.
Proof.
  intros Hirr. induction 1 as [|x l Hl IH Hx]; [apply NoDup_nil_2|].
  apply NoDup_cons. split; [|done].
  intros Hin. rewrite Forall_forall in Hx. by apply (Hirr x), Hx.
Qed.

Lemma find_prefix_fails {A} (f : A -> bool) (t : A) (l1 l2 : list A) :
  t ∉ l1 -> List.find f (l1 ++ t :: l2) = Some t -> Forall (fun a => f a = false) l1.
Proof.
  induction l1 as [|a l1 IH]; intros Ht Hf; [constructor|].
  apply not_elem_of_cons in Ht as [Hne Ht]. simpl in Hf.
  destruct (f a) eqn:Ea; [congruence|].
  constructor; [done|]. by apply IH.
Qed.

Lemma find_none_all {A} (f : A -> bool) (l : list A) :
  List.find f l = None -> Forall (fun a => f a = false) l.
Proof.
  induction l as [|a l IH]; intros Hf; [constructor|].
  simpl in Hf. destruct (f a) eqn:Ea; [done|]. constructor; [done|]. by apply IH.
Qed.



Lemma NoDup_List_filter {A} (f : A -> bool) (l : list A) :
  NoDup l -> NoDup (List.filter f l).
Proof.
  induction 1 as [|x l Hx Hl IH]; simpl; [apply NoDup_nil_2|].
  destruct (f x); [|done]. apply NoDup_cons. split; [|done].
  intros Hin. apply list_elem_of_In, List.filter_In in Hin as [Hin _].
  by apply list_elem_of_In in Hin.
Qed.


(** ** The order of the containers *)

Section Ordering.

Variables (w0 : World) (content above below : node).
Hypothesis Hfresh : FreshPane w0 content above below.
Hypothesis Hties : forall s s',
  offsetFromContentTop w0 s = offsetFromContentTop w0 s' -> s = s'.
Hypothesis Hbuilt : forall e s x,
  representation e (heap w0 s) = Some x -> capable e (heap w0 s) = true.

Local Abbreviation container := (edgeNode above below).

Lemma repNode_eq (e : Edge) (s : sid) (x : node) :
  representation e (heap w0 s) = Some x -> repNode w0 e s = x.
Proof. intros H. unfold repNode. by rewrite H. Qed.

Lemma listed_child_iff (w : World) (e : Edge) (L : list sid) (item : sid) (r : node) :
  Listed w0 above below w e L -> representation e (heap w0 item) = Some r ->
  (r ∈ Dom.children (dom w) (container e) <-> item ∈ L).
Proof.
  intros [Hkids Hmem] Hr. rewrite Hkids. split.
  - intros Hin. apply list_elem_of_fmap in Hin as (s' & -> & Hs').
    destruct (Hmem s' Hs') as [_ Hrep].
    by destruct (fresh_distinct _ _ _ _ Hfresh e e s' item _ Hrep Hr) as [_ <-].
  - intros Hin. apply list_elem_of_fmap. exists item. split; [|done].
    symmetry. by apply repNode_eq.
Qed.

(** In an ordered world the list the code builds for a capable region is
    the list of the owners of the children, in the order of the
    children. *)
Lemma stickyListSorted_listed (w : World) (e : Edge) (s : sid) (L : list sid) :
  PaneInv w0 above below w -> OrderInv w0 above below w ->
  Listed w0 above below w e L -> StronglySorted (byOffset w0) L ->
  capable e (heap w0 s) = true ->
  stickyListSorted w s (container e) = L.
Proof.
  intros Hinv Hord HL Hsorted Hcap.
  unfold stickyListSorted.
  rewrite (stickyList_all w0 content above below Hfresh w e s Hinv Hcap).
  set (f := fun item : sid =>
              match stickyContentFor w (container e) item with
              | Some stickyContent =>
                  Dom.mem stickyContent (Dom.children (dom w) (container e))
              | None => false
              end).
  assert (Hf : forall item, item ∈ List.filter f (sort_by (distanceOf w) (_stickies w))
                            <-> item ∈ L).
  { intros item. rewrite list_elem_of_In, List.filter_In, <- list_elem_of_In.
    rewrite (sort_by_perm (distanceOf w) (_stickies w)).
    subst f. simpl. rewrite (stickyContentFor_edge w0 content above below Hfresh w e item Hinv).
    split.
    - intros [_ Hm]. destruct (representation e (heap w0 item)) as [r|] eqn:Hr; [|done].
      apply mem_true in Hm. by apply (listed_child_iff w e L item r HL Hr).
    - intros Hin. destruct HL as [Hkids Hmem]. destruct (Hmem item Hin) as [Hreg Hrep].
      split; [done|]. rewrite Hrep. apply mem_true.
      by apply (listed_child_iff w e L item _ (conj Hkids Hmem) Hrep). }
  assert (Hdist : forall a, a ∈ L -> distanceOf w a = offsetFromContentTop w0 a).
  { intros a Ha. destruct HL as [_ Hmem]. destruct (Hmem a Ha) as [Hreg _].
    by apply (ord_distance _ _ _ _ Hord). }
  apply (StronglySorted_unique_strong (fun a b => distanceOf w a <= distanceOf w b)).
  - intros x1 x2 Hx1 Hx2 H12 H21. apply Hf in Hx1.
    rewrite !Hdist in H12, H21 by done. apply Hties. lia.
  - apply StronglySorted_List_filter. apply sort_by_sorted.
  - apply (StronglySorted_weaken_in (byOffset w0)); [done|].
    intros a b Ha Hb Hab. rewrite !Hdist by done. unfold byOffset in Hab. lia.
  - apply NoDup_Permutation; [| |done].
    + apply NoDup_List_filter. rewrite (sort_by_perm (distanceOf w) (_stickies w)).
      apply (ord_registry _ _ _ _ Hord).
    + apply (StronglySorted_irrefl_NoDup (byOffset w0)); [|done].
      intros a. unfold byOffset. lia.
Qed.

Lemma OrderInv_transport (w w' : World) :
  OrderInv w0 above below w ->
  offsetFromContentTop w' = offsetFromContentTop w -> _stickies w' = _stickies w ->
  (forall e, Dom.children (dom w') (container e) = Dom.children (dom w) (container e)) ->
  (forall s, distanceFromTop (heap w' s) = distanceFromTop (heap w s)) ->
  OrderInv w0 above below w'.
Proof.
  intros [] Hl Hs Hd Hh. constructor; rewrite ?Hl, ?Hs; try done.
  - intros s Hin. rewrite Hh. by apply ord_distance0.
  - intros e. destruct (ord_listed0 e) as (L & [Hk Hm] & Hsorted).
    exists L. split; [|done]. split; [by rewrite Hd|]. intros s Hin. rewrite Hs. by apply Hm.
Qed.

(** Inserting where the scan says keeps the container ordered. *)
Lemma placement_ord (w : World) (e : Edge) (s : sid) (x : node) (L : list sid)
    (d' : gmap node (list node)) :
  PaneInv w0 above below w -> OrderInv w0 above below w ->
  Listed w0 above below w e L -> StronglySorted (byOffset w0) L ->
  s ∈ _stickies w -> representation e (heap w0 s) = Some x ->
  x ∉ Dom.children (dom w) (container e) ->
  placement w s (container e) x = inr d' ->
  exists L', Listed w0 above below (set_dom d' w) e L' /\ StronglySorted (byOffset w0) L'.
Proof.
  intros Hinv Hord HL Hsorted Hreg Hx Hnot Hp.
  pose proof (Hbuilt e s x Hx) as Hcap.
  destruct (placement_lists w0 content above below Hfresh w s e x d' Hinv Hx Hnot Hp)
    as ((l1 & l2 & Hsplit & Hnew & Hnone & Hsome) & _ & _).
  assert (HsL : s ∉ L).
  { intros Hin. apply Hnot. by apply (listed_child_iff w e L s x HL Hx). }
  pose proof (stickyListSorted_listed w e s L Hinv Hord HL Hsorted Hcap) as Hcand.
  assert (Hdist : forall a, a ∈ L -> distanceOf w a = offsetFromContentTop w0 a).
  { intros a Ha. destruct HL as [_ Hmem]. destruct (Hmem a Ha) as [Ha' _].
    by apply (ord_distance _ _ _ _ Hord). }
  assert (Hds : distanceOf w s = offsetFromContentTop w0 s)
    by (by apply (ord_distance _ _ _ _ Hord)).
  pose proof (repNode_eq e s x Hx) as Hrs.
  destruct HL as [Hkids Hmem].
  unfold targetContainer, targetStickyToAppendBefore in Hnone, Hsome.
  rewrite Hcand in Hnone, Hsome.
  destruct (List.find _ L) as [t|] eqn:Hfind.
  - pose proof (List.find_some _ _ Hfind) as [HtL Hft].
    apply list_elem_of_In in HtL. apply Z.leb_le in Hft.
    destruct (Hmem t HtL) as [_ Hrt].
    rewrite (stickyContentFor_edge w0 content above below Hfresh w e t Hinv) in Hsome.
    destruct (Hsome _ Hrt) as [Hr1 [l2' ->]].
    rewrite Hsplit in Hkids. symmetry in Hkids.
    apply fmap_app_inv in Hkids as (La & Lb & Hl1 & Hl2 & ->).
    destruct Lb as [|t' Lb']; [done|]. rewrite fmap_cons in Hl2.
    injection Hl2 as Ht' Hl2'.
    assert (t' = t) as ->.
    { assert (Ht'L : t' ∈ La ++ t' :: Lb')
        by (apply elem_of_app; right; apply list_elem_of_here).
      destruct (Hmem t' Ht'L) as [_ Hrt'].
      rewrite <- Ht' in Hrt'.
      by destruct (fresh_distinct _ _ _ _ Hfresh e e t' t _ Hrt' Hrt). }
    assert (HtLa : t ∉ La).
    { intros Hin. apply Hr1. rewrite Hl1. apply list_elem_of_fmap. eauto. }
    pose proof (find_prefix_fails _ t La Lb' HtLa Hfind) as Hprefix.
    exists (La ++ s :: t :: Lb'). split.
    + split.
      * cbn [dom set_dom]. rewrite Hnew, Hl1, Hl2', fmap_app, !fmap_cons.
        by rewrite Hrs.
      * intros a Ha. cbn [_stickies set_dom].
        apply elem_of_app in Ha as [Ha|Ha].
        { apply Hmem. apply elem_of_app. by left. }
        apply elem_of_cons in Ha as [->|Ha]; [by rewrite Hrs|].
        apply Hmem. apply elem_of_app. by right.
    + apply StronglySorted_app in Hsorted as (Hcross & HLa & HLb).
      apply StronglySorted_app_2; [|done|].
      * intros a b Ha Hb. apply elem_of_cons in Hb as [->|Hb]; [|by apply Hcross].
        rewrite Forall_forall in Hprefix. specialize (Hprefix a Ha).
        apply Z.leb_gt in Hprefix.
        rewrite Hds, Hdist in Hprefix by (apply elem_of_app; by left).
        unfold byOffset. lia.
      * assert (Hst : byOffset w0 s t).
        { rewrite Hds, Hdist in Hft by done. unfold byOffset.
          assert (offsetFromContentTop w0 s ≠ offsetFromContentTop w0 t).
          { intros Heq. apply Hties in Heq. by subst t. }
          lia. }
        constructor; [done|]. constructor; [done|].
        apply StronglySorted_cons in HLb as [Ht _].
        eapply Forall_impl; [exact Ht|]. intros b Hb. unfold byOffset in *. lia.
  - rewrite (Hnone eq_refl) in Hsplit, Hnew. rewrite app_nil_r in Hsplit.
    pose proof (find_none_all _ _ Hfind) as Hall.
    exists (L ++ [s]). split.
    + split.
      * cbn [dom set_dom]. rewrite Hnew, <- Hsplit, Hkids, fmap_app. simpl. by rewrite Hrs.
      * intros a Ha. cbn [_stickies set_dom].
        apply elem_of_app in Ha as [Ha|Ha]; [by apply Hmem|].
        apply list_elem_of_singleton in Ha as ->. by rewrite Hrs.
    + apply StronglySorted_app_2; [|done|repeat constructor].
      intros a b Ha Hb. apply list_elem_of_singleton in Hb as ->.
      rewrite Forall_forall in Hall. specialize (Hall a Ha).
      apply Z.leb_gt in Hall. rewrite Hds, Hdist in Hall by done.
      unfold byOffset. lia.
Qed.

Lemma placeIf_ord (w : World) (e : Edge) (s : sid) :
  PaneInv w0 above below w -> OrderInv w0 above below w -> s ∈ _stickies w ->
  exists d',
    placeIf (capable e (heap w0 s)) (representation e (heap w0 s)) (container e) s w
    = Return tt (set_dom d' w)
    /\ PaneInv w0 above below (set_dom d' w)
    /\ OrderInv w0 above below (set_dom d' w).
Proof.
  intros Hinv Hord Hreg.
  destruct (representation e (heap w0 s)) as [x|] eqn:Hx.
  2:{ exists (dom w). rewrite set_dom_id. split; [|done].
      unfold placeIf. by destruct (capable e (heap w0 s)). }
  rewrite (Hbuilt e s x Hx). cbn [placeIf]. rewrite _addToStickyContainer_eq.
  destruct (decide (x ∈ Dom.children (dom w) (container e))) as [Hin|Hnot].
  { rewrite placement_present by done. exists (dom w). by rewrite set_dom_id. }
  assert (HP : Placed w0 above below [] w).
  { intros e' s' y Hs'. by apply elem_of_nil in Hs'. }
  destruct (placement_inv w0 content above below Hfresh [] w e s x Hinv HP
              (Hbuilt e s x Hx) Hx) as (d' & Hp & Hinv' & _).
  rewrite Hp. exists d'. split; [done|]. split; [done|].
  destruct (placement_lists w0 content above below Hfresh w s e x d' Hinv Hx Hnot Hp)
    as (_ & _ & Hedges).
  pose proof (fresh_containers _ _ _ _ Hfresh) as Hab.
  constructor.
  - apply (ord_layout _ _ _ _ Hord).
  - apply (ord_distance _ _ _ _ Hord).
  - apply (ord_registry _ _ _ _ Hord).
  - intros e'. destruct (ord_listed _ _ _ _ Hord e') as (L & HL & Hsorted).
    destruct (decide (e' = e)) as [->|Hne].
    + by apply (placement_ord w e s x L d').
    + exists L. split; [|done]. destruct HL as [Hk Hm]. split; [|done].
      cbn [dom set_dom]. by rewrite (Hedges e') by done.
Qed.

Lemma sortSticky_ord (w : World) (s : sid) :
  PaneInv w0 above below w -> OrderInv w0 above below w -> s ∈ _stickies w ->
  exists d',
    sortSticky s w = Return tt (set_dom d' w)
    /\ OrderInv w0 above below (set_dom d' w).
Proof.
  intros Hinv Hord Hreg.
  rewrite sortSticky_eq, (inv_above _ _ _ _ Hinv), (inv_below _ _ _ _ Hinv).
  destruct (inv_shape _ _ _ _ Hinv Top s) as [Hct Hrt].
  destruct (inv_shape _ _ _ _ Hinv Bottom s) as [Hcb Hrb].
  cbn [capable representation] in Hct, Hrt, Hcb, Hrb.
  rewrite Hct, Hrt, Hcb, Hrb.
  destruct (placeIf_ord w Top s Hinv Hord Hreg) as (d1 & Hr1 & Hinv1 & Hord1).
  destruct (placeIf_ord (set_dom d1 w) Bottom s Hinv1 Hord1 Hreg) as (d2 & Hr2 & _ & Hord2).
  cbn [capable representation edgeNode] in Hr1, Hr2.
  unfold bind. rewrite Hr1, Hr2. by exists d2.
Qed.









Lemma find_unique {A} (f : A -> bool) (a : A) (l : list A) :
  a ∈ l -> f a = true -> (forall b, b ∈ l -> f b = true -> b = a) ->
  List.find f l = Some a.
Proof.
  induction l as [|b l IH]; intros Ha Hfa Huniq; [by apply elem_of_nil in Ha|].
  simpl. destruct (f b) eqn:Eb.
  - f_equal. apply Huniq; [apply list_elem_of_here|done].
  - apply elem_of_cons in Ha as [->|Ha]; [congruence|].
    apply IH; [done..|]. intros c Hc. apply Huniq. by apply list_elem_of_further.
Qed.

Lemma nonDecreasing_sorted (d : sid -> Z) (L : list sid) :
  StronglySorted (fun a b => d a < d b) L ->
  nonDecreasing (map (fun a => Some (d a)) L) = true.
Proof.
  induction 1 as [|a L HL IH Ha]; [done|].
  destruct L as [|b L']; [done|].
  change (nonDecreasing (map (fun a => Some (d a)) (a :: b :: L')))
    with ((d a <=? d b) && nonDecreasing (map (fun a => Some (d a)) (b :: L'))).
  rewrite IH. apply Forall_cons in Ha as [Hab _]. rewrite andb_true_r.
  apply Z.leb_le. lia.
Qed.

(** What the ordering invariant says about a container. *)
Lemma OrderInv_ordered (w : World) (e : Edge) :
  PaneInv w0 above below w -> OrderInv w0 above below w ->
  pinnedOrdered w (container e) = true
  /\ exists L : list sid,
       Dom.children (dom w) (container e) = repNode w0 e <$> L
       /\ ownerDistances w (container e) = map (fun s => Some (distanceOf w s)) L
       /\ (forall s, s ∈ L -> s ∈ _stickies w)
       /\ StronglySorted (fun a b => distanceOf w a < distanceOf w b) L.
Proof.
  intros Hinv Hord.
  destruct (ord_listed _ _ _ _ Hord e) as (L & [Hk Hm] & Hsorted).
  assert (Hsorted' : StronglySorted (fun a b => distanceOf w a < distanceOf w b) L).
  { apply (StronglySorted_weaken_in (byOffset w0)); [done|].
    intros a b Ha Hb Hab. unfold distanceOf.
    destruct (Hm a Ha) as [Hra _]. destruct (Hm b Hb) as [Hrb _].
    by rewrite !(ord_distance _ _ _ _ Hord). }
  assert (Hdist : ownerDistances w (container e) = map (fun s => Some (distanceOf w s)) L).
  { unfold ownerDistances. rewrite Hk.
    assert (Hsub : forall a, a ∈ L -> a ∈ L) by done. revert Hsub.
    generalize L at 1 3 4. intros L' Hsub.
    induction L' as [|a L' IH]; [done|].
    rewrite fmap_cons. cbn [map]. f_equal.
    - unfold ownerOf.
      rewrite (find_unique _ a); [done| | |].
      + apply Hm, Hsub, list_elem_of_here.
      + apply bool_decide_eq_true.
        rewrite (stickyContentFor_edge w0 content above below Hfresh w e a Hinv).
        apply Hm, Hsub, list_elem_of_here.
      + intros b Hb Hfb. apply bool_decide_eq_true in Hfb.
        rewrite (stickyContentFor_edge w0 content above below Hfresh w e b Hinv) in Hfb.
        destruct (Hm a (Hsub a (list_elem_of_here _ _))) as [_ Hra].
        by destruct (fresh_distinct _ _ _ _ Hfresh e e b a _ Hfb Hra).
    - apply IH. intros b Hb. apply Hsub. by apply list_elem_of_further. }
  split.
  - unfold pinnedOrdered. rewrite Hdist. by apply nonDecreasing_sorted.
  - exists L. split; [done|]. split; [done|]. split; [|done].
    intros s Hs. by destruct (Hm s Hs).
Qed.


(** The sorting loop of [componentDidMount]. *)
Lemma forEach_sortSticky_ord (L : list sid) (w : World) :
  PaneInv w0 above below w -> OrderInv w0 above below w ->
  (forall s, s ∈ L -> s ∈ _stickies w) ->
  exists d',
    forEach L sortSticky w = Return tt (set_dom d' w)
    /\ PaneInv w0 above below (set_dom d' w)
    /\ OrderInv w0 above below (set_dom d' w).
Proof.
  revert w. induction L as [|a L IH]; intros w Hinv Hord Hreg.
  - exists (dom w). by rewrite set_dom_id.
  - assert (HP : Placed w0 above below [] w).
    { intros e s x Hs. by apply elem_of_nil in Hs. }
    destruct (sortSticky_inv w0 content above below Hfresh [] w a Hinv HP)
      as (d1 & Hr1 & Hinv1 & _).
    destruct (sortSticky_ord w a Hinv Hord) as (d1' & Hr1' & Hord1);
      [apply Hreg, list_elem_of_here|].
    rewrite Hr1 in Hr1'. injection Hr1' as Heq. rewrite <- Heq in Hord1.
    destruct (IH (set_dom d1 w) Hinv1 Hord1) as (d2 & Hr2 & Hinv2 & Hord2).
    { intros s Hs. apply Hreg. by apply list_elem_of_further. }
    exists d2. cbn [forEach]. unfold bind at 1. by rewrite Hr1, Hr2.
Qed.

End Ordering.



(** ** Registering again, and registering before the pane is mounted *)

Section Again.

Variables (w0 : World) (content above below : node).
Hypothesis Hfresh : FreshPane w0 content above below.

Local Abbreviation container := (edgeNode above below).

(** A region of [L] is already where [sortSticky] would put it. *)
Lemma sortSticky_placed (w : World) (s : sid) :
  PaneInv w0 above below w -> Placed w0 above below [s] w ->
  sortSticky s w = Return tt w.
Proof.
  intros Hinv HP.
  rewrite sortSticky_eq, (inv_above _ _ _ _ Hinv), (inv_below _ _ _ _ Hinv).
  destruct (inv_shape _ _ _ _ Hinv Top s) as [Hct Hrt].
  destruct (inv_shape _ _ _ _ Hinv Bottom s) as [Hcb Hrb].
  cbn [capable representation] in Hct, Hrt, Hcb, Hrb.
  assert (Hstep : forall e, placeIf (capable e (heap w0 s)) (representation e (heap w0 s))
                                   (container e) s w = Return tt w).
  { intros e. unfold placeIf. destruct (capable e (heap w0 s)) eqn:Hc; [|done].
    destruct (representation e (heap w0 s)) as [x|] eqn:Hx; [|done].
    apply placeIf_present. apply (HP e s x); [apply list_elem_of_here|done..]. }
  unfold bind. rewrite Hct, Hrt, Hcb, Hrb.
  pose proof (Hstep Top) as Ht. pose proof (Hstep Bottom) as Hb.
  cbn [capable representation edgeNode] in Ht, Hb. by rewrite Ht, Hb.
Qed.

(** Registering a registered region again is harmless: in every world of
    a history of a fresh pane [addSticky] of a registered region returns,
    the registry and the DOM are what they were, the region's distance is
    measured again, and the subscribers are called once. *)
Theorem addSticky_again_changes_nothing (ops : list Op) (s : sid) :
  let w := run ops w0 in
  s ∈ _stickies w ->
  let w' := world_of (addSticky s w) in
  returns (addSticky s w) = true
  /\ _stickies w' = _stickies w
  /\ dom w' = dom w
  /\ distanceFromTop (heap w' s) = offsetFromContentTop w s
  /\ (forall s', s' ≠ s -> heap w' s' = heap w s')
  /\ trace w' = trace w ++ broadcastCalls w.
Proof.
  intros w Hs w'. subst w'.
  destruct (run_fresh_inv w0 content above below Hfresh ops) as [Hinv HP].
  fold w in Hinv, HP.
  rewrite addSticky_eq, (inv_content _ _ _ _ Hinv), (fresh_content _ _ _ _ Hfresh).
  set (w1 := set_heap _ _).
  assert (Hinv1 : PaneInv w0 above below w1).
  { apply (PaneInv_transport w0 above below w); try done. by apply shapeOf_update_heap. }
  assert (HP1 : Placed w0 above below [s] w1).
  { intros e s' x Hs' Hcap Hx. apply list_elem_of_singleton in Hs' as ->.
    exact (HP e s x Hs Hcap Hx). }
  unfold bind. rewrite (sortSticky_placed w1 s Hinv1 HP1), notifySubscribers_eq.
  subst w1. cbn. unfold update_heap.
  split; [done|]. split; [by apply set_add_present|]. split; [done|].
  split; [by rewrite bool_decide_eq_true_2|]. split; [|done].
  intros s' Hne. by rewrite bool_decide_eq_false_2.
Qed.

End Again.

Lemma addSticky_again_changes_nothing_witness :
  let w0 := Scenario.mounted (Scenario.region true true) Scenario.tieMeasure in
  let w := run [OpAddSticky 1%nat; OpAddSticky 2%nat] w0 in
  _stickies (world_of (addSticky 1%nat w)) = [1%nat; 2%nat]
  /\ dom (world_of (addSticky 1%nat w)) = dom w.
Proof.
  intros w0 w.
  assert (Hs : 1%nat ∈ _stickies w) by (vm_compute; apply list_elem_of_here).
  destruct (addSticky_again_changes_nothing w0 _ _ _
              (mounted_region_fresh true true Scenario.tieMeasure)
              [OpAddSticky 1%nat; OpAddSticky 2%nat] 1%nat Hs) as (_ & Hreg & Hdom & _).
  split; [exact Hreg | exact Hdom].
Defined.

(** ** Mounting *)

Lemma with_distance_twice (m : Z) (s : Sticky) :
  with_distance m (with_distance m s) = with_distance m s.
Proof. done. Qed.

(** The measuring loop of [setStickiesDistanceFromTop]. *)
Lemma forEach_setDistanceFromTop (cc : node) (L : list sid) (w : World) :
  exists h',
    forEach L (fun sticky => setDistanceFromTop sticky cc) w = Return tt (set_heap h' w)
    /\ forall s, h' s = if bool_decide (s ∈ L)
                        then with_distance (offsetFromContentTop w s) (heap w s)
                        else heap w s.
Proof.
  revert w. induction L as [|a L IH]; intros w.
  - exists (heap w). split; [by destruct w|]. intros s.
    rewrite bool_decide_eq_false_2; [done|]. apply not_elem_of_nil.
  - cbn [forEach]. unfold bind at 1. unfold setDistanceFromTop at 1.
    set (w1 := set_heap _ w). destruct (IH w1) as (h' & Hr & Hh').
    exists h'. split; [by rewrite Hr|]. intros s. rewrite Hh'.
    subst w1. cbn [heap set_heap offsetFromContentTop]. unfold update_heap.
    destruct (decide (s = a)) as [->|Hne].
    + rewrite (bool_decide_eq_true_2 (a = a)) by done.
      rewrite (bool_decide_eq_true_2 (a ∈ a :: L)) by apply list_elem_of_here.
      by case_bool_decide.
    + rewrite (bool_decide_eq_false_2 (s = a)) by done.
      rewrite (bool_decide_ext (s ∈ a :: L) (s ∈ L)); [done|].
      rewrite elem_of_cons. split; [by intros [?|?]|by right].
Qed.

Section Mount.

Variables (wm : World) (content above below : node).

(** The pane about to mount: the refs are set, the containers are empty,
    the registry holds the regions that registered before. *)
Hypothesis Hfresh : FreshPane (set_stickies [] wm) content above below.

Local Abbreviation w0 := (set_stickies [] wm).
Local Abbreviation container := (edgeNode above below).

Lemma forEach_sortSticky_inv (L Lacc : list sid) (w : World) :
  PaneInv w0 above below w -> Placed w0 above below Lacc w ->
  exists d',
    forEach L sortSticky w = Return tt (set_dom d' w)
    /\ PaneInv w0 above below (set_dom d' w)
    /\ Placed w0 above below (Lacc ++ L) (set_dom d' w).
Proof.
  revert Lacc w. induction L as [|a L IH]; intros Lacc w Hinv HP.
  - exists (dom w). rewrite app_nil_r, set_dom_id. by split.
  - destruct (sortSticky_inv w0 content above below Hfresh Lacc w a Hinv HP)
      as (d1 & Hr1 & Hinv1 & HP1 & HPa).
    assert (HP2 : Placed w0 above below (Lacc ++ [a]) (set_dom d1 w)).
    { intros e s x Hs. apply elem_of_app in Hs as [Hs|Hs]; [by apply HP1|by apply HPa]. }
    destruct (IH (Lacc ++ [a]) (set_dom d1 w) Hinv1 HP2) as (d2 & Hr2 & Hinv2 & HP3).
    exists d2. cbn [forEach]. unfold bind at 1. rewrite Hr1, Hr2.
    rewrite <- app_assoc in HP3. by split.
Qed.

Lemma mount_measured :
  exists h',
    setStickiesDistanceFromTop wm = Return tt (set_heap h' wm)
    /\ forall s, h' s = if bool_decide (s ∈ _stickies wm)
                        then with_distance (offsetFromContentTop wm s) (heap wm s)
                        else heap wm s.
Proof.
  unfold setStickiesDistanceFromTop, withWorld.
  pose proof (fresh_content _ _ _ _ Hfresh) as Hc. cbn in Hc. rewrite Hc.
  apply forEach_setDistanceFromTop.
Qed.

Lemma mount_measured_inv (h' : sid -> Sticky) :
  (forall s, h' s = if bool_decide (s ∈ _stickies wm)
                    then with_distance (offsetFromContentTop wm s) (heap wm s)
                    else heap wm s) ->
  PaneInv w0 above below (set_heap h' wm).
Proof.
  intros Hh'.
  apply (PaneInv_transport w0 above below w0);
    [apply (PaneInv_fresh w0 content above below Hfresh)|done..|].
  intros s. cbn [heap set_heap set_stickies]. rewrite Hh'.
  case_bool_decide; [|done]. apply shapeOf_with_distance.
Qed.

(** [componentDidMount] catches up with the regions that registered
    before the pane was mounted.  It returns; the value assigned to
    [scrollTop] is the non-zero [initialScrollPosition], if there is one;
    every registered region gets its distance measured and its
    representations put into the containers of the edges it is capable of;
    the other Sticky objects and the registry are untouched; the
    containers hold representations of capable regions only; and the
    subscribers are called once. *)
Theorem componentDidMount_places_the_registered (props : Props) :
  let w' := world_of (componentDidMountWith props wm) in
  componentDidMountWith props wm
  = Return (match initialScrollPosition props with
            | Some position => if bool_decide (position = 0) then None else Some position
            | None => None
            end) w'
  /\ _stickies w' = _stickies wm
  /\ (forall s, s ∈ _stickies wm ->
        heap w' s = with_distance (offsetFromContentTop wm s) (heap wm s))
  /\ (forall s, s ∉ _stickies wm -> heap w' s = heap wm s)
  /\ (forall e s x, s ∈ _stickies wm -> capable e (heap wm s) = true ->
        representation e (heap wm s) = Some x ->
        x ∈ pinnedChildren w' (containerRef e w'))
  /\ (forall e x, x ∈ pinnedChildren w' (containerRef e w') ->
        exists s, representation e (heap wm s) = Some x /\ capable e (heap wm s) = true)
  /\ trace w' = trace wm ++ broadcastCalls wm.
Proof.
  destruct mount_measured as (h' & Hm & Hh').
  pose proof (mount_measured_inv h' Hh') as Hinv1.
  assert (HP1 : Placed w0 above below [] (set_heap h' wm)).
  { intros e s x Hs. by apply elem_of_nil in Hs. }
  destruct (forEach_sortSticky_inv (_stickies wm) [] _ Hinv1 HP1) as (d' & Hs & Hinv2 & HP2).
  pose proof (fresh_content _ _ _ _ Hfresh) as Hc. cbn in Hc.
  assert (Hrun : componentDidMountWith props wm
                 = Return (match initialScrollPosition props with
                           | Some position =>
                               if bool_decide (position = 0) then None else Some position
                           | None => None
                           end)
                     (set_trace (trace wm ++ broadcastCalls wm) (set_dom d' (set_heap h' wm)))).
  { unfold componentDidMountWith, withWorld, componentDidMount. rewrite Hc.
    unfold bind. rewrite Hm. unfold withWorld. cbn [_stickies set_heap].
    rewrite Hs, notifySubscribers_eq. unfold ret. by destruct (initialScrollPosition props). }
  intros w'. subst w'. rewrite Hrun. cbn [world_of].
  split; [done|]. split; [done|].
  cbn [heap set_trace set_dom set_heap trace].
  split; [intros s Hin; by rewrite Hh', bool_decide_eq_true_2|].
  split; [intros s Hin; by rewrite Hh', bool_decide_eq_false_2|].
  assert (Href : forall e, containerRef e (set_trace (trace wm ++ broadcastCalls wm)
                                            (set_dom d' (set_heap h' wm)))
                           = Some (container e)).
  { intros []; cbn; [apply (fresh_above _ _ _ _ Hfresh)|apply (fresh_below _ _ _ _ Hfresh)]. }
  split; [|split; [|done]].
  - intros e s x Hin Hcap Hx. rewrite Href. cbn [pinnedChildren dom set_trace].
    apply (HP2 e s x); [by rewrite app_nil_l|done..].
  - intros e x. rewrite Href. cbn [pinnedChildren dom set_trace].
    apply (inv_owned _ _ _ _ Hinv2).
Qed.

End Mount.

Lemma componentDidMount_places_the_registered_witness :
  let wm := set_stickies [2%nat; 1%nat]
              (Scenario.mounted (Scenario.region true true) Scenario.tieMeasure) in
  let props := mkProps 0 (Some 40) None in
  returns (componentDidMountWith props wm) = true
  /\ Scenario.topOf 1%nat ∈ Dom.children (dom (world_of (componentDidMountWith props wm)))
                                     Scenario.above.
Proof.
  intros wm props.
  destruct (componentDidMount_places_the_registered wm _ _ _
              (mounted_region_fresh true true Scenario.tieMeasure) props)
    as (Hr & _ & _ & _ & Hplaced & _).
  split; [by rewrite Hr|].
  apply (Hplaced Top 1%nat (Scenario.topOf 1%nat)); [|done..].
  apply list_elem_of_further, list_elem_of_here.
Defined.

(** ** Registering before the pane is mounted *)

(** While [contentContainer] is null [addSticky] only registers the
    region: it returns, nothing is measured or moved, and no subscriber is
    called. *)
Theorem addSticky_before_mount_only_registers (w : World) (s : sid) :
  contentContainer w = None ->
  let w' := world_of (addSticky s w) in
  returns (addSticky s w) = true
  /\ s ∈ _stickies w'
  /\ (forall s', s' ∈ _stickies w' <-> s' ∈ _stickies w \/ s' = s)
  /\ heap w' = heap w /\ dom w' = dom w /\ trace w' = trace w.
Proof.
  intros Hc. rewrite addSticky_eq, Hc, notifySubscribers_eq.
  unfold broadcastCalls. cbn. rewrite Hc, app_nil_r.
  split; [done|]. split; [apply elem_of_set_add_iff; by right|].
  split; [intros s'; apply elem_of_set_add_iff|done].
Qed.


(** ** Mounting orders the containers *)

Section MountOrder.

Variables (wm : World) (content above below : node).
Hypothesis Hfresh : FreshPane (set_stickies [] wm) content above below.
Hypothesis Hset : NoDup (_stickies wm).
Hypothesis Hties : forall s s',
  offsetFromContentTop wm s = offsetFromContentTop wm s' -> s = s'.
Hypothesis Hbuilt : forall e s x,
  representation e (heap wm s) = Some x -> capable e (heap wm s) = true.

Local Abbreviation w0 := (set_stickies [] wm).
Local Abbreviation container := (edgeNode above below).

(** With pairwise distinct offsets [componentDidMount] leaves both
    containers ordered, in whatever order the regions registered: the
    children of a container are representations of registered regions, in
    strictly increasing order of the distances just measured. *)
Theorem componentDidMount_orders_the_containers (props : Props) :
  let w' := world_of (componentDidMountWith props wm) in
  forall e : Edge,
    pinnedOrdered w' (container e) = true
    /\ exists L : list sid,
         Dom.children (dom w') (container e) = repNode wm e <$> L
         /\ (forall s, s ∈ L -> s ∈ _stickies wm)
         /\ StronglySorted (fun a b => offsetFromContentTop wm a < offsetFromContentTop wm b) L.
Proof.
  destruct (mount_measured wm content above below Hfresh) as (h' & Hm & Hh').
  pose proof (mount_measured_inv wm content above below Hfresh h' Hh') as Hinv1.
  assert (Hord1 : OrderInv w0 above below (set_heap h' wm)).
  { constructor; [done| |done|].
    - intros s Hs. cbn [heap set_heap _stickies] in Hs |- *.
      by rewrite Hh', bool_decide_eq_true_2.
    - intros e. exists []. split; [|constructor]. split.
      + apply (fresh_empty _ _ _ _ Hfresh).
      + intros s Hs. by apply elem_of_nil in Hs. }
  destruct (forEach_sortSticky_ord w0 content above below Hfresh Hties Hbuilt
              (_stickies wm) _ Hinv1 Hord1) as (d' & Hs & Hinv2 & Hord2); [done|].
  pose proof (fresh_content _ _ _ _ Hfresh) as Hc. cbn in Hc.
  intros w'.
  assert (Hw' : w' = set_trace (trace wm ++ broadcastCalls wm) (set_dom d' (set_heap h' wm))).
  { subst w'. unfold componentDidMountWith, withWorld, componentDidMount. rewrite Hc.
    unfold bind. rewrite Hm. unfold withWorld. cbn [_stickies set_heap].
    rewrite Hs, notifySubscribers_eq. unfold ret. by destruct (initialScrollPosition props). }
  assert (Hinv3 : PaneInv w0 above below w').
  { rewrite Hw'. by apply (PaneInv_transport w0 above below _ _ Hinv2). }
  assert (Hord3 : OrderInv w0 above below w').
  { rewrite Hw'. by apply (OrderInv_transport w0 above below _ _ Hord2). }
  intros e.
  destruct (OrderInv_ordered w0 content above below Hfresh w' e Hinv3 Hord3)
    as (Hordered & L & Hk & _ & Hin & Hsorted).
  split; [done|]. exists L. split; [done|].
  assert (Hreg : _stickies w' = _stickies wm) by by rewrite Hw'.
  split; [intros s Hs'; rewrite <- Hreg; by apply Hin|].
  apply (StronglySorted_weaken_in (fun a b => distanceOf w' a < distanceOf w' b)); [done|].
  intros a b Ha Hb. unfold distanceOf.
  rewrite !(ord_distance _ _ _ _ Hord3) by by apply Hin. done.
Qed.

End MountOrder.

Lemma componentDidMount_orders_the_containers_witness :
  let wm := set_stickies [1%nat; 2%nat; 3%nat]
              (Scenario.mounted (builtRegion true true) (fun s => 100 - Z.of_nat s)) in
  let props := mkProps 0 None None in
  pinnedOrdered (world_of (componentDidMountWith props wm)) Scenario.above = true
  /\ Dom.children (dom (world_of (componentDidMountWith props wm))) Scenario.above
     = [Scenario.topOf 3%nat; Scenario.topOf 2%nat; Scenario.topOf 1%nat].
Proof.
  intros wm props.
  assert (Hset : NoDup (_stickies wm)).
  { apply NoDup_ListNoDup. repeat constructor; cbn; lia. }
  assert (Hties : forall s s', offsetFromContentTop wm s = offsetFromContentTop wm s' -> s = s').
  { intros s s'. simpl. lia. }
  assert (Hbuilt : forall e s x, representation e (heap wm s) = Some x ->
            capable e (heap wm s) = true).
  { intros [] s x _; reflexivity. }
  pose proof (componentDidMount_orders_the_containers wm _ _ _
                (mounted_built_fresh true true _) Hset Hties Hbuilt props) as Hord.
  split; [apply (Hord Top)|reflexivity].
Defined.

Lemma addSticky_before_mount_only_registers_witness :
  let w := unmounted (Scenario.region true true) Scenario.tieMeasure in
  returns (addSticky 1%nat w) = true
  /\ _stickies (world_of (addSticky 1%nat w)) = [1%nat]
  /\ trace (world_of (addSticky 1%nat w)) = [].
Proof.
  intros w.
  destruct (addSticky_before_mount_only_registers w 1%nat eq_refl)
    as (Hr & _ & _ & _ & _ & Ht).
  split; [exact Hr|]. split; [reflexivity|exact Ht].
Defined.
